(** * Serial byte queues, the UBX frame parser and the MAVLink
      acknowledgement bookkeeping of the rescue-boat firmware

    Shallow embedding of [Serial.c] (circular byte buffer), [Gps.c]
    (streaming UBX state machine) and [Mavlink.c] (command dispatch and
    acknowledgement record).  C integers are [Z] with the wrap-around of
    their declared width written out; C arrays are lists updated by index;
    module-level variables are fields of one record per module that every
    function takes and returns. *)

From Stdlib Require Import ZArith Lia Bool.
From Stdlib Require Floats.SpecFloat.
From stdpp Require Import base list functions.

Open Scope Z_scope.

(** ** Machine integers *)

(** [unsigned char] / [uint8_t] *)
Definition u8 (x : Z) : Z := x mod 256.
(** [unsigned int] / [uint32_t] on the 32-bit target *)
Definition u32 (x : Z) : Z := x mod 4294967296.
(** [uint16_t] *)
Definition u16 (x : Z) : Z := x mod 65536.
(** [int32_t], two's complement *)
Definition s32 (x : Z) : Z := (x + 2147483648) mod 4294967296 - 2147483648.

(** C truth value of an integer used as a condition. *)
Definition c_true (x : Z) : bool := negb (x =? 0).

(** [a[i]] for an array held as a list; a read outside the array (undefined
    in C) yields 0 here. *)
Definition aget (a : list Z) (i : Z) : Z := default 0 (a !! Z.to_nat i).
(** [a[i] = v]; a write outside the array (undefined in C) is dropped. *)
Definition aset (a : list Z) (i : Z) (v : Z) : list Z := <[Z.to_nat i := v]> a.

(** ** Serial.c: the circular byte buffer *)

Module Serial.

Definition QUEUESIZE : Z := 512.

(** [struct CircBuffer] *)
Record CircBuffer := mkCircBuffer {
  buffer : list Z;        (* unsigned char buffer[QUEUESIZE] *)
  head : Z;               (* int *)
  tail : Z;               (* int *)
  size : Z;               (* unsigned int *)
  overflowCount : Z       (* unsigned char *)
}.

(** [CBRef] is a pointer to a buffer; [None] is the null pointer. *)
Definition CBRef : Type := option CircBuffer.

Definition newCircBuffer (cB : CircBuffer) : CircBuffer :=
  {| buffer := replicate (Z.to_nat QUEUESIZE) 0;
     head := 0; tail := 0; size := QUEUESIZE; overflowCount := 0 |}.

Definition getLength (cB : CBRef) : Z :=
  match cB with
  | Some c =>
      if head c <=? tail c then u32 (tail c - head c)
      else u32 (size c + tail c - head c)
  | None => 0
  end.

Definition readHead (cB : CBRef) : Z :=
  match cB with Some c => head c | None => 0 end.

Definition readTail (cB : CBRef) : Z :=
  match cB with Some c => tail c | None => 0 end.

Definition peak (cB : CBRef) : Z :=
  match cB with
  | Some c => if 0 <? getLength cB then aget (buffer c) (head c) else 0
  | None => 0
  end.

(** [readFront]: the returned byte and the buffer afterwards.  The index
    comparison is done in [unsigned int], as C converts [head] for it; the
    byte passes through a [char] and comes back as the same
    [unsigned char]. *)
Definition readFront (cB : CBRef) : Z * CBRef :=
  match cB with
  | Some c =>
      if 0 <? getLength cB then
        let retVal := aget (buffer c) (head c) in
        (retVal,
         Some {| buffer := buffer c;
                 head := if u32 (head c) <? u32 (size c - 1)
                         then head c + 1 else 0;
                 tail := tail c; size := size c;
                 overflowCount := overflowCount c |})
      else (128, cB)
  | None => (254, None)
  end.

(** [writeBack]: the return value and the buffer afterwards.  Both
    [return 1] / [return 0] of the two inner branches are commented out in
    the source, so a non-null buffer always yields the final [return 0]. *)
Definition writeBack (cB : CBRef) (data : Z) : Z * CBRef :=
  match cB with
  | Some c =>
      if getLength cB =? u32 (size c - 1) then
        (0, Some {| buffer := buffer c; head := head c; tail := tail c;
                    size := size c;
                    overflowCount := u8 (overflowCount c + 1) |})
      else
        (0, Some {| buffer := aset (buffer c) (tail c) data;
                    head := head c;
                    tail := if u32 (tail c) <? u32 (size c - 1)
                            then tail c + 1 else 0;
                    size := size c;
                    overflowCount := overflowCount c |})
  | None => (1, None)
  end.

Definition makeEmpty (cB : CBRef) : CBRef :=
  match cB with
  | Some c =>
      Some {| buffer := replicate (length (buffer c)) 0;
              head := 0; tail := 0; size := size c; overflowCount := 0 |}
  | None => None
  end.

Definition getOverflow (cB : CBRef) : Z :=
  match cB with Some c => overflowCount c | None => 0 end.

(** The value of a plain [char] that holds the byte [v] (0..255).  Whether
    plain [char] is signed is the compiler's choice, given by
    [char_signed]; it is signed with XC32, the compiler of the PIC32
    target, and then the bytes from 128 on are negative. *)
Definition char_of_byte (char_signed : bool) (v : Z) : Z :=
  if char_signed && (128 <=? v) then v - 256 else v.

(** [Serial_getChar] on the receive buffer: 0 when nothing is buffered,
    otherwise what [readFront] returns, converted to the plain [char] the
    function returns. *)
Definition Serial_getChar (char_signed : bool) (receiveBuffer : CBRef)
  : Z * CBRef :=
  if getLength receiveBuffer =? 0 then (0, receiveBuffer)
  else
    let (r, rb) := readFront receiveBuffer in
    (char_of_byte char_signed r, rb).

Definition Serial_isReceiveEmpty (receiveBuffer : CBRef) : bool :=
  getLength receiveBuffer =? 0.

(** *** Well-formed buffers and the bytes they hold *)

(** The invariant of a live buffer: the array has [size] slots and both
    indices are inside it. *)
Record wf (c : CircBuffer) : Prop := mkWf {
  wf_size : size c = QUEUESIZE;
  wf_buffer : Z.of_nat (length (buffer c)) = size c;
  wf_head : 0 <= head c < size c;
  wf_tail : 0 <= tail c < size c;
  wf_overflow : 0 <= overflowCount c < 256
}.

(** The buffered bytes, oldest first: the slots from [head] up to, not
    including, [tail], going round the end of the array. *)
Definition contents (c : CircBuffer) : list Z :=
  (fun i : nat => aget (buffer c) ((head c + Z.of_nat i) mod size c))
    <$> seq 0 (Z.to_nat (getLength (Some c))).

(** One queue operation, and a run of them collecting what the pops return. *)
Inductive Op := Push (b : Z) | Pop.

Fixpoint run (ops : list Op) (cB : CBRef) : list Z * CBRef :=
  match ops with
  | [] => ([], cB)
  | Push b :: ops' => run ops' (snd (writeBack cB b))
  | Pop :: ops' =>
      let (r, cB') := readFront cB in
      let (rs, cB'') := run ops' cB' in (r :: rs, cB'')
  end.

(** The bytes a run pushes, in order. *)
Definition pushed (ops : list Op) : list Z :=
  omap (fun o => match o with Push b => Some b | Pop => None end) ops.

(** A run is admissible from [n] buffered bytes when the count of pushed
    but not yet popped bytes stays within [0 .. cap]. *)
Fixpoint admissible (cap : Z) (n : Z) (ops : list Op) : Prop :=
  match ops with
  | [] => True
  | Push _ :: ops' => n + 1 <= cap /\ admissible cap (n + 1) ops'
  | Pop :: ops' => 0 < n /\ admissible cap (n - 1) ops'
  end.

(** Pushing a list of bytes one after the other. *)
Definition push_all (bs : list Z) (cB : CBRef) : CBRef :=
  foldl (fun q b => snd (writeBack q b)) cB bs.

(** Popping [n] times, keeping every returned value. *)
Fixpoint pop_n (n : nat) (cB : CBRef) : list Z * CBRef :=
  match n with
  | O => ([], cB)
  | S n' =>
      let (r, cB') := readFront cB in
      let (rs, cB'') := pop_n n' cB' in (r :: rs, cB'')
  end.

(** The contract of [push] in the words of the specification, for a buffer
    [c] and a byte [data]: a full queue answers false, counts one overflow
    and keeps bytes and tail; any other queue stores at [tail], advances it
    modulo the capacity and answers true. *)
Definition push_contract (c : CircBuffer) (data : Z) : Prop :=
  match writeBack (Some c) data with
  | (ret, Some c') =>
      if getLength (Some c) =? size c - 1 then
        c_true ret = false /\ overflowCount c' = overflowCount c + 1 /\
        buffer c' = buffer c /\ tail c' = tail c
      else
        c_true ret = true /\ buffer c' = aset (buffer c) (tail c) data /\
        tail c' = (tail c + 1) mod size c
  | (_, None) => False
  end.

(** *** The serial port: the functions around the two buffers *)

Definition Serial_isTransmitEmpty (transmitBuffer : CBRef) : bool :=
  getLength transmitBuffer =? 0.

(** [Serial_putChar] on the transmit buffer.  [TRMT] is the transmitter's
    "shift register empty" status bit as read during the call and [U1TXIF]
    the transmit interrupt flag before it; the result is the buffer and the
    flag afterwards.  The [char] argument converts to the [unsigned char]
    parameter of [writeBack]. *)
Definition Serial_putChar (ch : Z) (TRMT U1TXIF : bool)
    (transmitBuffer : CBRef) : CBRef * bool :=
  if negb (getLength transmitBuffer =? QUEUESIZE) then
    (snd (writeBack transmitBuffer (u8 ch)), if TRMT then true else U1TXIF)
  else (transmitBuffer, U1TXIF).

(** [IntUart1Handler].  [rx] is [Some v] when the receive interrupt flag is
    set, [v] being what the receive register [U1RXREG] reads; [tx] is the
    transmit interrupt flag.  The result is the receive buffer, the
    transmit buffer and the byte written to the transmit register
    [U1TXREG], if one is. *)
Definition IntUart1Handler (rx : option Z) (tx : bool)
    (receiveBuffer transmitBuffer : CBRef) : CBRef * CBRef * option Z :=
  let receiveBuffer :=
    match rx with
    | Some v => snd (writeBack receiveBuffer (u8 v))
    | None => receiveBuffer
    end in
  if tx then
    if negb (getLength transmitBuffer =? 0) then
      let (r, transmitBuffer) := readFront transmitBuffer in
      (receiveBuffer, transmitBuffer, Some r)
    else (receiveBuffer, transmitBuffer, None)
  else (receiveBuffer, transmitBuffer, None).

(** The receive interrupt firing once for each byte of [bs], no transmit
    interrupt pending: the receive buffer afterwards. *)
Definition receive_all (bs : list Z) (receiveBuffer transmitBuffer : CBRef)
  : CBRef :=
  foldl (fun rb v => fst (fst (IntUart1Handler (Some v) false rb
                                 transmitBuffer)))
    receiveBuffer bs.

(** [n] calls of [Serial_getChar], keeping every returned value. *)
Fixpoint getChar_n (char_signed : bool) (n : nat) (receiveBuffer : CBRef)
  : list Z * CBRef :=
  match n with
  | O => ([], receiveBuffer)
  | S n' =>
      let (r, rb) := Serial_getChar char_signed receiveBuffer in
      let (rs, rb') := getChar_n char_signed n' rb in (r :: rs, rb')
  end.

(** [Serial_putChar] called for each character of [s], the transmitter
    reporting [TRMT] throughout. *)
Definition putChar_all (s : list Z) (TRMT : bool) (U1TXIF : bool)
    (transmitBuffer : CBRef) : CBRef * bool :=
  foldl (fun st ch => Serial_putChar ch TRMT (snd st) (fst st))
    (transmitBuffer, U1TXIF) s.

(** [n] transmit interrupts in a row, nothing received meanwhile: the
    transmit buffer afterwards and the bytes written to [U1TXREG]. *)
Fixpoint transmit_n (n : nat) (receiveBuffer transmitBuffer : CBRef)
  : CBRef * list Z :=
  match n with
  | O => (transmitBuffer, [])
  | S n' =>
      let '(rb, tb, out) := IntUart1Handler None true receiveBuffer
                              transmitBuffer in
      let (tb', outs) := transmit_n n' rb tb in
      (tb', match out with Some r => r :: outs | None => outs end)
  end.

(** A bounded first-in first-out queue held as the list of its bytes with
    an 8-bit count of rejected pushes: the run of a sequence of operations,
    a pop of the empty queue answering 128. *)
Fixpoint fifo_run (cap : Z) (ops : list Op) (q : list Z) (ov : Z)
  : list Z * (list Z * Z) :=
  match ops with
  | [] => ([], (q, ov))
  | Push b :: ops' =>
      if Z.of_nat (length q) =? cap then fifo_run cap ops' q (u8 (ov + 1))
      else fifo_run cap ops' (q ++ [b]) ov
  | Pop :: ops' =>
      match q with
      | [] => let (rs, r) := fifo_run cap ops' [] ov in (128 :: rs, r)
      | x :: q' => let (rs, r) := fifo_run cap ops' q' ov in (x :: rs, r)
      end
  end.

Definition _mon_putc (c : Z) (TRMT U1TXIF : bool) (transmitBuffer : CBRef)
  : CBRef * bool :=
  Serial_putChar c TRMT U1TXIF transmitBuffer.

(** [_mon_puts].  The loop runs while [i < sizeof (s)], and [s] is a
    pointer: [sizeof_s] is the size of a pointer on the target (4 on the
    32-bit PIC32), not the length of the string. *)
Definition _mon_puts (sizeof_s : nat) (s : list Z) (TRMT U1TXIF : bool)
    (transmitBuffer : CBRef) : CBRef * bool :=
  foldl (fun st i => _mon_putc (aget s (Z.of_nat i)) TRMT (snd st) (fst st))
    (transmitBuffer, U1TXIF) (seq 0 sizeof_s).

End Serial.

(** ** Gps.c: the UBX frame parser *)

Module Gps.

Definition RAW_BUFFER_SIZE : Z := 255.
Definition CHECKSUM_BYTES : Z := 2.

Definition SYNC1_INDEX : Z := 0.
Definition SYNC2_INDEX : Z := 1.
Definition CLASS_INDEX : Z := 2.
Definition ID_INDEX : Z := 3.
Definition LENGTH1_INDEX : Z := 4.
Definition LENGTH2_INDEX : Z := 5.
Definition PAYLOAD_INDEX : Z := 6.

Definition SYNC1_CHAR : Z := 0xB5.
Definition SYNC2_CHAR : Z := 0x62.
Definition NAV_CLASS : Z := 0x01.
Definition NAV_POSLLH_ID : Z := 0x02.
Definition NAV_STATUS_ID : Z := 0x03.
Definition NAV_VELOCITY_ID : Z := 0x12.

Definition NOFIX_STATUS : Z := 0x00.
Definition DELAY_TIMEOUT : Z := 5000.

Inductive GpsState := STATE_IDLE | STATE_READ | STATE_PARSE.

(** The result codes of Board.h, of which the parser only tests
    [!= SUCCESS]. *)
Inductive retcode := SUCCESS | FAILURE.

(** The file-level variables of Gps.c, together with the two things of its
    environment the state machine touches: the receive queue of the GPS
    UART and the connection timer. *)
Record Gps := mkGps {
  state : GpsState             (* the enum variable [state] *);
  rawMessage : list Z          (* uint8_t rawMessage[RAW_BUFFER_SIZE] *);
  byteIndex : Z                (* uint8_t *);
  messageLength : Z            (* uint8_t *);
  messageClass : Z             (* uint8_t *);
  messageId : Z                (* uint8_t *);
  gpsStatus : Z                (* uint8_t *);
  hasNewMessage : bool         (* BOOL *);
  isConnected : bool           (* BOOL *);
  isUsingError : bool          (* BOOL *);
  hasPosition : bool           (* BOOL *);
  heading : Z                  (* int32_t *);
  geodetic_latitude : Z        (* int32_t geodetic.latitude *);
  geodetic_longitude : Z       (* int32_t geodetic.longitude *);
  geodetic_altitude : Z        (* int32_t geodetic.altitude *);
  velocity_north : Z           (* int32_t velocity.north *);
  velocity_east : Z            (* int32_t velocity.east *);
  error_latitude : Z           (* int32_t error.latitude *);
  error_longitude : Z          (* int32_t error.longitude *);
  uart_rx : list Z             (* bytes waiting in the receive queue of GPS_UART_ID *);
  timer_gps : option Z         (* last period given to Timer_new(TIMER_GPS, _) *)
}.

Definition set_state (v : GpsState) (g : Gps) : Gps :=
  {| state := v;
     rawMessage := rawMessage g;
     byteIndex := byteIndex g;
     messageLength := messageLength g;
     messageClass := messageClass g;
     messageId := messageId g;
     gpsStatus := gpsStatus g;
     hasNewMessage := hasNewMessage g;
     isConnected := isConnected g;
     isUsingError := isUsingError g;
     hasPosition := hasPosition g;
     heading := heading g;
     geodetic_latitude := geodetic_latitude g;
     geodetic_longitude := geodetic_longitude g;
     geodetic_altitude := geodetic_altitude g;
     velocity_north := velocity_north g;
     velocity_east := velocity_east g;
     error_latitude := error_latitude g;
     error_longitude := error_longitude g;
     uart_rx := uart_rx g;
     timer_gps := timer_gps g |}.

Definition set_rawMessage (v : list Z) (g : Gps) : Gps :=
  {| state := state g;
     rawMessage := v;
     byteIndex := byteIndex g;
     messageLength := messageLength g;
     messageClass := messageClass g;
     messageId := messageId g;
     gpsStatus := gpsStatus g;
     hasNewMessage := hasNewMessage g;
     isConnected := isConnected g;
     isUsingError := isUsingError g;
     hasPosition := hasPosition g;
     heading := heading g;
     geodetic_latitude := geodetic_latitude g;
     geodetic_longitude := geodetic_longitude g;
     geodetic_altitude := geodetic_altitude g;
     velocity_north := velocity_north g;
     velocity_east := velocity_east g;
     error_latitude := error_latitude g;
     error_longitude := error_longitude g;
     uart_rx := uart_rx g;
     timer_gps := timer_gps g |}.

Definition set_byteIndex (v : Z) (g : Gps) : Gps :=
  {| state := state g;
     rawMessage := rawMessage g;
     byteIndex := v;
     messageLength := messageLength g;
     messageClass := messageClass g;
     messageId := messageId g;
     gpsStatus := gpsStatus g;
     hasNewMessage := hasNewMessage g;
     isConnected := isConnected g;
     isUsingError := isUsingError g;
     hasPosition := hasPosition g;
     heading := heading g;
     geodetic_latitude := geodetic_latitude g;
     geodetic_longitude := geodetic_longitude g;
     geodetic_altitude := geodetic_altitude g;
     velocity_north := velocity_north g;
     velocity_east := velocity_east g;
     error_latitude := error_latitude g;
     error_longitude := error_longitude g;
     uart_rx := uart_rx g;
     timer_gps := timer_gps g |}.

Definition set_messageLength (v : Z) (g : Gps) : Gps :=
  {| state := state g;
     rawMessage := rawMessage g;
     byteIndex := byteIndex g;
     messageLength := v;
     messageClass := messageClass g;
     messageId := messageId g;
     gpsStatus := gpsStatus g;
     hasNewMessage := hasNewMessage g;
     isConnected := isConnected g;
     isUsingError := isUsingError g;
     hasPosition := hasPosition g;
     heading := heading g;
     geodetic_latitude := geodetic_latitude g;
     geodetic_longitude := geodetic_longitude g;
     geodetic_altitude := geodetic_altitude g;
     velocity_north := velocity_north g;
     velocity_east := velocity_east g;
     error_latitude := error_latitude g;
     error_longitude := error_longitude g;
     uart_rx := uart_rx g;
     timer_gps := timer_gps g |}.

Definition set_messageClass (v : Z) (g : Gps) : Gps :=
  {| state := state g;
     rawMessage := rawMessage g;
     byteIndex := byteIndex g;
     messageLength := messageLength g;
     messageClass := v;
     messageId := messageId g;
     gpsStatus := gpsStatus g;
     hasNewMessage := hasNewMessage g;
     isConnected := isConnected g;
     isUsingError := isUsingError g;
     hasPosition := hasPosition g;
     heading := heading g;
     geodetic_latitude := geodetic_latitude g;
     geodetic_longitude := geodetic_longitude g;
     geodetic_altitude := geodetic_altitude g;
     velocity_north := velocity_north g;
     velocity_east := velocity_east g;
     error_latitude := error_latitude g;
     error_longitude := error_longitude g;
     uart_rx := uart_rx g;
     timer_gps := timer_gps g |}.

Definition set_messageId (v : Z) (g : Gps) : Gps :=
  {| state := state g;
     rawMessage := rawMessage g;
     byteIndex := byteIndex g;
     messageLength := messageLength g;
     messageClass := messageClass g;
     messageId := v;
     gpsStatus := gpsStatus g;
     hasNewMessage := hasNewMessage g;
     isConnected := isConnected g;
     isUsingError := isUsingError g;
     hasPosition := hasPosition g;
     heading := heading g;
     geodetic_latitude := geodetic_latitude g;
     geodetic_longitude := geodetic_longitude g;
     geodetic_altitude := geodetic_altitude g;
     velocity_north := velocity_north g;
     velocity_east := velocity_east g;
     error_latitude := error_latitude g;
     error_longitude := error_longitude g;
     uart_rx := uart_rx g;
     timer_gps := timer_gps g |}.

Definition set_gpsStatus (v : Z) (g : Gps) : Gps :=
  {| state := state g;
     rawMessage := rawMessage g;
     byteIndex := byteIndex g;
     messageLength := messageLength g;
     messageClass := messageClass g;
     messageId := messageId g;
     gpsStatus := v;
     hasNewMessage := hasNewMessage g;
     isConnected := isConnected g;
     isUsingError := isUsingError g;
     hasPosition := hasPosition g;
     heading := heading g;
     geodetic_latitude := geodetic_latitude g;
     geodetic_longitude := geodetic_longitude g;
     geodetic_altitude := geodetic_altitude g;
     velocity_north := velocity_north g;
     velocity_east := velocity_east g;
     error_latitude := error_latitude g;
     error_longitude := error_longitude g;
     uart_rx := uart_rx g;
     timer_gps := timer_gps g |}.

Definition set_hasNewMessage (v : bool) (g : Gps) : Gps :=
  {| state := state g;
     rawMessage := rawMessage g;
     byteIndex := byteIndex g;
     messageLength := messageLength g;
     messageClass := messageClass g;
     messageId := messageId g;
     gpsStatus := gpsStatus g;
     hasNewMessage := v;
     isConnected := isConnected g;
     isUsingError := isUsingError g;
     hasPosition := hasPosition g;
     heading := heading g;
     geodetic_latitude := geodetic_latitude g;
     geodetic_longitude := geodetic_longitude g;
     geodetic_altitude := geodetic_altitude g;
     velocity_north := velocity_north g;
     velocity_east := velocity_east g;
     error_latitude := error_latitude g;
     error_longitude := error_longitude g;
     uart_rx := uart_rx g;
     timer_gps := timer_gps g |}.

Definition set_isConnected (v : bool) (g : Gps) : Gps :=
  {| state := state g;
     rawMessage := rawMessage g;
     byteIndex := byteIndex g;
     messageLength := messageLength g;
     messageClass := messageClass g;
     messageId := messageId g;
     gpsStatus := gpsStatus g;
     hasNewMessage := hasNewMessage g;
     isConnected := v;
     isUsingError := isUsingError g;
     hasPosition := hasPosition g;
     heading := heading g;
     geodetic_latitude := geodetic_latitude g;
     geodetic_longitude := geodetic_longitude g;
     geodetic_altitude := geodetic_altitude g;
     velocity_north := velocity_north g;
     velocity_east := velocity_east g;
     error_latitude := error_latitude g;
     error_longitude := error_longitude g;
     uart_rx := uart_rx g;
     timer_gps := timer_gps g |}.

Definition set_isUsingError (v : bool) (g : Gps) : Gps :=
  {| state := state g;
     rawMessage := rawMessage g;
     byteIndex := byteIndex g;
     messageLength := messageLength g;
     messageClass := messageClass g;
     messageId := messageId g;
     gpsStatus := gpsStatus g;
     hasNewMessage := hasNewMessage g;
     isConnected := isConnected g;
     isUsingError := v;
     hasPosition := hasPosition g;
     heading := heading g;
     geodetic_latitude := geodetic_latitude g;
     geodetic_longitude := geodetic_longitude g;
     geodetic_altitude := geodetic_altitude g;
     velocity_north := velocity_north g;
     velocity_east := velocity_east g;
     error_latitude := error_latitude g;
     error_longitude := error_longitude g;
     uart_rx := uart_rx g;
     timer_gps := timer_gps g |}.

Definition set_hasPosition (v : bool) (g : Gps) : Gps :=
  {| state := state g;
     rawMessage := rawMessage g;
     byteIndex := byteIndex g;
     messageLength := messageLength g;
     messageClass := messageClass g;
     messageId := messageId g;
     gpsStatus := gpsStatus g;
     hasNewMessage := hasNewMessage g;
     isConnected := isConnected g;
     isUsingError := isUsingError g;
     hasPosition := v;
     heading := heading g;
     geodetic_latitude := geodetic_latitude g;
     geodetic_longitude := geodetic_longitude g;
     geodetic_altitude := geodetic_altitude g;
     velocity_north := velocity_north g;
     velocity_east := velocity_east g;
     error_latitude := error_latitude g;
     error_longitude := error_longitude g;
     uart_rx := uart_rx g;
     timer_gps := timer_gps g |}.

Definition set_heading (v : Z) (g : Gps) : Gps :=
  {| state := state g;
     rawMessage := rawMessage g;
     byteIndex := byteIndex g;
     messageLength := messageLength g;
     messageClass := messageClass g;
     messageId := messageId g;
     gpsStatus := gpsStatus g;
     hasNewMessage := hasNewMessage g;
     isConnected := isConnected g;
     isUsingError := isUsingError g;
     hasPosition := hasPosition g;
     heading := v;
     geodetic_latitude := geodetic_latitude g;
     geodetic_longitude := geodetic_longitude g;
     geodetic_altitude := geodetic_altitude g;
     velocity_north := velocity_north g;
     velocity_east := velocity_east g;
     error_latitude := error_latitude g;
     error_longitude := error_longitude g;
     uart_rx := uart_rx g;
     timer_gps := timer_gps g |}.

Definition set_geodetic_latitude (v : Z) (g : Gps) : Gps :=
  {| state := state g;
     rawMessage := rawMessage g;
     byteIndex := byteIndex g;
     messageLength := messageLength g;
     messageClass := messageClass g;
     messageId := messageId g;
     gpsStatus := gpsStatus g;
     hasNewMessage := hasNewMessage g;
     isConnected := isConnected g;
     isUsingError := isUsingError g;
     hasPosition := hasPosition g;
     heading := heading g;
     geodetic_latitude := v;
     geodetic_longitude := geodetic_longitude g;
     geodetic_altitude := geodetic_altitude g;
     velocity_north := velocity_north g;
     velocity_east := velocity_east g;
     error_latitude := error_latitude g;
     error_longitude := error_longitude g;
     uart_rx := uart_rx g;
     timer_gps := timer_gps g |}.

Definition set_geodetic_longitude (v : Z) (g : Gps) : Gps :=
  {| state := state g;
     rawMessage := rawMessage g;
     byteIndex := byteIndex g;
     messageLength := messageLength g;
     messageClass := messageClass g;
     messageId := messageId g;
     gpsStatus := gpsStatus g;
     hasNewMessage := hasNewMessage g;
     isConnected := isConnected g;
     isUsingError := isUsingError g;
     hasPosition := hasPosition g;
     heading := heading g;
     geodetic_latitude := geodetic_latitude g;
     geodetic_longitude := v;
     geodetic_altitude := geodetic_altitude g;
     velocity_north := velocity_north g;
     velocity_east := velocity_east g;
     error_latitude := error_latitude g;
     error_longitude := error_longitude g;
     uart_rx := uart_rx g;
     timer_gps := timer_gps g |}.

Definition set_geodetic_altitude (v : Z) (g : Gps) : Gps :=
  {| state := state g;
     rawMessage := rawMessage g;
     byteIndex := byteIndex g;
     messageLength := messageLength g;
     messageClass := messageClass g;
     messageId := messageId g;
     gpsStatus := gpsStatus g;
     hasNewMessage := hasNewMessage g;
     isConnected := isConnected g;
     isUsingError := isUsingError g;
     hasPosition := hasPosition g;
     heading := heading g;
     geodetic_latitude := geodetic_latitude g;
     geodetic_longitude := geodetic_longitude g;
     geodetic_altitude := v;
     velocity_north := velocity_north g;
     velocity_east := velocity_east g;
     error_latitude := error_latitude g;
     error_longitude := error_longitude g;
     uart_rx := uart_rx g;
     timer_gps := timer_gps g |}.

Definition set_velocity_north (v : Z) (g : Gps) : Gps :=
  {| state := state g;
     rawMessage := rawMessage g;
     byteIndex := byteIndex g;
     messageLength := messageLength g;
     messageClass := messageClass g;
     messageId := messageId g;
     gpsStatus := gpsStatus g;
     hasNewMessage := hasNewMessage g;
     isConnected := isConnected g;
     isUsingError := isUsingError g;
     hasPosition := hasPosition g;
     heading := heading g;
     geodetic_latitude := geodetic_latitude g;
     geodetic_longitude := geodetic_longitude g;
     geodetic_altitude := geodetic_altitude g;
     velocity_north := v;
     velocity_east := velocity_east g;
     error_latitude := error_latitude g;
     error_longitude := error_longitude g;
     uart_rx := uart_rx g;
     timer_gps := timer_gps g |}.

Definition set_velocity_east (v : Z) (g : Gps) : Gps :=
  {| state := state g;
     rawMessage := rawMessage g;
     byteIndex := byteIndex g;
     messageLength := messageLength g;
     messageClass := messageClass g;
     messageId := messageId g;
     gpsStatus := gpsStatus g;
     hasNewMessage := hasNewMessage g;
     isConnected := isConnected g;
     isUsingError := isUsingError g;
     hasPosition := hasPosition g;
     heading := heading g;
     geodetic_latitude := geodetic_latitude g;
     geodetic_longitude := geodetic_longitude g;
     geodetic_altitude := geodetic_altitude g;
     velocity_north := velocity_north g;
     velocity_east := v;
     error_latitude := error_latitude g;
     error_longitude := error_longitude g;
     uart_rx := uart_rx g;
     timer_gps := timer_gps g |}.

Definition set_error_latitude (v : Z) (g : Gps) : Gps :=
  {| state := state g;
     rawMessage := rawMessage g;
     byteIndex := byteIndex g;
     messageLength := messageLength g;
     messageClass := messageClass g;
     messageId := messageId g;
     gpsStatus := gpsStatus g;
     hasNewMessage := hasNewMessage g;
     isConnected := isConnected g;
     isUsingError := isUsingError g;
     hasPosition := hasPosition g;
     heading := heading g;
     geodetic_latitude := geodetic_latitude g;
     geodetic_longitude := geodetic_longitude g;
     geodetic_altitude := geodetic_altitude g;
     velocity_north := velocity_north g;
     velocity_east := velocity_east g;
     error_latitude := v;
     error_longitude := error_longitude g;
     uart_rx := uart_rx g;
     timer_gps := timer_gps g |}.

Definition set_error_longitude (v : Z) (g : Gps) : Gps :=
  {| state := state g;
     rawMessage := rawMessage g;
     byteIndex := byteIndex g;
     messageLength := messageLength g;
     messageClass := messageClass g;
     messageId := messageId g;
     gpsStatus := gpsStatus g;
     hasNewMessage := hasNewMessage g;
     isConnected := isConnected g;
     isUsingError := isUsingError g;
     hasPosition := hasPosition g;
     heading := heading g;
     geodetic_latitude := geodetic_latitude g;
     geodetic_longitude := geodetic_longitude g;
     geodetic_altitude := geodetic_altitude g;
     velocity_north := velocity_north g;
     velocity_east := velocity_east g;
     error_latitude := error_latitude g;
     error_longitude := v;
     uart_rx := uart_rx g;
     timer_gps := timer_gps g |}.

Definition set_uart_rx (v : list Z) (g : Gps) : Gps :=
  {| state := state g;
     rawMessage := rawMessage g;
     byteIndex := byteIndex g;
     messageLength := messageLength g;
     messageClass := messageClass g;
     messageId := messageId g;
     gpsStatus := gpsStatus g;
     hasNewMessage := hasNewMessage g;
     isConnected := isConnected g;
     isUsingError := isUsingError g;
     hasPosition := hasPosition g;
     heading := heading g;
     geodetic_latitude := geodetic_latitude g;
     geodetic_longitude := geodetic_longitude g;
     geodetic_altitude := geodetic_altitude g;
     velocity_north := velocity_north g;
     velocity_east := velocity_east g;
     error_latitude := error_latitude g;
     error_longitude := error_longitude g;
     uart_rx := v;
     timer_gps := timer_gps g |}.

Definition set_timer_gps (v : option Z) (g : Gps) : Gps :=
  {| state := state g;
     rawMessage := rawMessage g;
     byteIndex := byteIndex g;
     messageLength := messageLength g;
     messageClass := messageClass g;
     messageId := messageId g;
     gpsStatus := gpsStatus g;
     hasNewMessage := hasNewMessage g;
     isConnected := isConnected g;
     isUsingError := isUsingError g;
     hasPosition := hasPosition g;
     heading := heading g;
     geodetic_latitude := geodetic_latitude g;
     geodetic_longitude := geodetic_longitude g;
     geodetic_altitude := geodetic_altitude g;
     velocity_north := velocity_north g;
     velocity_east := velocity_east g;
     error_latitude := error_latitude g;
     error_longitude := error_longitude g;
     uart_rx := uart_rx g;
     timer_gps := v |}.

(** Modelled from the spec: Uart.c is not among the sources.  Per the
    specification each serial channel owns an inbound ByteQueue that the
    receive interrupt pushes to and the application pops from, first in
    first out; [UART_isReceiveEmpty] and [UART_getChar] are taken to be to
    that queue what [Serial_isReceiveEmpty] and [Serial_getChar] are to the
    one of Serial.c.  The queue is held as the list of its buffered bytes
    (see [Serial.contents]). *)
Definition UART_isReceiveEmpty (q : list Z) : bool :=
  match q with [] => true | _ :: _ => false end.

Definition UART_getChar (q : list Z) : Z * list Z :=
  match q with [] => (0, []) | c :: q' => (c, q') end.

(** The receive interrupt of the GPS UART delivering one byte.  The byte
    is taken to find room in the queue; a full queue, which drops the byte
    and counts an overflow, is not modelled. *)
Definition UART_interrupt (b : Z) (g : Gps) : Gps :=
  set_uart_rx (uart_rx g ++ [b]) g.

Definition hasNewByte (g : Gps) : bool :=
  negb (UART_isReceiveEmpty (uart_rx g)).

Definition startIdleState (g : Gps) : Gps := set_state STATE_IDLE g.

Definition startReadState (g : Gps) : Gps :=
  set_hasNewMessage false
    (set_messageLength PAYLOAD_INDEX
       (set_byteIndex 0 (set_state STATE_READ g))).

Definition startParseState (g : Gps) : Gps :=
  set_byteIndex PAYLOAD_INDEX (set_state STATE_PARSE g).

Definition setConnected (g : Gps) : Gps :=
  set_timer_gps (Some DELAY_TIMEOUT) (set_isConnected true g).

(** [byteIndex++] and [byteIndex += n] on the 8-bit index. *)
Definition advance (n : Z) (g : Gps) : Gps :=
  set_byteIndex (u8 (byteIndex g + n)) g.

Definition readMessageByte (g : Gps) : retcode * Gps :=
  if hasNewByte g && negb (hasNewMessage g) then
    let (c, q) := UART_getChar (uart_rx g) in
    let g := set_uart_rx q
               (set_rawMessage (aset (rawMessage g) (byteIndex g) c) g) in
    let i := byteIndex g in
    if i =? SYNC1_INDEX then
      if negb (aget (rawMessage g) i =? SYNC1_CHAR) then (FAILURE, g)
      else (SUCCESS, advance 1 g)
    else if i =? SYNC2_INDEX then
      if negb (aget (rawMessage g) i =? SYNC2_CHAR) then (FAILURE, g)
      else (SUCCESS, advance 1 (setConnected g))
    else if i =? CLASS_INDEX then
      (SUCCESS, advance 1 (set_messageClass (aget (rawMessage g) i) g))
    else if i =? ID_INDEX then
      (SUCCESS, advance 1 (set_messageId (aget (rawMessage g) i) g))
    else if i =? LENGTH1_INDEX then
      (SUCCESS, advance 1 (set_messageLength (aget (rawMessage g) i) g))
    else if i =? LENGTH2_INDEX then
      let g := set_messageLength
                 (u8 (messageLength g + Z.shiftl (aget (rawMessage g) i) 8))
                 g in
      let g := set_messageLength
                 (u8 (messageLength g + (PAYLOAD_INDEX + CHECKSUM_BYTES)))
                 g in
      (SUCCESS, advance 1 g)
    else
      (SUCCESS,
       advance 1 (if messageLength g - 1 <=? i
                  then set_hasNewMessage true g else g))
  else (FAILURE, g).

(** The four-byte little-endian field starting at [rawMessage[i]], as the
    parser assembles it in [int] arithmetic and casts it to [int32_t]. *)
Definition unpack32 (raw : list Z) (i : Z) : Z :=
  s32 (aget raw i + Z.shiftl (aget raw (i + 1)) 8
       + Z.shiftl (aget raw (i + 2)) 16 + Z.shiftl (aget raw (i + 3)) 24).

Definition parsePayloadField (g : Gps) : Gps :=
  let raw := rawMessage g in
  let i := byteIndex g in
  let off := i - PAYLOAD_INDEX in
  if messageClass g =? NAV_CLASS then
    if messageId g =? NAV_POSLLH_ID then
      if off =? 0 then advance 4 g
      else if off =? 4 then
        advance 4 (set_geodetic_longitude (unpack32 raw i) g)
      else if off =? 8 then
        advance 4 (set_geodetic_latitude (unpack32 raw i) g)
      else if off =? 12 then advance 4 g
      else if off =? 16 then
        advance 4 (set_hasPosition true
                     (set_geodetic_altitude (unpack32 raw i) g))
      else if off =? 20 then advance 4 g
      else if off =? 24 then advance 4 g
      else g
    else if messageId g =? NAV_STATUS_ID then
      if off =? 0 then advance 4 g
      else if off =? 4 then advance 1 (set_gpsStatus (aget raw i) g)
      else if off =? 5 then advance 1 g
      else if off =? 6 then advance 1 g
      else if off =? 7 then advance 1 g
      else if off =? 8 then advance 4 g
      else if off =? 12 then advance 4 g
      else g
    else if messageId g =? NAV_VELOCITY_ID then
      if off =? 0 then advance 4 g
      else if off =? 4 then
        advance 4 (set_velocity_north (unpack32 raw i) g)
      else if off =? 8 then
        advance 4 (set_velocity_east (unpack32 raw i) g)
      else if off =? 12 then advance 4 g
      else if off =? 16 then advance 4 g
      else if off =? 20 then advance 4 g
      else if off =? 24 then advance 4 (set_heading (unpack32 raw i) g)
      else if off =? 28 then advance 4 (advance 4 g) (* no break: falls into 32 *)
      else if off =? 32 then advance 4 g
      else g
    else set_byteIndex (messageLength g) g
  else set_byteIndex (messageLength g) g.

Definition parseMessage (g : Gps) : retcode * Gps :=
  if byteIndex g <? messageLength g - CHECKSUM_BYTES
  then (SUCCESS, parsePayloadField g)
  else (SUCCESS, set_hasNewMessage false g).

(** One call of [GPS_runSM].  [timer_expired] is what
    [Timer_isExpired(TIMER_GPS)] answers during this call (Timer.c is not
    among the sources, so the answer is an input); the closing
    [if (Timer_isExpired(TIMER_GPS)) isConnected = FALSE;] is written as
    the assignment of the value [isConnected] has afterwards. *)
Definition GPS_runSM (timer_expired : bool) (g : Gps) : Gps :=
  let g :=
    match state g with
    | STATE_IDLE => if hasNewByte g then startReadState g else g
    | STATE_READ =>
        let g :=
          if hasNewByte g then
            let (r, g') := readMessageByte g in
            match r with SUCCESS => g' | FAILURE => startIdleState g' end
          else g in
        if hasNewMessage g then startParseState g else g
    | STATE_PARSE =>
        if hasNewMessage g then snd (parseMessage g) else startIdleState g
    end in
  set_isConnected (if timer_expired then false else isConnected g) g.

Definition GPS_hasFix (g : Gps) : bool := negb (gpsStatus g =? NOFIX_STATUS).
Definition GPS_hasPosition (g : Gps) : bool := hasPosition g.
Definition GPS_getNorthVelocity (g : Gps) : Z := velocity_north g.
Definition GPS_getEastVelocity (g : Gps) : Z := velocity_east g.
Definition GPS_getHeading (g : Gps) : Z := heading g.
Definition GPS_isConnected (g : Gps) : bool := isConnected g.

Definition GPS_setLongitudeError (lonError : Z) (g : Gps) : Gps :=
  set_error_longitude lonError g.
Definition GPS_setLatitudeError (latError : Z) (g : Gps) : Gps :=
  set_error_latitude latError g.
Definition GPS_enableErrorCorrection (g : Gps) : Gps :=
  set_isUsingError true g.
Definition GPS_disableErrorCorrection (g : Gps) : Gps :=
  set_isUsingError false g.

(** C [float] is IEEE 754 binary32 on the target: 24 bits of precision,
    exponents up to 128, round to nearest even. *)
Definition float : Type := SpecFloat.spec_float.

(** Conversion of an integer to [float]. *)
Definition float_of_int (z : Z) : float :=
  SpecFloat.binary_normalize 24 128 z 0 false.

Definition float_div (x y : float) : float := SpecFloat.SFdiv 24 128 x y.

(** [COORDINATE_TO_DECIMAL(coord)] is [((float)coord/10000000)]. *)
Definition COORDINATE_TO_DECIMAL (coord : float) : float :=
  float_div coord (float_of_int 10000000).

(** The subtraction is done in [int32_t] (wrapping here where C leaves the
    overflow undefined) and its result initialises the [float]. *)
Definition GPS_getLatitude (g : Gps) : float :=
  let lat := float_of_int
               (if isUsingError g
                then s32 (geodetic_latitude g - error_latitude g)
                else geodetic_latitude g) in
  COORDINATE_TO_DECIMAL lat.

Definition GPS_getLongitude (g : Gps) : float :=
  let lon := float_of_int
               (if isUsingError g
                then s32 (geodetic_longitude g - error_longitude g)
                else geodetic_longitude g) in
  COORDINATE_TO_DECIMAL lon.

(** The accessors in the words of the specification: the error-correction
    offset applied additively. *)
Definition additive_getLatitude (g : Gps) : float :=
  COORDINATE_TO_DECIMAL
    (float_of_int (if isUsingError g
                   then s32 (geodetic_latitude g + error_latitude g)
                   else geodetic_latitude g)).

Definition additive_getLongitude (g : Gps) : float :=
  COORDINATE_TO_DECIMAL
    (float_of_int (if isUsingError g
                   then s32 (geodetic_longitude g + error_longitude g)
                   else geodetic_longitude g)).

(** *** Driving the state machine *)

(** The variables of Gps.c as they are when the program starts: zeroed,
    but for the initialisers the source gives. *)
Definition gps_start : Gps :=
  {| state := STATE_IDLE;
     rawMessage := replicate (Z.to_nat RAW_BUFFER_SIZE) 0;
     byteIndex := 0; messageLength := LENGTH2_INDEX + 1;
     messageClass := 0; messageId := 0; gpsStatus := NOFIX_STATUS;
     hasNewMessage := false; isConnected := false; isUsingError := false;
     hasPosition := false; heading := 0;
     geodetic_latitude := 0; geodetic_longitude := 0; geodetic_altitude := 0;
     velocity_north := 0; velocity_east := 0;
     error_latitude := 0; error_longitude := 0;
     uart_rx := []; timer_gps := None |}.

(** One scheduler tick: the receive interrupt may have delivered a byte
    since the previous tick, then [GPS_runSM] runs once. *)
Definition tick (arrival : option Z) (timer_expired : bool) (g : Gps) : Gps :=
  GPS_runSM timer_expired
    (match arrival with Some b => UART_interrupt b g | None => g end).

(** A run of ticks; [expired k] is the timer's answer in the tick number
    [k] of the run. *)
Fixpoint run (expired : nat -> bool) (arrivals : list (option Z)) (g : Gps)
  : Gps :=
  match arrivals with
  | [] => g
  | a :: rest => run (fun k => expired (S k)) rest (tick a (expired O) g)
  end.

(** Feeding a byte sequence one byte per tick, then [idle] ticks in which
    nothing arrives. *)
Definition one_per_tick (bytes : list Z) (idle : nat) : list (option Z) :=
  (Some <$> bytes) ++ replicate idle None.

(** A UBX frame: sync bytes, class, id, little-endian payload length,
    payload, two checksum bytes. *)
Definition ubx_frame (cls id : Z) (payload : list Z) (ck_a ck_b : Z)
  : list Z :=
  [SYNC1_CHAR; SYNC2_CHAR; cls; id;
   Z.of_nat (length payload) mod 256; Z.of_nat (length payload) / 256]
  ++ payload ++ [ck_a; ck_b].

(** The four bytes of a 32-bit value, least significant first. *)
Definition le32 (v : Z) : list Z :=
  [v mod 256; (v / 256) mod 256; (v / 65536) mod 256;
   (v / 16777216) mod 256].

(** The decoded navigation data: position, velocity, heading, fix status
    and the position-obtained flag. *)
Definition nav (g : Gps) : Z * Z * Z * Z * Z * Z * Z * bool :=
  (geodetic_latitude g, geodetic_longitude g, geodetic_altitude g,
   velocity_north g, velocity_east g, heading g, gpsStatus g,
   hasPosition g).

(** No field that the parser decodes from four bytes both starts inside a
    payload of [len] bytes and ends outside it. *)
Definition field_fits (len off : Z) : bool :=
  (len <=? off) || (off + 4 <=? len).

Definition fields_within_payload (cls id len : Z) : bool :=
  if cls =? NAV_CLASS then
    if id =? NAV_POSLLH_ID then
      field_fits len 4 && field_fits len 8 && field_fits len 16
    else if id =? NAV_VELOCITY_ID then
      field_fits len 4 && field_fits len 8 && field_fits len 24
    else true
  else true.

(** [isConnected] after [n] ticks in which the parser does not see a
    second sync byte: any expiry of the timer clears it. *)
Fixpoint timer_clears (expired : nat -> bool) (n : nat) (c : bool) : bool :=
  match n with
  | O => c
  | S n' =>
      timer_clears (fun k => expired (S k)) n'
        (if expired O then false else c)
  end.

(** The parser after the six header bytes of a frame were fed from idle
    and read, the next byte of the frame not yet delivered. *)
Definition header_state (expired : nat -> bool) (g : Gps)
    (cls id lo hi : Z) : Gps :=
  set_uart_rx []
    (run expired (Some <$> [SYNC1_CHAR; SYNC2_CHAR; cls; id; lo; hi; 0]) g).

(** Two parser states that differ at most in the raw frame buffer. *)
Definition same_but_raw (g1 g2 : Gps) : Prop :=
  set_rawMessage [] g1 = set_rawMessage [] g2.

(** Two parser states whose raw frame buffers hold the same header and
    payload bytes (everything before the checksum). *)
Definition payload_agrees (g1 g2 : Gps) : Prop :=
  forall i, 0 <= i < messageLength g1 - CHECKSUM_BYTES ->
            aget (rawMessage g1) i = aget (rawMessage g2) i.

(** The parser right after a frame was read: parse state entered, the
    bytes that followed the header stored from index 6 on. *)
Definition frame_read (c : bool) (h : Gps) (payload : list Z) (ck_a ck_b : Z)
  : Gps :=
  set_isConnected c
    (set_uart_rx []
       (startParseState
          (set_hasNewMessage true
             (set_rawMessage
                (list_inserts 6 (payload ++ [ck_a; ck_b]) (rawMessage h))
                h)))).

(** The parser is looking for the first sync byte, and no byte waiting in
    the receive queue is one. *)
Definition hunting (g : Gps) : Prop :=
  (state g = STATE_IDLE \/
   (state g = STATE_READ /\ byteIndex g = 0 /\ hasNewMessage g = false /\
    uart_rx g <> []))
  /\ Forall (fun b => b <> SYNC1_CHAR) (uart_rx g).

(** Ticks a hunting parser needs to drain its receive queue: two per
    waiting byte, one less when the read state is already entered. *)
Definition backlog (g : Gps) : nat :=
  (2 * length (uart_rx g)
   - match state g with STATE_READ => 1 | _ => 0 end)%nat.

(** *** The parse state under observation *)

(** The bytes an arrival adds to the receive queue. *)
Definition pending (a : option Z) : list Z :=
  match a with Some b => [b] | None => [] end.

(** The bytes a run of ticks delivers, in order. *)
Definition arrived (arrivals : list (option Z)) : list Z :=
  omap (fun a => a) arrivals.

(** What steers the parse state: state, frame-complete flag, byte index,
    total length, class and id. *)
Definition parse_ctl (g : Gps) : GpsState * bool * Z * Z * Z * Z :=
  (state g, hasNewMessage g, byteIndex g, messageLength g, messageClass g,
   messageId g).

(** Whether the [switch] that [parsePayloadField] runs for this class and
    id has a [case] (or a [default]) for the payload offset [off]. *)
Definition has_case (cls id off : Z) : bool :=
  if cls =? NAV_CLASS then
    if id =? NAV_POSLLH_ID then
      (off =? 0) || (off =? 4) || (off =? 8) || (off =? 12) || (off =? 16)
      || (off =? 20) || (off =? 24)
    else if id =? NAV_STATUS_ID then
      (off =? 0) || (off =? 4) || (off =? 5) || (off =? 6) || (off =? 7)
      || (off =? 8) || (off =? 12)
    else if id =? NAV_VELOCITY_ID then
      (off =? 0) || (off =? 4) || (off =? 8) || (off =? 12) || (off =? 16)
      || (off =? 20) || (off =? 24) || (off =? 28) || (off =? 32)
    else true
  else true.

(** Whether class and id are those of a message the parser decodes. *)
Definition known_message (cls id : Z) : bool :=
  (cls =? NAV_CLASS)
  && ((id =? NAV_POSLLH_ID) || (id =? NAV_STATUS_ID)
      || (id =? NAV_VELOCITY_ID)).

End Gps.

(** ** Mavlink.c: command dispatch and the acknowledgement record *)

Module Mavlink.

Definition TRUE : Z := 1.
Definition FALSE : Z := 0.
Definition MAV_NUMBER : Z := 15.
Definition COMP_ID : Z := 15.
Definition MAVLINK_MSG_ID_START_RESCUE : Z := 241.
Definition MAVLINK_MSG_ID_START_RESCUE_LEN : Z := 10.

(** [mavlink_message_t]; the repository's code writes [msgid] and the
    payload, the framing library the rest. *)
Record mavlink_message_t := mkMessage {
  checksum : Z; magic : Z; len : Z; seq : Z; sysid : Z; compid : Z;
  msgid : Z;
  payload : list Z
}.

(** [mavlink_start_rescue_t]; the fields are [latitude], [longitude],
    [ack] and [status] in the source. *)
Record mavlink_start_rescue_t := mkStartRescue {
  sr_latitude : Z;     (* uint32_t *)
  sr_longitude : Z;    (* uint32_t *)
  sr_ack : Z;          (* uint8_t *)
  sr_status : Z        (* uint8_t *)
}.

Record mavlink_mavlink_ack_t := mkAck { Message_Name : Z }.

(** Modelled from the spec: Mavlink.h is not among the sources.  The
    record [ACK] is the specification's PendingAck (status NONE, WAITING or
    RECEIVED, last frame, its length, destination channel) under the field
    and constant names Mavlink.c uses. *)
Inductive ACK_status_t :=
  ACK_STATUS_NONE | ACK_STATUS_WAIT | ACK_STATUS_RECIEVED.

Record ACK := mkACK {
  ACK_status : ACK_status_t;
  last_buf : list Z;
  last_length : Z;
  last_uart_id : Z
}.

(** What Mavlink.c uses and the sources do not contain: the MAVLink
    framing library, the ack message generated like part_000, constants of
    absent headers, the C conversion from [float] to [uint32_t], and the
    indeterminate contents of uninitialised locals. *)
Class External := {
  mavlink_status_t : Type;
  packet_rx_drop_count : mavlink_status_t -> Z;
  (** [mavlink_parse_char(MAVLINK_COMM_0, c, &msg, &status)]: the value
      returned, and [msg] and [status] afterwards *)
  mavlink_parse_char :
    Z -> mavlink_message_t * mavlink_status_t ->
    Z * (mavlink_message_t * mavlink_status_t);
  (** [mavlink_finalize_message(msg, system_id, component_id, length,
      crc_extra)]: [msg] afterwards *)
  mavlink_finalize_message :
    mavlink_message_t -> Z -> Z -> Z -> Z -> mavlink_message_t;
  (** [mavlink_msg_to_send_buffer(buf, &msg)]: the bytes written at the
      start of [buf]; their number is the value returned *)
  mavlink_msg_to_send_buffer : mavlink_message_t -> list Z;
  (** [mavlink_msg_mavlink_ack_pack(system_id, component_id, &msg,
      Message_Name)]: [msg] afterwards *)
  mavlink_msg_mavlink_ack_pack :
    Z -> Z -> mavlink_message_t -> Z -> mavlink_message_t;
  mavlink_msg_mavlink_ack_decode :
    mavlink_message_t -> mavlink_mavlink_ack_t;
  MAVLINK_MAX_PACKET_LEN : Z;
  MAVLINK_MSG_ID_XBEE_HEARTBEAT : Z;
  MAVLINK_MSG_ID_MAVLINK_ACK : Z;
  messageName_start_rescue : Z;
  XBEE_UART_ID : Z;
  uint32_of_float : Gps.float -> Z;
  (** a local [mavlink_message_t msg;] before it is packed *)
  stack_msg : mavlink_message_t;
  (** a local [uint8_t buf[MAVLINK_MAX_PACKET_LEN];] before it is written,
      followed by the byte behind it *)
  stack_buf : list Z
}.

(** What the module does to the rest of the system, in order. *)
Inductive Event :=
  | EvUART_putString (uart_id : Z) (data : list Z)
  | EvXbee_recieved_message_heartbeat (m : mavlink_message_t)
  | EvCompas_recieve_start_rescue (packet : mavlink_start_rescue_t).

Section WithExternal.
Context `{External}.

(** The file-level variables of Mavlink.c and [start_rescue], the receive
    queues of the UARTs, and the record of what was done. *)
Record World := mkWorld {
  packet_drops : Z;
  msg : mavlink_message_t;
  status : mavlink_status_t;
  start_rescue : ACK;
  uart_rx : Z -> list Z;
  trace : list Event
}.

Definition set_packet_drops (v : Z) (w : World) : World :=
  {| packet_drops := v; msg := msg w; status := status w;
     start_rescue := start_rescue w; uart_rx := uart_rx w;
     trace := trace w |}.

Definition set_parser (m : mavlink_message_t) (s : mavlink_status_t)
    (w : World) : World :=
  {| packet_drops := packet_drops w; msg := m; status := s;
     start_rescue := start_rescue w; uart_rx := uart_rx w;
     trace := trace w |}.

Definition set_start_rescue (v : ACK) (w : World) : World :=
  {| packet_drops := packet_drops w; msg := msg w; status := status w;
     start_rescue := v; uart_rx := uart_rx w; trace := trace w |}.

Definition set_uart_rx (v : Z -> list Z) (w : World) : World :=
  {| packet_drops := packet_drops w; msg := msg w; status := status w;
     start_rescue := start_rescue w; uart_rx := v; trace := trace w |}.

Definition emit (e : Event) (w : World) : World :=
  {| packet_drops := packet_drops w; msg := msg w; status := status w;
     start_rescue := start_rescue w; uart_rx := uart_rx w;
     trace := trace w ++ [e] |}.

(** Modelled from the spec: Uart.c is not among the sources.
    [UART_putString(uart_id, buf, length)] enqueues the first [length]
    bytes of [buf] on the outbound queue of the channel, fire and forget;
    it is recorded as an event.  [UART_isReceiveEmpty] and [UART_getChar]
    test and pop the inbound queue of the channel. *)
Definition UART_putString (uart_id : Z) (buf : list Z) (length : Z)
    (w : World) : World :=
  emit (EvUART_putString uart_id (take (Z.to_nat length) buf)) w.

Definition UART_isReceiveEmpty (uart_id : Z) (w : World) : bool :=
  match uart_rx w uart_id with [] => true | _ :: _ => false end.

Definition UART_getChar (uart_id : Z) (w : World) : Z * World :=
  match uart_rx w uart_id with
  | [] => (0, w)
  | c :: q => (c, set_uart_rx (<[uart_id := q]> (uart_rx w)) w)
  end.

(** The four bytes of a [uint32_t], least significant first, and back. *)
Definition put_uint32 (v : Z) : list Z :=
  [u32 v mod 256; (u32 v / 256) mod 256; (u32 v / 65536) mod 256;
   (u32 v / 16777216) mod 256].

Definition get_uint32 (p : list Z) (ofs : Z) : Z :=
  aget p ofs + 256 * aget p (ofs + 1) + 65536 * aget p (ofs + 2)
  + 16777216 * aget p (ofs + 3).

(** part_000.  On the little-endian target both variants of the
    generated code lay the payload out as latitude, longitude, ack,
    status. *)
Definition mavlink_msg_start_rescue_pack (system_id component_id : Z)
    (m : mavlink_message_t) (ack status latitude longitude : Z)
  : mavlink_message_t :=
  let m :=
    {| checksum := checksum m; magic := magic m; len := len m;
       seq := seq m; sysid := sysid m; compid := compid m;
       msgid := MAVLINK_MSG_ID_START_RESCUE;
       payload := list_inserts 0
                    (put_uint32 latitude ++ put_uint32 longitude
                     ++ [u8 ack; u8 status])
                    (payload m) |} in
  mavlink_finalize_message m system_id component_id 10 50.

Definition mavlink_msg_start_rescue_get_ack (m : mavlink_message_t) : Z :=
  aget (payload m) 8.
Definition mavlink_msg_start_rescue_get_status (m : mavlink_message_t) : Z :=
  aget (payload m) 9.
Definition mavlink_msg_start_rescue_get_latitude (m : mavlink_message_t)
  : Z := get_uint32 (payload m) 0.
Definition mavlink_msg_start_rescue_get_longitude (m : mavlink_message_t)
  : Z := get_uint32 (payload m) 4.

Definition mavlink_msg_start_rescue_decode (m : mavlink_message_t)
  : mavlink_start_rescue_t :=
  {| sr_latitude := mavlink_msg_start_rescue_get_latitude m;
     sr_longitude := mavlink_msg_start_rescue_get_longitude m;
     sr_ack := mavlink_msg_start_rescue_get_ack m;
     sr_status := mavlink_msg_start_rescue_get_status m |}.

(** Mavlink.c *)

(** A local [buf] once [mavlink_msg_to_send_buffer] wrote [bytes] at its
    start. *)
Definition filled_buf (bytes : list Z) : list Z :=
  list_inserts 0 bytes stack_buf.

Definition Mavlink_send_ACK (uart_id Message_Name : Z) (w : World) : World :=
  let m := mavlink_msg_mavlink_ack_pack MAV_NUMBER COMP_ID stack_msg
             Message_Name in
  let bytes := mavlink_msg_to_send_buffer m in
  let buf := filled_buf bytes in
  let length := u16 (Z.of_nat (length bytes)) in
  UART_putString uart_id buf length w.

(** [for (x = 0; x <= MAVLINK_MAX_PACKET_LEN; x++) dst[x] = src[x];]
    with [n] iterations left. *)
Fixpoint copy_loop (n : nat) (x : Z) (src dst : list Z) : list Z :=
  match n with
  | O => dst
  | S n' => copy_loop n' (x + 1) src (aset dst x (aget src x))
  end.

Definition Mavlink_send_start_rescue (uart_id ack status : Z)
    (latitude longitude : Gps.float) (w : World) : World :=
  let m := mavlink_msg_start_rescue_pack MAV_NUMBER COMP_ID stack_msg
             ack status (uint32_of_float latitude)
             (uint32_of_float longitude) in
  let bytes := mavlink_msg_to_send_buffer m in
  let buf := filled_buf bytes in
  let length := u16 (Z.of_nat (length bytes)) in
  let w := UART_putString uart_id buf length w in
  if ack =? TRUE then
    set_start_rescue
      {| ACK_status := ACK_STATUS_WAIT;
         last_buf := copy_loop (Z.to_nat (MAVLINK_MAX_PACKET_LEN + 1)) 0 buf
                       (last_buf (start_rescue w));
         last_length := length;
         last_uart_id := uart_id |} w
  else w.

Definition Mavlink_recieve_ACK (packet : mavlink_mavlink_ack_t) (w : World)
  : World :=
  if Message_Name packet =? messageName_start_rescue then
    set_start_rescue
      {| ACK_status := ACK_STATUS_RECIEVED;
         last_buf := last_buf (start_rescue w);
         last_length := last_length (start_rescue w);
         last_uart_id := last_uart_id (start_rescue w) |} w
  else w.

Definition Compas_recieve_start_rescue (packet : mavlink_start_rescue_t)
    (w : World) : World :=
  emit (EvCompas_recieve_start_rescue packet) w.

(** [Mavlink_resend_message(message)]: the world and [*message]
    afterwards. *)
Definition Mavlink_resend_message (message : ACK) (w : World)
  : ACK * World :=
  let w := UART_putString (last_uart_id message) (last_buf message)
             (last_length message) w in
  ({| ACK_status := ACK_STATUS_WAIT; last_buf := last_buf message;
      last_length := last_length message;
      last_uart_id := last_uart_id message |}, w).

(** [Mavlink_resend_message(&start_rescue)]: the pointer aliases the
    global record, which takes the update. *)
Definition Mavlink_resend_start_rescue (w : World) : World :=
  let (m, w') := Mavlink_resend_message (start_rescue w) w in
  set_start_rescue m w'.

(** The [switch (msg.msgid)] of [Mavlink_recieve] (XBEE_TEST not defined). *)
Definition dispatch (w : World) : World :=
  let id := msgid (msg w) in
  if id =? MAVLINK_MSG_ID_XBEE_HEARTBEAT then
    emit (EvXbee_recieved_message_heartbeat (msg w)) w
  else if id =? MAVLINK_MSG_ID_START_RESCUE then
    let data := mavlink_msg_start_rescue_decode (msg w) in
    let w := if sr_ack data =? TRUE
             then Mavlink_send_ACK XBEE_UART_ID messageName_start_rescue w
             else w in
    Compas_recieve_start_rescue data w
  else if id =? MAVLINK_MSG_ID_MAVLINK_ACK then
    Mavlink_recieve_ACK (mavlink_msg_mavlink_ack_decode (msg w)) w
  else w.

(** The body of the receive loop for the byte [c] just popped. *)
Definition recieve_char (c : Z) (w : World) : World :=
  let '(r, (m, s)) := mavlink_parse_char c (msg w, status w) in
  let w := set_parser m s w in
  if c_true r then dispatch w else w.

(** [while (UART_isReceiveEmpty(uart_id) == FALSE) { ... }] with at most
    [fuel] iterations. *)
Fixpoint recieve_loop (fuel : nat) (uart_id : Z) (w : World) : World :=
  match fuel with
  | O => w
  | S fuel' =>
      if UART_isReceiveEmpty uart_id w then w
      else
        let (c, w) := UART_getChar uart_id w in
        recieve_loop fuel' uart_id (recieve_char c w)
  end.

(** The loop body run on each byte of [bytes] in turn. *)
Definition feed (bytes : list Z) (w : World) : World :=
  foldl (fun w c => recieve_char c w) w bytes.

(** Two worlds that differ at most in the receive queues. *)
Definition same_but_rx (w1 w2 : World) : Prop :=
  set_uart_rx (fun _ => []) w1 = set_uart_rx (fun _ => []) w2.

(** One call of [Mavlink_recieve], no byte arriving on the channel while
    it runs (the receive interrupt is not modelled inside the call).
    Nothing in the loop body adds to a receive queue, so the loop ends
    within as many iterations as bytes are waiting: with that much fuel it
    stops on an empty queue, and more fuel changes nothing (see
    [recieve_loop_drains] and [recieve_loop_fuel]).  [packet_drops] is an
    [int]: the addition wraps here where C leaves the overflow
    undefined. *)
Definition Mavlink_recieve (uart_id : Z) (w : World) : World :=
  let w := recieve_loop (length (uart_rx w uart_id)) uart_id w in
  set_packet_drops
    (s32 (packet_drops w + packet_rx_drop_count (status w))) w.

(** The acknowledgement frame [Mavlink_send_ACK] builds for a message
    name. *)
Definition ack_frame (Message_Name : Z) : list Z :=
  mavlink_msg_to_send_buffer
    (mavlink_msg_mavlink_ack_pack MAV_NUMBER COMP_ID stack_msg Message_Name).

(** The rescue-start frame [Mavlink_send_start_rescue] builds. *)
Definition start_rescue_frame (ack status : Z)
    (latitude longitude : Gps.float) : list Z :=
  mavlink_msg_to_send_buffer
    (mavlink_msg_start_rescue_pack MAV_NUMBER COMP_ID stack_msg ack status
       (uint32_of_float latitude) (uint32_of_float longitude)).

(** [n] calls of [Mavlink_resend_message(&start_rescue)] in a row. *)
Fixpoint resend_n (n : nat) (w : World) : World :=
  match n with
  | O => w
  | S n' => resend_n n' (Mavlink_resend_start_rescue w)
  end.

(** What the round trip of a message relies on the framing library for:
    [mavlink_finalize_message] fills in the header and the checksum and
    leaves the payload alone. *)
Definition finalize_keeps_payload : Prop :=
  forall m system_id component_id length crc_extra,
    payload (mavlink_finalize_message m system_id component_id length
               crc_extra) = payload m.

(** The stored copy of the last frame is kept from [a] to [b], and the
    status is kept or has become RECIEVED. *)
Definition ack_kept (a b : ACK) : Prop :=
  last_buf b = last_buf a /\ last_length b = last_length a /\
  last_uart_id b = last_uart_id a /\
  (ACK_status b = ACK_status a \/ ACK_status b = ACK_STATUS_RECIEVED).

End WithExternal.

(** A small stand-in for what [External] leaves open, to run the module
    on concrete inputs: frames are a start byte, six header bytes, the
    first ten payload bytes and a two-byte trailer; the parser takes every
    byte for a complete rescue-start frame whose [ack] field is that
    byte. *)
Definition sample_external : External :=
  {| mavlink_status_t := Z;
     packet_rx_drop_count := fun s => s;
     mavlink_parse_char := fun c ms =>
       (1, ({| checksum := 0; magic := 254; len := 10; seq := 0;
               sysid := MAV_NUMBER; compid := COMP_ID;
               msgid := MAVLINK_MSG_ID_START_RESCUE;
               payload := [0; 0; 0; 0; 0; 0; 0; 0; c; 0] |}, snd ms));
     mavlink_finalize_message := fun m system_id component_id length _ =>
       {| checksum := 0; magic := 254; len := length; seq := 0;
          sysid := system_id; compid := component_id; msgid := msgid m;
          payload := payload m |};
     mavlink_msg_to_send_buffer := fun m =>
       [magic m; len m; seq m; sysid m; compid m; msgid m]
       ++ take (Z.to_nat (len m)) (payload m) ++ [0; 0];
     mavlink_msg_mavlink_ack_pack := fun system_id component_id m name =>
       {| checksum := 0; magic := 254; len := 1; seq := 0;
          sysid := system_id; compid := component_id; msgid := 242;
          payload := [name] |};
     mavlink_msg_mavlink_ack_decode := fun m =>
       {| Message_Name := aget (payload m) 0 |};
     MAVLINK_MAX_PACKET_LEN := 263;
     MAVLINK_MSG_ID_XBEE_HEARTBEAT := 240;
     MAVLINK_MSG_ID_MAVLINK_ACK := 242;
     messageName_start_rescue := 1;
     XBEE_UART_ID := 1;
     uint32_of_float := fun _ => 0;
     stack_msg := {| checksum := 0; magic := 0; len := 0; seq := 0;
                     sysid := 0; compid := 0; msgid := 0;
                     payload := replicate 255 0 |};
     stack_buf := replicate 264 0 |}.

(** A world of the stand-in with nothing pending and the byte [c] waiting
    on the radio channel. *)
Definition sample_world (c : Z) : @World sample_external :=
  @mkWorld sample_external
    0 (@stack_msg sample_external) 0
    {| ACK_status := ACK_STATUS_NONE; last_buf := replicate 264 0;
       last_length := 0; last_uart_id := 0 |}
    (fun id => if id =? 1 then [c] else [])
    [].

(** The same with the bytes [q] waiting on the radio channel. *)
Definition sample_world_queue (q : list Z) : @World sample_external :=
  @mkWorld sample_external
    0 (@stack_msg sample_external) 0
    {| ACK_status := ACK_STATUS_NONE; last_buf := replicate 264 0;
       last_length := 0; last_uart_id := 0 |}
    (fun id => if id =? 1 then q else [])
    [].

(** A second stand-in, whose parser takes every byte for a complete
    acknowledgement frame naming that byte. *)
Definition sample_external_ack : External :=
  {| mavlink_status_t := Z;
     packet_rx_drop_count := fun s => s;
     mavlink_parse_char := fun c ms =>
       (1, ({| checksum := 0; magic := 254; len := 1; seq := 0;
               sysid := MAV_NUMBER; compid := COMP_ID; msgid := 242;
               payload := [c] |}, snd ms));
     mavlink_finalize_message :=
       @mavlink_finalize_message sample_external;
     mavlink_msg_to_send_buffer :=
       @mavlink_msg_to_send_buffer sample_external;
     mavlink_msg_mavlink_ack_pack :=
       @mavlink_msg_mavlink_ack_pack sample_external;
     mavlink_msg_mavlink_ack_decode :=
       @mavlink_msg_mavlink_ack_decode sample_external;
     MAVLINK_MAX_PACKET_LEN := 263;
     MAVLINK_MSG_ID_XBEE_HEARTBEAT := 240;
     MAVLINK_MSG_ID_MAVLINK_ACK := 242;
     messageName_start_rescue := 1;
     XBEE_UART_ID := 1;
     uint32_of_float := fun _ => 0;
     stack_msg := @stack_msg sample_external;
     stack_buf := replicate 264 0 |}.

(** A world of the second stand-in in which a rescue-start command waits
    for its acknowledgement and the bytes [q] wait on the radio channel. *)
Definition sample_world_ack (q : list Z) : @World sample_external_ack :=
  @mkWorld sample_external_ack
    0 (@stack_msg sample_external_ack) 0
    {| ACK_status := ACK_STATUS_WAIT; last_buf := replicate 264 0;
       last_length := 18; last_uart_id := 1 |}
    (fun id => if id =? 1 then q else [])
    [].

End Mavlink.

(** ** Facts about machine integers *)

Lemma u8_small x : 0 <= x < 256 -> u8 x = x.
Proof. intros H. unfold u8. apply Z.mod_small. exact H. Qed.

Lemma u32_small x : 0 <= x < 4294967296 -> u32 x = x.
Proof. intros H. unfold u32. apply Z.mod_small. exact H. Qed.

Lemma mod_wrap_once x n :
  0 < n -> 0 <= x < 2 * n -> x mod n = if x <? n then x else x - n.
Proof.
  intros Hn Hx. destruct (Z.ltb_spec x n).
  - apply Z.mod_small. lia.
  - symmetry. apply (Z.mod_unique x n 1 (x - n)); lia.
Qed.

(** ** Facts about the circular buffer *)

Module SerialFacts.
Import Serial.

Lemma getLength_cases c :
  wf c ->
  getLength (Some c) =
    (if head c <=? tail c then tail c - head c
     else size c + tail c - head c) /\
  0 <= getLength (Some c) < size c.
Proof.
  intros [Hs Hb Hh Ht Ho]. unfold getLength, QUEUESIZE in *.
  destruct (Z.leb_spec (head c) (tail c)); rewrite u32_small by lia; lia.
Qed.

Lemma getLength_wf c :
  wf c -> getLength (Some c) = (tail c - head c) mod size c.
Proof.
  intros Hwf. destruct (getLength_cases c Hwf) as [-> _].
  destruct Hwf as [Hs Hb Hh Ht Hov]. unfold QUEUESIZE in *.
  destruct (Z.leb_spec (head c) (tail c)).
  - rewrite Z.mod_small by lia. lia.
  - replace (tail c - head c) with (size c + tail c - head c + (-1) * size c)
      by lia.
    rewrite Z.mod_add by lia. rewrite Z.mod_small by lia. lia.
Qed.

Lemma length_contents c :
  wf c -> Z.of_nat (length (contents c)) = getLength (Some c).
Proof.
  intros Hwf. destruct (getLength_cases c Hwf) as [_ Hr].
  unfold contents. rewrite length_fmap, length_seq. lia.
Qed.

Lemma aget_aset_eq a i v :
  0 <= i < Z.of_nat (length a) -> aget (aset a i v) i = v.
Proof.
  intros Hi. unfold aget, aset.
  rewrite list_lookup_insert_eq by lia. reflexivity.
Qed.

Lemma aget_aset_ne a i j v :
  0 <= i -> 0 <= j -> i <> j -> aget (aset a i v) j = aget a j.
Proof.
  intros Hi Hj Hne. unfold aget, aset.
  rewrite list_lookup_insert_ne by lia. reflexivity.
Qed.

(** The buffered bytes of a buffer given by its parts. *)
Lemma contents_eq c len :
  getLength (Some c) = len ->
  contents c =
  (fun i : nat => aget (buffer c) ((head c + Z.of_nat i) mod size c))
    <$> seq 0 (Z.to_nat len).
Proof. intros <-. reflexivity. Qed.

(** A push on a queue that is not full appends the byte to the buffered
    bytes and counts no overflow. *)
Lemma writeBack_room c data :
  wf c -> getLength (Some c) <> size c - 1 ->
  exists c',
    writeBack (Some c) data = (0, Some c') /\ wf c' /\
    contents c' = contents c ++ [data] /\
    overflowCount c' = overflowCount c /\
    head c' = head c /\
    buffer c' = aset (buffer c) (tail c) data /\
    tail c' = (tail c + 1) mod size c.
Proof.
  intros Hwf Hroom. destruct (getLength_cases c Hwf) as [Hcase Hlen].
  pose proof Hwf as [Hs Hb Hh Ht Hov].
  assert (Hn : size c = 512) by exact Hs.
  unfold writeBack. rewrite (u32_small (size c - 1)) by lia.
  destruct (Z.eqb_spec (getLength (Some c)) (size c - 1)) as [|_];
    [contradiction|].
  eexists. split; [reflexivity|].
  rewrite (u32_small (tail c)) by lia.
  set (t' := if tail c <? size c - 1 then tail c + 1 else 0).
  assert (Htl : t' = (tail c + 1) mod size c).
  { subst t'. rewrite mod_wrap_once by lia.
    destruct (Z.ltb_spec (tail c) (size c - 1)),
             (Z.ltb_spec (tail c + 1) (size c)); lia. }
  set (c' := {| buffer := aset (buffer c) (tail c) data; head := head c;
                tail := t'; size := size c;
                overflowCount := overflowCount c |}).
  assert (Hwf' : wf c').
  { constructor; simpl; try assumption.
    - unfold aset. rewrite length_insert. assumption.
    - subst t'. destruct (Z.ltb_spec (tail c) (size c - 1)); lia. }
  split; [exact Hwf'|].
  split; [|repeat split; try reflexivity; exact Htl].
  remember (getLength (Some c)) as len eqn:Elen.
  assert (Hlen' : getLength (Some c') = len + 1).
  { destruct (getLength_cases c' Hwf') as [-> _]. subst c' t'. simpl.
    destruct (Z.ltb_spec (tail c) (size c - 1));
      destruct (Z.leb_spec (head c) (tail c));
      repeat match goal with
             | |- context [Z.leb ?a ?b] => destruct (Z.leb_spec a b)
             end; lia. }
  rewrite (contents_eq c' _ Hlen'), (contents_eq c len (eq_sym Elen)).
  replace (Z.to_nat (len + 1)) with (S (Z.to_nat len)) by lia.
  rewrite seq_S, fmap_app. f_equal.
  - apply list_fmap_ext. intros k i Hi.
    apply lookup_seq in Hi as [-> Hi]. subst c'. cbn [buffer head size].
    assert (Hne : (head c + Z.of_nat k) mod size c <> tail c).
    { rewrite mod_wrap_once by lia.
      destruct (Z.leb_spec (head c) (tail c));
        destruct (Z.ltb_spec (head c + Z.of_nat k) (size c)); lia. }
    apply aget_aset_ne; [lia| |intros E; apply Hne; symmetry; exact E].
    apply Z.mod_pos_bound. lia.
  - cbn [fmap list_fmap]. f_equal. subst c'. cbn [buffer head size].
    replace ((head c + Z.of_nat (0 + Z.to_nat len)) mod size c)
      with (tail c).
    + apply aget_aset_eq. lia.
    + rewrite mod_wrap_once by lia.
      destruct (Z.leb_spec (head c) (tail c));
        match goal with
        | |- context [Z.ltb ?a ?b] => destruct (Z.ltb_spec a b)
        end; lia.
Qed.

(** A push on a full queue only counts an overflow. *)
Lemma writeBack_full c data :
  wf c -> getLength (Some c) = size c - 1 ->
  writeBack (Some c) data =
    (0, Some {| buffer := buffer c; head := head c; tail := tail c;
                size := size c;
                overflowCount := u8 (overflowCount c + 1) |}).
Proof.
  intros [Hs Hb Hh Ht Ho] Hfull. unfold writeBack.
  rewrite (u32_small (size c - 1)) by (unfold QUEUESIZE in *; lia).
  rewrite Hfull, Z.eqb_refl. reflexivity.
Qed.

(** A pop on a non-empty queue returns the oldest buffered byte and leaves
    the rest. *)
Lemma readFront_some c :
  wf c -> 0 < getLength (Some c) ->
  exists r c',
    readFront (Some c) = (r, Some c') /\ wf c' /\
    contents c = r :: contents c' /\
    overflowCount c' = overflowCount c /\
    r = aget (buffer c) (head c) /\
    head c' = (head c + 1) mod size c /\ tail c' = tail c.
Proof.
  intros Hwf Hpos. destruct (getLength_cases c Hwf) as [Hcase Hlen].
  pose proof Hwf as [Hs Hb Hh Ht Hov].
  assert (Hn : size c = 512) by exact Hs.
  unfold readFront.
  destruct (Z.ltb_spec 0 (getLength (Some c))) as [_|]; [|lia].
  do 2 eexists. split; [reflexivity|].
  rewrite (u32_small (size c - 1)), (u32_small (head c)) by lia.
  set (h' := if head c <? size c - 1 then head c + 1 else 0).
  assert (Hh' : h' = (head c + 1) mod size c).
  { subst h'. rewrite mod_wrap_once by lia.
    destruct (Z.ltb_spec (head c) (size c - 1)),
             (Z.ltb_spec (head c + 1) (size c)); lia. }
  set (c' := {| buffer := buffer c; head := h'; tail := tail c;
                size := size c; overflowCount := overflowCount c |}).
  assert (Hwf' : wf c').
  { constructor; simpl; try assumption.
    subst h'. destruct (Z.ltb_spec (head c) (size c - 1)); lia. }
  split; [exact Hwf'|].
  split; [|repeat split; try reflexivity; exact Hh'].
  remember (getLength (Some c)) as len eqn:Elen.
  assert (Hlen' : getLength (Some c') = len - 1).
  { destruct (getLength_cases c' Hwf') as [-> _]. subst c' h'. simpl.
    destruct (Z.ltb_spec (head c) (size c - 1));
      destruct (Z.leb_spec (head c) (tail c));
      repeat match goal with
             | |- context [Z.leb ?a ?b] => destruct (Z.leb_spec a b)
             end; lia. }
  rewrite (contents_eq c' _ Hlen'), (contents_eq c len (eq_sym Elen)).
  replace (Z.to_nat len) with (S (Z.to_nat (len - 1))) by lia.
  rewrite <- cons_seq, fmap_cons. f_equal.
  - f_equal. rewrite Z.add_0_r. apply Z.mod_small. lia.
  - rewrite <- fmap_S_seq, <- list_fmap_compose.
    apply list_fmap_ext. intros k i Hi. subst c'. cbn [buffer head size].
    unfold compose. f_equal.
    rewrite Hh'. rewrite Zplus_mod_idemp_l. f_equal. lia.
Qed.

(** A pop on an empty queue answers 128 and changes nothing. *)
Lemma readFront_empty c :
  getLength (Some c) = 0 -> readFront (Some c) = (128, Some c).
Proof. intros H. unfold readFront. rewrite H. reflexivity. Qed.

(** Every prefix of an admissible run is admissible. *)
Lemma admissible_app cap pre post : forall n,
  admissible cap n (pre ++ post) -> admissible cap n pre.
Proof.
  induction pre as [|[b|] pre IH]; intros n H; simpl in *; [exact I| |];
    destruct H as [H1 H2]; split; try assumption; eapply IH; eassumption.
Qed.

(** The run of an admissible sequence never meets a full queue on a push
    nor an empty one on a pop: it counts no overflow, and what was buffered
    followed by what was pushed is what was popped followed by what is
    still buffered. *)
Lemma run_admissible ops : forall c,
  wf c -> admissible (size c - 1) (getLength (Some c)) ops ->
  exists outs c',
    run ops (Some c) = (outs, Some c') /\ wf c' /\
    size c' = size c /\
    overflowCount c' = overflowCount c /\
    contents c ++ pushed ops = outs ++ contents c'.
Proof.
  induction ops as [|[b|] ops IH]; intros c Hwf Hadm.
  - exists [], c. simpl. rewrite app_nil_r. auto.
  - destruct Hadm as [Hcap Hadm].
    destruct (writeBack_room c b Hwf ltac:(lia))
      as (c1 & Hw & Hwf1 & Hc1 & Ho1 & _ & _ & _).
    assert (Hs1 : size c1 = size c)
      by (destruct Hwf, Hwf1; congruence).
    assert (Hl1 : getLength (Some c1) = getLength (Some c) + 1).
    { rewrite <- !length_contents, Hc1, length_app by assumption.
      simpl. lia. }
    destruct (IH c1 Hwf1) as (outs & c' & Hrun & Hwf' & Hs' & Ho' & Hfifo).
    { rewrite Hs1, Hl1. exact Hadm. }
    exists outs, c'. cbn [run]. rewrite Hw. cbn [snd].
    do 2 (split; [assumption|]). do 2 (split; [congruence|]).
    rewrite <- Hfifo, Hc1, <- app_assoc. reflexivity.
  - destruct Hadm as [Hpos Hadm].
    destruct (readFront_some c Hwf Hpos)
      as (r & c1 & Hr & Hwf1 & Hc1 & Ho1 & _ & _ & _).
    assert (Hs1 : size c1 = size c)
      by (destruct Hwf, Hwf1; congruence).
    assert (Hl1 : getLength (Some c1) = getLength (Some c) - 1).
    { rewrite <- !length_contents, Hc1 by assumption. simpl. lia. }
    destruct (IH c1 Hwf1) as (outs & c' & Hrun & Hwf' & Hs' & Ho' & Hfifo).
    { rewrite Hs1, Hl1. exact Hadm. }
    exists (r :: outs), c'. cbn [run]. rewrite Hr, Hrun.
    split; [reflexivity|]. split; [assumption|].
    do 2 (split; [congruence|]).
    rewrite Hc1. cbn [pushed omap]. simpl. f_equal. exact Hfifo.
Qed.

(** C5.  Take any interleaving of pushes and pops on a well-formed queue in
    which the number of bytes pushed but not yet popped stays between 0 and
    capacity-1.  Then after every prefix of the run the overflow counter
    still has its initial value (no push counted an overflow), and the
    bytes the pops returned, followed by the bytes still buffered at the
    end, are exactly the bytes buffered at the start followed by the bytes
    pushed, in order: the queue is first-in first-out. *)
Theorem C5_fifo_without_overflow (c : CircBuffer) (ops : list Op) :
  wf c ->
  admissible (size c - 1) (getLength (Some c)) ops ->
  (forall pre post, ops = pre ++ post ->
     getOverflow (snd (run pre (Some c))) = overflowCount c) /\
  exists outs c',
    run ops (Some c) = (outs, Some c') /\
    contents c ++ pushed ops = outs ++ contents c'.
Proof.
  intros Hwf Hadm. split.
  - intros pre post ->. apply admissible_app in Hadm.
    destruct (run_admissible pre c Hwf Hadm) as (outs & c' & -> & _ & _ & Ho & _).
    exact Ho.
  - destruct (run_admissible ops c Hwf Hadm) as (outs & c' & Hrun & _ & _ & _ & Hf).
    eauto.
Qed.

(** A fresh buffer is well formed and empty. *)
Lemma wf_newCircBuffer c : wf (newCircBuffer c).
Proof.
  constructor; unfold newCircBuffer, QUEUESIZE; simpl; try lia; try reflexivity.
Qed.

Lemma C5_fifo_without_overflow_witness :
  let c := newCircBuffer (mkCircBuffer [] 0 0 0 0) in
  let ops := [Push 10; Push 20; Pop; Push 30; Pop; Pop] in
  (forall pre post, ops = pre ++ post ->
     getOverflow (snd (run pre (Some c))) = overflowCount c) /\
  exists outs c',
    run ops (Some c) = (outs, Some c') /\
    contents c ++ pushed ops = outs ++ contents c'.
Proof.
  apply (C5_fifo_without_overflow
           (newCircBuffer (mkCircBuffer [] 0 0 0 0))
           [Push 10; Push 20; Pop; Push 30; Pop; Pop]).
  - apply wf_newCircBuffer.
  - vm_compute. repeat split; discriminate.
Defined.

(** C9.  On a queue holding no byte, any number of pops in a row each
    answer the "empty" value 128 and leave the queue, head and tail
    included, exactly as it was. *)
Theorem C9_pop_empty_idempotent (c : CircBuffer) (n : nat) :
  getLength (Some c) = 0 ->
  pop_n n (Some c) = (replicate n 128, Some c).
Proof.
  intros Hempty. induction n as [|n IH]; [reflexivity|].
  cbn [pop_n]. rewrite (readFront_empty c Hempty), IH. reflexivity.
Qed.

Lemma C9_pop_empty_idempotent_witness :
  getLength (Some (mkCircBuffer (replicate 512 7) 5 5 512 0)) = 0 /\
  pop_n 3 (Some (mkCircBuffer (replicate 512 7) 5 5 512 0)) =
    ([128; 128; 128], Some (mkCircBuffer (replicate 512 7) 5 5 512 0)).
Proof.
  split; [reflexivity|].
  apply (C9_pop_empty_idempotent (mkCircBuffer (replicate 512 7) 5 5 512 0) 3).
  reflexivity.
Defined.

Lemma u8_range x : 0 <= u8 x < 256.
Proof. unfold u8. apply Z.mod_pos_bound. lia. Qed.

Lemma u8_add_l x y : u8 (u8 x + y) = u8 (x + y).
Proof. unfold u8. apply Zplus_mod_idemp_l. Qed.

(** Pushing a list of bytes: what fits is appended, every further byte
    counts one overflow in the 8-bit counter. *)
Lemma push_all_spec bs : forall c,
  wf c ->
  exists c',
    push_all bs (Some c) = Some c' /\ wf c' /\
    contents c' =
      contents c ++ take (Z.to_nat (size c - 1 - getLength (Some c))) bs /\
    overflowCount c' =
      u8 (overflowCount c +
          Z.max 0 (getLength (Some c) + Z.of_nat (length bs) - (size c - 1))).
Proof.
  induction bs as [|b bs IH]; intros c Hwf.
  - exists c. destruct (getLength_cases c Hwf) as [_ Hlen].
    split; [reflexivity|]. split; [assumption|].
    rewrite take_nil, app_nil_r. split; [reflexivity|].
    rewrite Z.max_l by (cbn [length]; lia). rewrite Z.add_0_r.
    symmetry. apply u8_small. apply Hwf.
  - destruct (getLength_cases c Hwf) as [_ Hlen].
    destruct (Z.eq_dec (getLength (Some c)) (size c - 1)) as [Hfull|Hroom].
    + pose proof (writeBack_full c b Hwf Hfull) as Hw.
      set (c1 := {| buffer := buffer c; head := head c; tail := tail c;
                    size := size c;
                    overflowCount := u8 (overflowCount c + 1) |}) in Hw.
      assert (Hwf1 : wf c1).
      { destruct Hwf. constructor; simpl; try assumption. apply u8_range. }
      destruct (IH c1 Hwf1) as (c' & Hp & Hwf' & Hc' & Ho').
      exists c'. unfold push_all in *. cbn [foldl]. rewrite Hw. cbn [snd].
      split; [exact Hp|]. split; [exact Hwf'|].
      change (contents c1) with (contents c) in Hc'.
      change (getLength (Some c1)) with (getLength (Some c)) in Hc', Ho'.
      change (size c1) with (size c) in Hc', Ho'.
      change (overflowCount c1) with (u8 (overflowCount c + 1)) in Ho'.
      rewrite Hc', Ho', Hfull, Z.sub_diag. simpl take. split; [reflexivity|].
      rewrite u8_add_l. f_equal. rewrite length_cons. lia.
    + destruct (writeBack_room c b Hwf Hroom)
        as (c1 & Hw & Hwf1 & Hc1 & Ho1 & _ & _ & _).
      assert (Hs1 : size c1 = size c) by (destruct Hwf, Hwf1; congruence).
      assert (Hl1 : getLength (Some c1) = getLength (Some c) + 1).
      { rewrite <- !length_contents, Hc1, length_app by assumption.
        simpl. lia. }
      destruct (IH c1 Hwf1) as (c' & Hp & Hwf' & Hc' & Ho').
      exists c'. unfold push_all in *. cbn [foldl]. rewrite Hw. cbn [snd].
      split; [exact Hp|]. split; [exact Hwf'|].
      rewrite Hc', Ho', Hc1, Ho1, Hs1, Hl1, <- app_assoc.
      replace (Z.to_nat (size c - 1 - getLength (Some c)))
        with (S (Z.to_nat (size c - 1 - (getLength (Some c) + 1)))) by lia.
      split; [reflexivity|]. f_equal. rewrite length_cons. lia.
Qed.

(** C2, as the code has it.  On a well-formed queue [writeBack] returns 0
    whether or not the byte was stored.  On a full queue (length ==
    capacity-1) it adds one to the 8-bit overflow counter (modulo 256) and
    leaves bytes, head and tail unchanged; otherwise it stores the byte at
    [tail], advances [tail] modulo the capacity and leaves the counter.
    Consequently pushing at least capacity-1 bytes into an empty queue
    leaves the length at capacity-1 and counts one overflow (modulo 256)
    per excess byte; in particular capacity bytes count exactly one. *)
Theorem C2_push_contract_amended (c : CircBuffer) (data : Z) :
  wf c ->
  (getLength (Some c) = size c - 1 ->
     writeBack (Some c) data =
       (0, Some {| buffer := buffer c; head := head c; tail := tail c;
                   size := size c;
                   overflowCount := (overflowCount c + 1) mod 256 |})) /\
  (getLength (Some c) <> size c - 1 ->
     exists c',
       writeBack (Some c) data = (0, Some c') /\
       buffer c' = aset (buffer c) (tail c) data /\
       tail c' = (tail c + 1) mod size c /\
       head c' = head c /\ overflowCount c' = overflowCount c) /\
  (forall bs,
     getLength (Some c) = 0 -> size c - 1 <= Z.of_nat (length bs) ->
     exists c',
       push_all bs (Some c) = Some c' /\
       getLength (Some c') = size c - 1 /\
       overflowCount c' =
         (overflowCount c + (Z.of_nat (length bs) - (size c - 1))) mod 256).
Proof.
  intros Hwf. split; [|split].
  - intros Hfull. apply writeBack_full; assumption.
  - intros Hroom.
    destruct (writeBack_room c data Hwf Hroom)
      as (c' & Hw & _ & _ & Ho & Hh & Hb & Ht).
    exists c'. auto.
  - intros bs Hempty Hlen.
    destruct (push_all_spec bs c Hwf) as (c' & Hp & Hwf' & Hc' & Ho').
    exists c'. split; [exact Hp|].
    assert (Hn : size c = 512) by apply Hwf.
    split.
    + rewrite <- length_contents, Hc', length_app, length_take by assumption.
      rewrite Nat2Z.inj_add, length_contents by assumption. lia.
    + rewrite Ho', Hempty. unfold u8. f_equal. lia.
Qed.

Lemma C2_push_contract_amended_witness :
  let c := newCircBuffer (mkCircBuffer [] 0 0 0 0) in
  exists c',
    push_all (replicate 512 65) (Some c) = Some c' /\
    getLength (Some c') = 511 /\ overflowCount c' = 1.
Proof.
  destruct (C2_push_contract_amended
              (newCircBuffer (mkCircBuffer [] 0 0 0 0)) 65
              (wf_newCircBuffer _)) as (_ & _ & H).
  apply (H (replicate 512 65)); vm_compute; [reflexivity | discriminate].
Defined.

(** C2, as claimed, fails: the value returned does not depend on whether
    the queue was full.  On the fresh queue, which is not full, the byte is
    stored and 0 (false in C) is returned; on the same queue filled up,
    the byte is dropped and 0 is returned as well. *)
Lemma C2_push_contract_counterexample :
  let c := newCircBuffer (mkCircBuffer [] 0 0 0 0) in
  let full := push_all (replicate 511 0) (Some c) in
  getLength (Some c) <> size c - 1 /\
  getLength full = size c - 1 /\
  fst (writeBack (Some c) 65) = 0 /\
  fst (writeBack full 65) = 0 /\
  ~ push_contract c 65.
Proof.
  vm_compute. repeat split; try discriminate. intros [H _]. discriminate H.
Qed.

(** *** The queue under arbitrary use *)

Lemma wf_writeBack_full c :
  wf c ->
  wf {| buffer := buffer c; head := head c; tail := tail c; size := size c;
        overflowCount := u8 (overflowCount c + 1) |}.
Proof.
  intros Hwf. destruct Hwf. constructor; simpl; try assumption.
  apply u8_range.
Qed.

(** X1.  For every sequence of pushes and pops, overflowing pushes and pops
    of the empty queue included, a well-formed circular buffer behaves as
    a bounded first-in first-out list of capacity size-1: the pops return
    the same values, the buffered bytes and the 8-bit overflow count end
    up the same, and the buffer stays well formed. *)
Theorem X1_buffer_refines_bounded_fifo (ops : list Op) : forall c,
  wf c ->
  exists c',
    run ops (Some c) =
      (fst (fifo_run (size c - 1) ops (contents c) (overflowCount c)),
       Some c') /\
    wf c' /\ size c' = size c /\
    (contents c', overflowCount c') =
      snd (fifo_run (size c - 1) ops (contents c) (overflowCount c)).
Proof.
  induction ops as [|[b|] ops IH]; intros c Hwf.
  - exists c. auto.
  - cbn [run fifo_run]. rewrite (length_contents c Hwf).
    destruct (Z.eqb_spec (getLength (Some c)) (size c - 1)) as [Hfull|Hroom].
    + rewrite (writeBack_full c b Hwf Hfull). cbn [snd].
      destruct (IH _ (wf_writeBack_full c Hwf)) as (c' & Hr & Hwf' & Hs & Hc).
      exists c'. auto.
    + destruct (writeBack_room c b Hwf Hroom)
        as (c1 & Hw & Hwf1 & Hc1 & Ho1 & _).
      assert (Hs1 : size c1 = size c) by (destruct Hwf, Hwf1; congruence).
      rewrite Hw. cbn [snd].
      destruct (IH c1 Hwf1) as (c' & Hr & Hwf' & Hs & Hc).
      rewrite Hs1, Hc1, Ho1 in Hr, Hc.
      exists c'. split; [exact Hr|]. split; [exact Hwf'|].
      split; [congruence | exact Hc].
  - cbn [run fifo_run].
    destruct (getLength_cases c Hwf) as [_ Hlen].
    destruct (Z.eq_dec (getLength (Some c)) 0) as [Hempty|Hsome].
    + rewrite (readFront_empty c Hempty).
      assert (Hnil : contents c = []).
      { apply length_zero_iff_nil. pose proof (length_contents c Hwf). lia. }
      rewrite Hnil.
      destruct (IH c Hwf) as (c' & Hr & Hwf' & Hs & Hc).
      rewrite Hnil in Hr, Hc. rewrite Hr.
      destruct (fifo_run (size c - 1) ops [] (overflowCount c)) as [rs r].
      exists c'. auto.
    + destruct (readFront_some c Hwf ltac:(lia))
        as (r & c1 & Hrd & Hwf1 & Hc1 & Ho1 & _).
      assert (Hs1 : size c1 = size c) by (destruct Hwf, Hwf1; congruence).
      rewrite Hrd, Hc1.
      destruct (IH c1 Hwf1) as (c' & Hr & Hwf' & Hs & Hc).
      rewrite Hs1, Ho1 in Hr, Hc. rewrite Hr.
      destruct (fifo_run (size c - 1) ops (contents c1) (overflowCount c))
        as [rs q].
      exists c'. split; [reflexivity|]. split; [exact Hwf'|].
      split; [congruence | exact Hc].
Qed.

Lemma X1_buffer_refines_bounded_fifo_witness :
  let c := newCircBuffer (mkCircBuffer [] 0 0 0 0) in
  let ops := [Pop; Push 10; Push 20; Pop; Pop; Pop] in
  exists c',
    run ops (Some c) =
      (fst (fifo_run (size c - 1) ops (contents c) (overflowCount c)),
       Some c') /\
    wf c' /\ size c' = size c /\
    (contents c', overflowCount c') =
      snd (fifo_run (size c - 1) ops (contents c) (overflowCount c)).
Proof.
  apply (X1_buffer_refines_bounded_fifo [Pop; Push 10; Push 20; Pop; Pop; Pop]
           (newCircBuffer (mkCircBuffer [] 0 0 0 0))).
  apply wf_newCircBuffer.
Defined.

(** X2.  [peak] on a well-formed queue answers the oldest buffered byte,
    the one the next [readFront] returns and removes, and 0 when nothing
    is buffered. *)
Theorem X2_peak_is_next_readFront (c : CircBuffer) :
  wf c ->
  peak (Some c) = match contents c with [] => 0 | x :: _ => x end /\
  (0 < getLength (Some c) ->
   exists c', readFront (Some c) = (peak (Some c), Some c') /\
              contents c = peak (Some c) :: contents c').
Proof.
  intros Hwf. destruct (getLength_cases c Hwf) as [_ Hlen].
  destruct (Z.ltb_spec 0 (getLength (Some c))) as [Hpos|Hzero].
  - destruct (readFront_some c Hwf Hpos)
      as (r & c1 & Hrd & Hwf1 & Hc1 & _ & Hr & _).
    assert (Hp : peak (Some c) = r).
    { unfold peak. destruct (Z.ltb_spec 0 (getLength (Some c))); [|lia].
      symmetry. exact Hr. }
    rewrite Hp. split.
    + rewrite Hc1. reflexivity.
    + intros _. exists c1. auto.
  - assert (Hnil : contents c = []).
    { apply length_zero_iff_nil. pose proof (length_contents c Hwf). lia. }
    split; [|lia]. rewrite Hnil. unfold peak.
    destruct (Z.ltb_spec 0 (getLength (Some c))); [lia|reflexivity].
Qed.

Lemma X2_peak_is_next_readFront_witness :
  let c := mkCircBuffer (<[5%nat := 42]> (replicate 512 7)) 5 6 512 0 in
  peak (Some c) = match contents c with [] => 0 | x :: _ => x end /\
  (0 < getLength (Some c) ->
   exists c', readFront (Some c) = (peak (Some c), Some c') /\
              contents c = peak (Some c) :: contents c').
Proof.
  apply (X2_peak_is_next_readFront
           (mkCircBuffer (<[5%nat := 42]> (replicate 512 7)) 5 6 512 0)).
  constructor; vm_compute; try reflexivity; split; congruence.
Defined.

(** X3.  [makeEmpty] brings a well-formed queue, whatever it holds and
    however often it overflowed, back to the state [newCircBuffer] sets up:
    all slots zero, both indices zero, no overflow counted, nothing
    buffered. *)
Theorem X3_makeEmpty_is_fresh (c : CircBuffer) :
  wf c ->
  makeEmpty (Some c) = Some (newCircBuffer c) /\
  wf (newCircBuffer c) /\
  getLength (makeEmpty (Some c)) = 0 /\
  contents (newCircBuffer c) = [] /\
  getOverflow (makeEmpty (Some c)) = 0.
Proof.
  intros Hwf. pose proof Hwf as [Hs Hb Hh Ht Ho].
  assert (E : makeEmpty (Some c) = Some (newCircBuffer c)).
  { unfold makeEmpty, newCircBuffer. rewrite Hs.
    replace (length (buffer c)) with (Z.to_nat QUEUESIZE) by lia.
    reflexivity. }
  rewrite E. split; [reflexivity|]. split; [apply wf_newCircBuffer|].
  repeat split.
Qed.

Lemma X3_makeEmpty_is_fresh_witness :
  let c := mkCircBuffer (replicate 512 7) 5 9 512 3 in
  makeEmpty (Some c) = Some (newCircBuffer c) /\
  wf (newCircBuffer c) /\
  getLength (makeEmpty (Some c)) = 0 /\
  contents (newCircBuffer c) = [] /\
  getOverflow (makeEmpty (Some c)) = 0.
Proof.
  apply (X3_makeEmpty_is_fresh (mkCircBuffer (replicate 512 7) 5 9 512 3)).
  constructor; vm_compute; try reflexivity; split; congruence.
Defined.

(** *** The two directions of the serial port *)

Lemma receive_all_push_all bs tb : forall rb,
  receive_all bs rb tb = push_all (u8 <$> bs) rb.
Proof.
  unfold receive_all, push_all.
  induction bs as [|b bs IH]; intros rb; [reflexivity|].
  cbn [foldl fmap list_fmap]. rewrite IH. reflexivity.
Qed.

(** Reading as many characters as are buffered returns them oldest first,
    each as a plain [char], and leaves the queue empty. *)
Lemma getChar_n_contents char_signed l : forall c,
  wf c -> contents c = l ->
  exists c',
    getChar_n char_signed (length l) (Some c)
      = (char_of_byte char_signed <$> l, Some c') /\ wf c' /\
    getLength (Some c') = 0 /\ overflowCount c' = overflowCount c.
Proof.
  induction l as [|x l IH]; intros c Hwf Hc.
  - exists c. split; [reflexivity|]. split; [assumption|].
    split; [|reflexivity].
    rewrite <- (length_contents c Hwf), Hc. reflexivity.
  - assert (Hpos : 0 < getLength (Some c)).
    { rewrite <- (length_contents c Hwf), Hc. cbn [length]. lia. }
    destruct (readFront_some c Hwf Hpos)
      as (r & c1 & Hrd & Hwf1 & Hc1 & Ho1 & _).
    rewrite Hc in Hc1. injection Hc1 as <- Hl.
    destruct (IH c1 Hwf1 (eq_sym Hl)) as (c' & Hg & Hwf' & Hl' & Ho').
    exists c'. cbn [length getChar_n]. unfold Serial_getChar.
    destruct (Z.eqb_spec (getLength (Some c)) 0) as [|_]; [lia|].
    rewrite Hrd, Hg. split; [reflexivity|]. split; [assumption|].
    split; [assumption | congruence].
Qed.

(** X4.  Receive path.  When the receive interrupt stores the bytes [bs]
    in a well-formed empty receive buffer and they fit (at most size-1 of
    them), as many calls of [Serial_getChar] return those bytes in arrival
    order, each reduced to 8 bits and converted to the plain [char] the
    function returns: where plain [char] is signed, a received byte from
    128 on comes back negative (200 as -56, 255 as -1).  No overflow is
    counted, and the next call finds the queue empty and answers 0, which
    is also what a received zero byte gives. *)
Theorem X4_received_bytes_read_in_order
  (char_signed : bool) (c : CircBuffer) (tb : CBRef) (bs : list Z) :
  wf c -> getLength (Some c) = 0 ->
  Z.of_nat (length bs) <= size c - 1 ->
  exists c',
    getChar_n char_signed (length bs) (receive_all bs (Some c) tb)
      = (char_of_byte char_signed <$> (u8 <$> bs), Some c') /\
    overflowCount c' = overflowCount c /\
    Serial_isReceiveEmpty (Some c') = true /\
    Serial_getChar char_signed (Some c') = (0, Some c').
Proof.
  intros Hwf Hempty Hfit.
  rewrite receive_all_push_all.
  destruct (push_all_spec (u8 <$> bs) c Hwf) as (c1 & Hp & Hwf1 & Hc1 & Ho1).
  assert (Hnil : contents c = []).
  { apply length_zero_iff_nil. pose proof (length_contents c Hwf). lia. }
  rewrite Hnil, Hempty, length_fmap in *.
  rewrite take_ge in Hc1 by (rewrite length_fmap; lia).
  rewrite Z.max_l, Z.add_0_r in Ho1 by lia.
  rewrite u8_small in Ho1 by apply Hwf.
  cbn [app] in Hc1.
  destruct (getChar_n_contents char_signed (u8 <$> bs) c1 Hwf1 Hc1)
    as (c' & Hg & Hwf' & Hl' & Ho').
  rewrite length_fmap in Hg.
  exists c'. rewrite Hp, Hg. split; [reflexivity|].
  split; [congruence|].
  unfold Serial_isReceiveEmpty, Serial_getChar. rewrite Hl'. auto.
Qed.

Lemma X4_received_bytes_read_in_order_witness :
  let c := newCircBuffer (mkCircBuffer [] 0 0 0 0) in
  exists c',
    getChar_n true 4 (receive_all [65; 200; 255; 300] (Some c) None)
      = ([65; -56; -1; 44], Some c') /\
    overflowCount c' = overflowCount c /\
    Serial_isReceiveEmpty (Some c') = true /\
    Serial_getChar true (Some c') = (0, Some c').
Proof.
  apply (X4_received_bytes_read_in_order true
           (newCircBuffer (mkCircBuffer [] 0 0 0 0)) None
           [65; 200; 255; 300]).
  - apply wf_newCircBuffer.
  - reflexivity.
  - vm_compute. discriminate.
Defined.

Lemma writeBack_wf c data :
  wf c -> exists c', writeBack (Some c) data = (0, Some c') /\ wf c'.
Proof.
  intros Hwf.
  destruct (Z.eq_dec (getLength (Some c)) (size c - 1)) as [Hfull|Hroom].
  - rewrite (writeBack_full c data Hwf Hfull). eexists. split; [reflexivity|].
    apply wf_writeBack_full. exact Hwf.
  - destruct (writeBack_room c data Hwf Hroom) as (c1 & Hw & Hwf1 & _).
    eauto.
Qed.

Lemma putChar_reaches_writeBack c ch TRMT U1TXIF :
  wf c ->
  Serial_putChar ch TRMT U1TXIF (Some c) =
    (snd (writeBack (Some c) (u8 ch)), TRMT || U1TXIF).
Proof.
  intros Hwf. destruct (getLength_cases c Hwf) as [_ Hlen].
  pose proof Hwf as [Hs _ _ _ _].
  unfold Serial_putChar.
  destruct (Z.eqb_spec (getLength (Some c)) QUEUESIZE) as [|_]; [lia|].
  destruct TRMT; reflexivity.
Qed.

(** X5.  The guard of [Serial_putChar], which compares the length with
    QUEUESIZE, never holds a character back: the length of a well-formed
    queue stays below QUEUESIZE, so every call reaches [writeBack].  On a
    full transmit queue (length QUEUESIZE-1) the character is therefore
    dropped and counted as an overflow, and the transmit interrupt flag is
    still raised when the transmitter is idle. *)
Theorem X5_putChar_guard_never_blocks
  (c : CircBuffer) (ch : Z) (TRMT U1TXIF : bool) :
  wf c ->
  Serial_putChar ch TRMT U1TXIF (Some c) =
    (snd (writeBack (Some c) (u8 ch)), TRMT || U1TXIF) /\
  (getLength (Some c) = QUEUESIZE - 1 ->
   exists c',
     fst (Serial_putChar ch TRMT U1TXIF (Some c)) = Some c' /\
     contents c' = contents c /\
     overflowCount c' = u8 (overflowCount c + 1)).
Proof.
  intros Hwf. pose proof Hwf as [Hs _ _ _ _].
  rewrite (putChar_reaches_writeBack c ch TRMT U1TXIF Hwf).
  split; [reflexivity|]. intros Hfull.
  rewrite (writeBack_full c (u8 ch) Hwf) by lia. cbn [fst snd].
  eexists. split; [reflexivity|]. split; reflexivity.
Qed.

Lemma X5_putChar_guard_never_blocks_witness :
  let c := mkCircBuffer (replicate 512 7) 5 4 512 255 in
  Serial_putChar 65 true false (Some c) =
    (snd (writeBack (Some c) (u8 65)), true || false) /\
  (getLength (Some c) = QUEUESIZE - 1 ->
   exists c',
     fst (Serial_putChar 65 true false (Some c)) = Some c' /\
     contents c' = contents c /\
     overflowCount c' = u8 (overflowCount c + 1)).
Proof.
  apply (X5_putChar_guard_never_blocks
           (mkCircBuffer (replicate 512 7) 5 4 512 255) 65 true false).
  constructor; vm_compute; try reflexivity; split; congruence.
Defined.

Lemma putChar_all_push_all s TRMT : forall c U1TXIF,
  wf c ->
  fst (putChar_all s TRMT U1TXIF (Some c)) = push_all (u8 <$> s) (Some c).
Proof.
  unfold putChar_all, push_all.
  induction s as [|ch s IH]; intros c F Hwf; [reflexivity|].
  cbn [foldl fmap list_fmap fst snd].
  rewrite (putChar_reaches_writeBack c ch TRMT F Hwf).
  destruct (writeBack_wf c (u8 ch) Hwf) as (c1 & Hw & Hwf1).
  rewrite Hw. cbn [fst snd]. apply IH. exact Hwf1.
Qed.

(** Transmit interrupts, one per buffered byte, write the bytes to the
    transmit register oldest first and leave the queue empty. *)
Lemma transmit_n_contents rb l : forall c,
  wf c -> contents c = l ->
  exists c',
    transmit_n (length l) rb (Some c) = (Some c', l) /\ wf c' /\
    getLength (Some c') = 0.
Proof.
  induction l as [|x l IH]; intros c Hwf Hc.
  - exists c. split; [reflexivity|]. split; [assumption|].
    rewrite <- (length_contents c Hwf), Hc. reflexivity.
  - assert (Hpos : 0 < getLength (Some c)).
    { rewrite <- (length_contents c Hwf), Hc. cbn [length]. lia. }
    destruct (readFront_some c Hwf Hpos)
      as (r & c1 & Hrd & Hwf1 & Hc1 & Ho1 & _).
    rewrite Hc in Hc1. injection Hc1 as <- Hl.
    destruct (IH c1 Hwf1 (eq_sym Hl)) as (c' & Hg & Hwf' & Hl').
    exists c'. cbn [length transmit_n]. unfold IntUart1Handler.
    destruct (Z.eqb_spec (getLength (Some c)) 0) as [|_]; [lia|].
    cbn [negb]. rewrite Hrd, Hg. auto.
Qed.

(** X6.  Transmit path.  Characters handed to [Serial_putChar] while the
    well-formed transmit buffer has room for them all (it starts empty and
    at most size-1 are put) are written to the transmit register by as
    many transmit interrupts, as unsigned 8-bit values in the order they
    were put; after that the buffer is empty and a further transmit
    interrupt writes nothing. *)
Theorem X6_put_chars_transmitted_in_order
  (c : CircBuffer) (rb : CBRef) (s : list Z) (TRMT U1TXIF : bool) :
  wf c -> getLength (Some c) = 0 ->
  Z.of_nat (length s) <= size c - 1 ->
  exists c',
    transmit_n (length s) rb (fst (putChar_all s TRMT U1TXIF (Some c)))
      = (Some c', u8 <$> s) /\
    Serial_isTransmitEmpty (Some c') = true /\
    IntUart1Handler None true rb (Some c') = (rb, Some c', None).
Proof.
  intros Hwf Hempty Hfit.
  rewrite (putChar_all_push_all s TRMT c U1TXIF Hwf).
  destruct (push_all_spec (u8 <$> s) c Hwf) as (c1 & Hp & Hwf1 & Hc1 & _).
  assert (Hnil : contents c = []).
  { apply length_zero_iff_nil. pose proof (length_contents c Hwf). lia. }
  rewrite Hnil, Hempty in Hc1.
  rewrite take_ge in Hc1 by (rewrite length_fmap; lia).
  cbn [app] in Hc1.
  destruct (transmit_n_contents rb (u8 <$> s) c1 Hwf1 Hc1)
    as (c' & Hg & Hwf' & Hl').
  rewrite length_fmap in Hg.
  exists c'. rewrite Hp, Hg. split; [reflexivity|].
  unfold Serial_isTransmitEmpty, IntUart1Handler. rewrite Hl'. auto.
Qed.

Lemma X6_put_chars_transmitted_in_order_witness :
  let c := newCircBuffer (mkCircBuffer [] 0 0 0 0) in
  exists c',
    transmit_n 3 None (fst (putChar_all [72; -1; 33] true false (Some c)))
      = (Some c', [72; 255; 33]) /\
    Serial_isTransmitEmpty (Some c') = true /\
    IntUart1Handler None true None (Some c') = (None, Some c', None).
Proof.
  apply (X6_put_chars_transmitted_in_order
           (newCircBuffer (mkCircBuffer [] 0 0 0 0)) None [72; -1; 33]
           true false).
  - apply wf_newCircBuffer.
  - reflexivity.
  - vm_compute. discriminate.
Defined.

Lemma aget_seq_take (s : list Z) (n : nat) :
  (n <= length s)%nat ->
  (fun i : nat => aget s (Z.of_nat i)) <$> seq 0 n = take n s.
Proof.
  intros Hn. apply list_eq. intros i.
  rewrite list_lookup_fmap.
  destruct (decide (i < n)%nat) as [Hi|Hi].
  - rewrite lookup_seq_lt by lia. rewrite lookup_take_lt by lia.
    cbn [fmap option_fmap option_map Nat.add]. unfold aget.
    rewrite Nat2Z.id.
    destruct (lookup_lt_is_Some_2 s i ltac:(lia)) as [v Hv].
    rewrite Hv. reflexivity.
  - rewrite lookup_seq_ge by lia. rewrite lookup_take_ge by lia.
    reflexivity.
Qed.

Lemma mon_puts_putChar_all
  (sizeof_s : nat) (s : list Z) (TRMT U1TXIF : bool) (tb : CBRef) :
  (sizeof_s <= length s)%nat ->
  _mon_puts sizeof_s s TRMT U1TXIF tb =
    putChar_all (take sizeof_s s) TRMT U1TXIF tb.
Proof.
  intros Hn. unfold _mon_puts, putChar_all, _mon_putc.
  rewrite <- (aget_seq_take s sizeof_s Hn).
  generalize (tb, U1TXIF). generalize (seq 0 sizeof_s).
  intros l. induction l as [|i l IH]; intros st; [reflexivity|].
  cbn [foldl fmap list_fmap]. apply IH.
Qed.

(** X7.  [_mon_puts] does not send the string it is given but as many of
    its characters as a pointer has bytes: the loop bound is
    [sizeof (s)].  For a string of at least that many characters, put
    into an empty well-formed transmit buffer, the transmit interrupts
    write exactly the first [sizeof_s] characters to the transmit
    register, in order, and then the buffer is empty: what follows them
    in the string is never sent. *)
Theorem X7_mon_puts_sends_pointer_size_chars
  (c : CircBuffer) (rb : CBRef) (sizeof_s : nat) (s : list Z)
  (TRMT U1TXIF : bool) :
  wf c -> getLength (Some c) = 0 ->
  (sizeof_s <= length s)%nat -> Z.of_nat sizeof_s <= size c - 1 ->
  exists c',
    transmit_n sizeof_s rb (fst (_mon_puts sizeof_s s TRMT U1TXIF (Some c)))
      = (Some c', u8 <$> take sizeof_s s) /\
    Serial_isTransmitEmpty (Some c') = true.
Proof.
  intros Hwf Hempty Hn Hfit.
  rewrite (mon_puts_putChar_all sizeof_s s TRMT U1TXIF (Some c) Hn).
  assert (Hl : length (take sizeof_s s) = sizeof_s)
    by (rewrite length_take; lia).
  rewrite (putChar_all_push_all (take sizeof_s s) TRMT c U1TXIF Hwf).
  destruct (push_all_spec (u8 <$> take sizeof_s s) c Hwf)
    as (c1 & Hp & Hwf1 & Hc1 & _).
  assert (Hnil : contents c = []).
  { apply length_zero_iff_nil. pose proof (length_contents c Hwf). lia. }
  rewrite Hnil, Hempty in Hc1.
  rewrite take_ge in Hc1 by (rewrite length_fmap; lia).
  cbn [app] in Hc1.
  destruct (transmit_n_contents rb (u8 <$> take sizeof_s s) c1 Hwf1 Hc1)
    as (c' & Hg & Hwf' & Hl').
  rewrite length_fmap, Hl in Hg.
  exists c'. rewrite Hp, Hg. split; [reflexivity|].
  unfold Serial_isTransmitEmpty. rewrite Hl'. reflexivity.
Qed.

Lemma X7_mon_puts_sends_pointer_size_chars_witness :
  exists c',
    transmit_n 4 None
      (fst (_mon_puts 4 [72; 101; 108; 108; 111; 33; 0] true false
              (Some (newCircBuffer (mkCircBuffer [] 0 0 0 0)))))
      = (Some c', [72; 101; 108; 108]) /\
    Serial_isTransmitEmpty (Some c') = true.
Proof.
  apply (X7_mon_puts_sends_pointer_size_chars
           (newCircBuffer (mkCircBuffer [] 0 0 0 0)) None 4
           [72; 101; 108; 108; 111; 33; 0] true false).
  - apply wf_newCircBuffer.
  - reflexivity.
  - cbn [length]. lia.
  - vm_compute. discriminate.
Defined.

End SerialFacts.

(** ** Facts about the UBX parser *)

Module GpsFacts.
Import Gps.

Lemma run_app expired l1 l2 g :
  run expired (l1 ++ l2) g =
  run (fun k => expired (length l1 + k)%nat) l2 (run expired l1 g).
Proof.
  revert expired g. induction l1 as [|a l1 IH]; intros expired g.
  - reflexivity.
  - cbn [app run length]. rewrite IH. reflexivity.
Qed.

(** With nothing left to read and no frame waiting to be parsed, a tick
    decodes nothing, and the parser is idle unless it is in the middle of
    a frame. *)
Lemma tick_settled expired g :
  uart_rx g = [] -> hasNewMessage g = false ->
  uart_rx (tick None expired g) = [] /\
  hasNewMessage (tick None expired g) = false /\
  nav (tick None expired g) = nav g /\
  (state g <> STATE_READ -> state (tick None expired g) = STATE_IDLE).
Proof.
  destruct g as [st ? ? ? ? ? ? hnm ? ? ? ? ? ? ? ? ? ? ? rx ?].
  cbn [uart_rx hasNewMessage]. intros -> ->.
  destruct st; cbn; repeat split; congruence.
Qed.

Lemma run_settled n : forall expired g,
  uart_rx g = [] -> hasNewMessage g = false ->
  uart_rx (run expired (replicate n None) g) = [] /\
  hasNewMessage (run expired (replicate n None) g) = false /\
  nav (run expired (replicate n None) g) = nav g /\
  (state g <> STATE_READ ->
   state (run expired (replicate n None) g) = state g \/
   state (run expired (replicate n None) g) = STATE_IDLE).
Proof.
  induction n as [|n IH]; intros expired g Hrx Hnm.
  - cbn. auto.
  - cbn [replicate run].
    destruct (tick_settled (expired O) g Hrx Hnm) as (Hrx' & Hnm' & Hnav' & Hst').
    destruct (IH (fun k => expired (S k)) _ Hrx' Hnm') as (H1 & H2 & H3 & H4).
    split; [exact H1|]. split; [exact H2|]. split; [congruence|].
    intros Hst. right. specialize (Hst' Hst).
    destruct H4 as [H4|H4]; congruence.
Qed.

(** C1.  From the idle state with an empty receive queue, feed one byte per
    tick the frame 0xB5 0x62 0x01 0x02, length 28 0, a 28-byte payload
    holding longitude 1234567 at offset 4, latitude 7654321 at offset 8 and
    altitude 1000 at offset 16 (little-endian; the other payload bytes are
    arbitrary), and two arbitrary checksum bytes.  After the frame and at
    least nine further ticks the stored latitude is 7654321, the longitude
    1234567, the altitude 1000 and the position-obtained flag is true,
    whatever the connection timer does meanwhile. *)
Theorem C1_position_frame_decoded
  (g : Gps) (expired : nat -> bool) (idle : nat)
  (t0 t1 t2 t3 h0 h1 h2 h3 a0 a1 a2 a3 v0 v1 v2 v3 ck_a ck_b : Z) :
  state g = STATE_IDLE ->
  uart_rx g = [] ->
  length (rawMessage g) = Z.to_nat RAW_BUFFER_SIZE ->
  (9 <= idle)%nat ->
  let payload :=
    [t0; t1; t2; t3] ++ le32 1234567 ++ le32 7654321 ++ [h0; h1; h2; h3]
    ++ le32 1000 ++ [a0; a1; a2; a3] ++ [v0; v1; v2; v3] in
  let frame := [0xB5; 0x62; 0x01; 0x02; 28; 0] ++ payload ++ [ck_a; ck_b] in
  let g' := run expired (one_per_tick frame idle) g in
  geodetic_latitude g' = 7654321 /\
  geodetic_longitude g' = 1234567 /\
  geodetic_altitude g' = 1000 /\
  hasPosition g' = true.
Proof.
  intros Hst Hrx Hlen Hidle payload frame.
  replace idle with (9 + (idle - 9))%nat by lia.
  unfold one_per_tick. rewrite replicate_add, app_assoc, run_app.
  set (g1 := run expired _ g).
  assert (H1 : uart_rx g1 = [] /\ hasNewMessage g1 = false /\
               nav g1 = (7654321, 1234567, 1000, velocity_north g,
                         velocity_east g, heading g, gpsStatus g, true)).
  { subst g1 frame payload.
    destruct g as [st raw ? ? ? ? ? ? ? ? ? ? ? ? ? ? ? ? ? rx ?].
    cbn [state uart_rx rawMessage] in Hst, Hrx, Hlen. subst st rx.
    vm_compute in Hlen.
    do 36 (destruct raw as [|? raw]; [discriminate Hlen|]).
    vm_compute. auto. }
  destruct H1 as (Hrx1 & Hnm1 & Hnav1).
  match goal with |- context [run ?e (replicate ?n None) g1] =>
    destruct (run_settled n e g1 Hrx1 Hnm1) as (_ & _ & Hnav & _);
    set (g2 := run e (replicate n None) g1) in *
  end.
  rewrite Hnav1 in Hnav. unfold nav in Hnav.
  injection Hnav as Hlat Hlon Halt _ _ _ _ Hpos. auto.
Qed.

Lemma C1_position_frame_decoded_witness :
  let frame :=
    [0xB5; 0x62; 0x01; 0x02; 28; 0]
    ++ ([1; 2; 3; 4] ++ le32 1234567 ++ le32 7654321 ++ [5; 6; 7; 8]
        ++ le32 1000 ++ [9; 10; 11; 12] ++ [13; 14; 15; 16])
    ++ [0xAA; 0xBB] in
  let g' := run (fun _ => false) (one_per_tick frame 9) gps_start in
  geodetic_latitude g' = 7654321 /\
  geodetic_longitude g' = 1234567 /\
  geodetic_altitude g' = 1000 /\
  hasPosition g' = true.
Proof.
  apply (C1_position_frame_decoded gps_start (fun _ => false) 9
           1 2 3 4 5 6 7 8 9 10 11 12 13 14 15 16 0xAA 0xBB).
  - reflexivity.
  - reflexivity.
  - reflexivity.
  - lia.
Defined.

(** C3, at a payload length that does not fit: the frame header
    0xB5 0x62 0x01 0x02 with length bytes 0x00 0x01 announces a payload of
    256 bytes, a total of 264.  [messageLength] is an 8-bit variable: the
    high length byte is shifted out of it and the total kept is 8, so the
    frame is taken to be complete after its second payload byte. *)
Theorem C3_total_length_truncated_to_8_bits :
  let g := run (fun _ => false)
             (one_per_tick [0xB5; 0x62; 0x01; 0x02; 0x00; 0x01; 0xAA; 0xAB] 1)
             gps_start in
  messageLength g = 8 /\
  messageLength g <> (0x00 + 0x01 * 256) + PAYLOAD_INDEX + CHECKSUM_BYTES /\
  hasNewMessage g = true /\ state g = STATE_PARSE.
Proof. vm_compute. repeat split; discriminate. Qed.

(** C7, as the code has it.  With error correction enabled the latitude
    and longitude accessors return the stored coordinate minus the
    error-correction offset (the offset is subtracted, in 32-bit integer
    arithmetic), converted to float and divided by 1e7; with error
    correction disabled they return the stored coordinate converted and
    divided by 1e7. *)
Theorem C7_error_offset_subtracted (g : Gps) (latError lonError : Z) :
  let on := GPS_enableErrorCorrection
              (GPS_setLongitudeError lonError
                 (GPS_setLatitudeError latError g)) in
  let off := GPS_disableErrorCorrection on in
  GPS_getLatitude on =
    COORDINATE_TO_DECIMAL (float_of_int (s32 (geodetic_latitude g - latError)))
  /\
  GPS_getLongitude on =
    COORDINATE_TO_DECIMAL (float_of_int (s32 (geodetic_longitude g - lonError)))
  /\
  GPS_getLatitude off = COORDINATE_TO_DECIMAL (float_of_int (geodetic_latitude g))
  /\
  GPS_getLongitude off = COORDINATE_TO_DECIMAL (float_of_int (geodetic_longitude g)).
Proof. destruct g. repeat split. Qed.

(** C7, as claimed, fails: with latitude 1 degree (10000000) stored and an
    offset of 2500000 enabled, the accessor returns 0.75 and not the 1.25
    of an additive correction. *)
Lemma C7_error_offset_counterexample :
  let g := GPS_enableErrorCorrection
             (GPS_setLatitudeError 2500000
                (set_geodetic_latitude 10000000 gps_start)) in
  GPS_getLatitude g = SpecFloat.S754_finite false 12582912 (-24) /\
  additive_getLatitude g = SpecFloat.S754_finite false 10485760 (-23) /\
  GPS_getLatitude g <> additive_getLatitude g.
Proof. vm_compute. repeat split; discriminate. Qed.

(** *** Reading a frame *)

(** Unfolds field updates and projections applied to explicit records. *)
Ltac gps_fields :=
  cbv beta iota delta
    [
     set_state set_rawMessage set_byteIndex set_messageLength
     set_messageClass set_messageId set_gpsStatus set_hasNewMessage
     set_isConnected set_isUsingError set_hasPosition set_heading
     set_geodetic_latitude set_geodetic_longitude set_geodetic_altitude
     set_velocity_north set_velocity_east set_error_latitude
     set_error_longitude set_uart_rx set_timer_gps
     state rawMessage byteIndex messageLength messageClass messageId
     gpsStatus hasNewMessage isConnected isUsingError hasPosition heading
     geodetic_latitude geodetic_longitude geodetic_altitude velocity_north
     velocity_east error_latitude error_longitude uart_rx timer_gps
     startIdleState startReadState startParseState setConnected advance].

Ltac eqb_no :=
  repeat match goal with
         | |- context [Z.eqb ?a ?b] =>
             destruct (Z.eqb_spec a b) as [?|_]; [exfalso; lia|]
         end.

Ltac index_constants :=
  unfold SYNC1_INDEX, SYNC2_INDEX, CLASS_INDEX, ID_INDEX, LENGTH1_INDEX,
    LENGTH2_INDEX, PAYLOAD_INDEX, CHECKSUM_BYTES in *.

(** A tick of the read state on a payload or checksum byte that is not
    the last of the frame: the byte is stored, the index moves on. *)
Lemma tick_read_more b b' expired g :
  state g = STATE_READ -> hasNewMessage g = false -> uart_rx g = [b] ->
  PAYLOAD_INDEX <= byteIndex g -> byteIndex g + 1 < messageLength g ->
  messageLength g <= 255 ->
  tick (Some b') expired g =
  set_isConnected (if expired then false else isConnected g)
    (set_byteIndex (byteIndex g + 1)
       (set_uart_rx [b']
          (set_rawMessage (aset (rawMessage g) (byteIndex g) b) g))).
Proof.
  intros Hst Hnm Hrx Hi Hlen HM.
  destruct g as [st raw i M ? ? ? hnm ? ? ? ? ? ? ? ? ? ? ? rx ?].
  cbn [state hasNewMessage uart_rx byteIndex messageLength] in *.
  subst st hnm rx. index_constants.
  unfold tick, UART_interrupt, GPS_runSM, readMessageByte, hasNewByte.
  cbn -[Z.eqb Z.leb u8 aget aset Z.sub Z.add].
  index_constants. eqb_no.
  destruct (Z.leb_spec (M - 1) i) as [|_]; [exfalso; lia|].
  unfold advance. cbn -[u8 aset Z.add]. rewrite u8_small by lia. reflexivity.
Qed.

(** A tick of the read state on the last byte of the frame: the byte is
    stored, the frame is marked complete and parsing starts. *)
Lemma tick_read_last b expired g :
  state g = STATE_READ -> hasNewMessage g = false -> uart_rx g = [b] ->
  PAYLOAD_INDEX <= byteIndex g -> byteIndex g + 1 = messageLength g ->
  tick None expired g =
  set_isConnected (if expired then false else isConnected g)
    (set_uart_rx []
       (startParseState
          (set_hasNewMessage true
             (set_rawMessage (aset (rawMessage g) (byteIndex g) b) g)))).
Proof.
  intros Hst Hnm Hrx Hi Hlen.
  destruct g as [st raw i M ? ? ? hnm ? ? ? ? ? ? ? ? ? ? ? rx ?].
  cbn [state hasNewMessage uart_rx byteIndex messageLength] in *.
  subst st hnm rx. index_constants.
  unfold tick, GPS_runSM, readMessageByte, hasNewByte.
  cbn -[Z.eqb Z.leb u8 aget aset Z.sub Z.add].
  index_constants. eqb_no.
  destruct (Z.leb_spec (M - 1) i) as [_|]; [|exfalso; lia].
  reflexivity.
Qed.

(** Reading the rest of a frame, one byte arriving per tick while the
    previous one is read: all bytes land in the raw buffer in order, and
    the tick that reads the last one marks the frame complete. *)
Lemma read_rest bs : forall b expired g,
  state g = STATE_READ -> hasNewMessage g = false -> uart_rx g = [b] ->
  PAYLOAD_INDEX <= byteIndex g ->
  byteIndex g + Z.of_nat (length bs) + 1 = messageLength g ->
  messageLength g <= 255 ->
  run expired ((Some <$> bs) ++ [None]) g =
  set_isConnected (timer_clears expired (S (length bs)) (isConnected g))
    (set_uart_rx []
       (startParseState
          (set_hasNewMessage true
             (set_rawMessage
                (list_inserts (Z.to_nat (byteIndex g)) (b :: bs) (rawMessage g))
                g)))).
Proof.
  induction bs as [|b' bs IH]; intros b expired g Hst Hnm Hrx Hi Hlen HM.
  - cbn [length Z.of_nat] in Hlen. cbn [fmap list_fmap app run].
    rewrite (tick_read_last b) by (assumption || lia). reflexivity.
  - cbn [length] in Hlen. cbn [fmap list_fmap app run].
    rewrite (tick_read_more b b') by (assumption || lia).
    rewrite (IH b'); clear IH.
    2: exact Hst.
    2: exact Hnm.
    2: reflexivity.
    2: change (PAYLOAD_INDEX <= byteIndex g + 1); lia.
    2: change (byteIndex g + 1 + Z.of_nat (length bs) + 1 = messageLength g);
       lia.
    2: exact HM.
    cbn [byteIndex rawMessage isConnected
         set_isConnected set_byteIndex set_uart_rx set_rawMessage].
    replace (Z.to_nat (byteIndex g + 1)) with (S (Z.to_nat (byteIndex g)))
      by (index_constants; lia).
    cbn [timer_clears].
    destruct g as [? raw i ? ? ? ? ? ? ? ? ? ? ? ? ? ? ? ? ? ?].
    gps_fields. f_equal. unfold aset.
    rewrite <- (list_insert_inserts_lt raw (Z.to_nat i) (S (Z.to_nat i)) b
                  (b' :: bs)) by lia.
    reflexivity.
Qed.

(** Reading the header.  The state after it does not depend on the byte
    that follows, which is still in the queue. *)
Lemma read_header expired g cls id lo hi :
  state g = STATE_IDLE -> uart_rx g = [] ->
  length (rawMessage g) = Z.to_nat RAW_BUFFER_SIZE ->
  let h := header_state expired g cls id lo hi in
  (forall b,
     run expired (Some <$> [SYNC1_CHAR; SYNC2_CHAR; cls; id; lo; hi; b]) g
     = set_uart_rx [b] h) /\
  state h = STATE_READ /\ hasNewMessage h = false /\
  byteIndex h = PAYLOAD_INDEX /\
  messageLength h =
    u8 (u8 (lo + Z.shiftl hi 8) + (PAYLOAD_INDEX + CHECKSUM_BYTES)) /\
  messageClass h = cls /\ messageId h = id /\ nav h = nav g.
Proof.
  intros Hst Hrx Hlen.
  destruct g as [st raw ? ? ? ? ? ? ? ? ? ? ? ? ? ? ? ? ? rx ?].
  cbn [state uart_rx rawMessage] in Hst, Hrx, Hlen. subst st rx.
  vm_compute in Hlen.
  do 6 (destruct raw as [|? raw]; [discriminate Hlen|]).
  vm_compute. repeat split.
Qed.

Lemma total_length_fits len :
  0 <= len <= 247 ->
  u8 (u8 (len mod 256 + Z.shiftl (len / 256) 8)
      + (PAYLOAD_INDEX + CHECKSUM_BYTES))
  = len + 8.
Proof.
  intros H. rewrite (Z.mod_small len 256), (Z.div_small len 256) by lia.
  rewrite Z.shiftl_0_l, Z.add_0_r. index_constants.
  rewrite (u8_small len) by lia. apply u8_small. lia.
Qed.

(** Whatever the two length bytes are, the total kept is the low length
    byte plus 8, modulo 256: the high length byte has no effect. *)
Lemma total_length_8_bit lo hi :
  u8 (u8 (lo + Z.shiftl hi 8) + (PAYLOAD_INDEX + CHECKSUM_BYTES))
  = (lo + 8) mod 256.
Proof.
  unfold u8. rewrite Z.shiftl_mul_pow2 by lia. change (2 ^ 8) with 256.
  rewrite Z.mod_add by lia. rewrite Zplus_mod_idemp_l. reflexivity.
Qed.

(** Reading what follows the header, given the state after the header. *)
Lemma read_after_header expired h r0 rest :
  state h = STATE_READ -> hasNewMessage h = false ->
  byteIndex h = PAYLOAD_INDEX ->
  PAYLOAD_INDEX + Z.of_nat (length rest) + 1 = messageLength h ->
  messageLength h <= 255 ->
  run expired ((Some <$> rest) ++ [None]) (set_uart_rx [r0] h) =
  set_isConnected (timer_clears expired (S (length rest)) (isConnected h))
    (set_uart_rx []
       (startParseState
          (set_hasNewMessage true
             (set_rawMessage (list_inserts 6 (r0 :: rest) (rawMessage h))
                h)))).
Proof.
  intros Hst Hnm Hi Hlen HM.
  rewrite (read_rest rest r0).
  - destruct h as [? ? i ? ? ? ? ? ? ? ? ? ? ? ? ? ? ? ? ? ?].
    cbn [byteIndex] in Hi. subst i. reflexivity.
  - exact Hst.
  - exact Hnm.
  - reflexivity.
  - change (PAYLOAD_INDEX <= byteIndex h). lia.
  - change (byteIndex h + Z.of_nat (length rest) + 1 = messageLength h). lia.
  - exact HM.
Qed.

(** Feeding a whole frame that fits the 8-bit length, and one more tick. *)
Lemma read_frame expired g cls id payload ck_a ck_b :
  state g = STATE_IDLE -> uart_rx g = [] ->
  length (rawMessage g) = Z.to_nat RAW_BUFFER_SIZE ->
  Z.of_nat (length payload) <= 247 ->
  let len := Z.of_nat (length payload) in
  let h := header_state expired g cls id (len mod 256) (len / 256) in
  run expired (one_per_tick (ubx_frame cls id payload ck_a ck_b) 1) g =
  set_isConnected
    (timer_clears (fun k => expired (7 + k)%nat) (length payload + 2)
       (isConnected h))
    (set_uart_rx []
       (startParseState
          (set_hasNewMessage true
             (set_rawMessage
                (list_inserts 6 (payload ++ [ck_a; ck_b]) (rawMessage h))
                h)))) /\
  messageLength h = len + 8 /\ messageClass h = cls /\ messageId h = id /\
  nav h = nav g.
Proof.
  intros Hst Hrx Hraw Hfit len h.
  destruct (read_header expired g cls id (len mod 256) (len / 256)
              Hst Hrx Hraw)
    as (Hrun & Hsth & Hnmh & Hih & HMh & Hcls & Hid & Hnav).
  fold h in Hrun, Hsth, Hnmh, Hih, HMh, Hcls, Hid, Hnav.
  rewrite total_length_fits in HMh by (subst len; lia).
  fold len in HMh.
  split; [|auto].
  clearbody h.
  destruct (payload ++ [ck_a; ck_b]) as [|r0 rest] eqn:Erest.
  { destruct payload; discriminate Erest. }
  assert (Hlrest : length rest = S (length payload)).
  { apply (f_equal length) in Erest. rewrite length_app in Erest.
    cbn [length] in Erest. lia. }
  assert (Hsplit :
    one_per_tick (ubx_frame cls id payload ck_a ck_b) 1 =
    (Some <$> [SYNC1_CHAR; SYNC2_CHAR; cls; id; len mod 256; len / 256; r0])
    ++ ((Some <$> rest) ++ [None])).
  { unfold one_per_tick, ubx_frame. fold len. rewrite Erest.
    rewrite cons_middle, !fmap_app, <- !app_assoc. reflexivity. }
  rewrite Hsplit, run_app, Hrun.
  rewrite read_after_header;
    [| assumption | assumption | assumption
     | rewrite HMh, Hlrest; index_constants; subst len; lia
     | rewrite HMh; subst len; lia ].
  rewrite Hlrest.
  replace (S (S (length payload))) with (length payload + 2)%nat by lia.
  reflexivity.
Qed.

(** *** Parsing does not look at the checksum *)

Lemma field_fits_spec len off :
  field_fits len off = true -> len <= off \/ off + 4 <= len.
Proof.
  unfold field_fits. intros H. apply orb_prop in H as [H|H];
    apply Z.leb_le in H; lia.
Qed.

Lemma unpack32_agrees raw1 raw2 i :
  aget raw1 i = aget raw2 i ->
  aget raw1 (i + 1) = aget raw2 (i + 1) ->
  aget raw1 (i + 2) = aget raw2 (i + 2) ->
  aget raw1 (i + 3) = aget raw2 (i + 3) ->
  unpack32 raw1 i = unpack32 raw2 i.
Proof.
  intros H0 H1 H2 H3. unfold unpack32. rewrite H0, H1, H2, H3. reflexivity.
Qed.

Lemma same_but_raw_nav g1 g2 : same_but_raw g1 g2 -> nav g1 = nav g2.
Proof.
  unfold same_but_raw. destruct g1, g2. cbn. intros [= -> -> -> -> -> ->
    -> -> -> -> -> -> -> -> -> -> -> -> -> ->]. reflexivity.
Qed.

(** Once the queue is empty, a tick keeps two parsers that differ only in
    raw bytes outside header and payload in step, provided no decoded
    field reaches beyond the payload. *)
Lemma tick_parse_sim expired g1 g2 :
  same_but_raw g1 g2 -> payload_agrees g1 g2 -> uart_rx g1 = [] ->
  fields_within_payload (messageClass g1) (messageId g1)
    (messageLength g1 - (PAYLOAD_INDEX + CHECKSUM_BYTES)) = true ->
  same_but_raw (tick None expired g1) (tick None expired g2) /\
  payload_agrees (tick None expired g1) (tick None expired g2) /\
  uart_rx (tick None expired g1) = [] /\
  messageClass (tick None expired g1) = messageClass g1 /\
  messageId (tick None expired g1) = messageId g1 /\
  messageLength (tick None expired g1) = messageLength g1.
Proof.
  unfold same_but_raw, payload_agrees.
  destruct g1 as [st raw1 i M cls id ? hnm ? ? ? ? ? ? ? ? ? ? ? rx ?].
  destruct g2 as [st2 raw2 ? ? ? ? ? ? ? ? ? ? ? ? ? ? ? ? ? ? ?].
  gps_fields. intros Heq Hag Hrx Hfit.
  injection Heq as <- <- <- <- <- <- <- <- <- <- <- <- <- <- <- <- <- <- <- <-.
  subst rx. index_constants.
  assert (Hfield :
    cls = NAV_CLASS /\ (id = NAV_POSLLH_ID \/ id = NAV_VELOCITY_ID) ->
    forall off, off = 4 \/ off = 8 \/ off = 16 \/ off = 24 ->
      (id = NAV_POSLLH_ID -> off <> 24) ->
      (id = NAV_VELOCITY_ID -> off <> 16) ->
      i - 6 = off -> i < M - 2 -> unpack32 raw1 i = unpack32 raw2 i).
  { intros [-> Hid] off Hoff Hn24 Hn16 Hi HiM.
    apply unpack32_agrees; apply Hag;
      (destruct Hid as [-> | ->]; cbn in Hfit;
       apply andb_prop in Hfit as [Hfit Hf3];
       apply andb_prop in Hfit as [Hf1 Hf2];
       apply field_fits_spec in Hf1, Hf2, Hf3;
       unfold NAV_POSLLH_ID, NAV_VELOCITY_ID in *; lia). }
  clear Hfit.
  unfold tick, GPS_runSM.
  destruct st; cbn [state hasNewByte uart_rx UART_isReceiveEmpty negb].
  - gps_fields. repeat split; assumption.
  - destruct hnm; gps_fields; repeat split; assumption.
  - destruct hnm; [|gps_fields; repeat split; assumption].
    unfold parseMessage, parsePayloadField. gps_fields. index_constants.
    destruct (Z.ltb_spec i (M - 2)); [|cbn; repeat split; assumption].
    cbn [snd].
    unfold NAV_CLASS, NAV_POSLLH_ID, NAV_STATUS_ID, NAV_VELOCITY_ID in *.
    repeat match goal with
           | |- context [Z.eqb ?a ?b] => destruct (Z.eqb_spec a b)
           end;
      (split; [|repeat split; assumption]);
      (f_equal;
       first [ reflexivity
             | apply Hag; lia
             | apply (Hfield ltac:(lia) (i - 6)); lia ]).
Qed.

Lemma run_parse_sim n : forall expired g1 g2,
  same_but_raw g1 g2 -> payload_agrees g1 g2 -> uart_rx g1 = [] ->
  fields_within_payload (messageClass g1) (messageId g1)
    (messageLength g1 - (PAYLOAD_INDEX + CHECKSUM_BYTES)) = true ->
  same_but_raw (run expired (replicate n None) g1)
               (run expired (replicate n None) g2).
Proof.
  induction n as [|n IH]; intros expired g1 g2 Hs Hp Hrx Hfit.
  - exact Hs.
  - cbn [replicate run].
    destruct (tick_parse_sim (expired O) g1 g2 Hs Hp Hrx Hfit)
      as (Hs' & Hp' & Hrx' & Hc & Hi & HM).
    apply IH; try assumption. rewrite Hc, Hi, HM. exact Hfit.
Qed.

Lemma inserts_agree (p x y l : list Z) (j i : nat) :
  (i < j + length p)%nat ->
  list_inserts j (p ++ x) l !! i = list_inserts j (p ++ y) l !! i.
Proof.
  intros Hi. rewrite !list_inserts_app_l.
  rewrite (list_lookup_inserts_lt _ (length p + j) x) by lia.
  rewrite (list_lookup_inserts_lt _ (length p + j) y) by lia.
  reflexivity.
Qed.

Lemma length_fed_frame cls id payload a b :
  length (one_per_tick (ubx_frame cls id payload a b) 1)
  = (length payload + 9)%nat.
Proof.
  unfold one_per_tick, ubx_frame.
  rewrite length_app, length_fmap, !length_app, length_replicate.
  cbn [length]. lia.
Qed.

Lemma run_fed_split expired frame n g :
  run expired (one_per_tick frame (S n)) g =
  run (fun k => expired (length (one_per_tick frame 1) + k)%nat)
    (replicate n None) (run expired (one_per_tick frame 1) g).
Proof.
  unfold one_per_tick.
  change (replicate (S n) None)
    with (replicate 1 (@None Z) ++ replicate n None).
  rewrite app_assoc, run_app. reflexivity.
Qed.

Lemma frame_read_sim c h payload ck_a ck_b ck_a' ck_b' :
  messageLength h = Z.of_nat (length payload) + 8 ->
  same_but_raw (frame_read c h payload ck_a ck_b)
               (frame_read c h payload ck_a' ck_b') /\
  payload_agrees (frame_read c h payload ck_a ck_b)
                 (frame_read c h payload ck_a' ck_b') /\
  uart_rx (frame_read c h payload ck_a ck_b) = [] /\
  messageClass (frame_read c h payload ck_a ck_b) = messageClass h /\
  messageId (frame_read c h payload ck_a ck_b) = messageId h /\
  messageLength (frame_read c h payload ck_a ck_b) = messageLength h /\
  hasNewMessage (frame_read c h payload ck_a ck_b) = true /\
  state (frame_read c h payload ck_a ck_b) = STATE_PARSE.
Proof.
  intros HM. unfold same_but_raw, payload_agrees, frame_read.
  destruct h as [? raw ? M ? ? ? ? ? ? ? ? ? ? ? ? ? ? ? ? ?].
  cbn [messageLength] in HM. gps_fields.
  split; [reflexivity|]. split; [|repeat split].
  intros i Hi. index_constants. unfold aget.
  rewrite (inserts_agree payload [ck_a; ck_b] [ck_a'; ck_b']) by lia.
  reflexivity.
Qed.

(** C6, within what the code supports.  Take a frame with valid sync
    bytes whose length field is the length of its payload, of at most 247
    bytes (so that the total fits the 8-bit length and the raw buffer),
    and such that no four-byte field decoded for its class and id starts
    inside the payload and ends outside it.  Fed from idle one byte per
    tick, the frame is marked complete by the tick that reads its last
    byte, whatever the two checksum bytes are; and for any two choices of
    the checksum bytes the parser is, at every later tick, in the same
    state but for the raw buffer: in particular the decoded navigation
    fields are identical. *)
Theorem C6_checksum_bytes_ignored
  (g : Gps) (expired : nat -> bool) (cls id : Z) (payload : list Z)
  (ck_a ck_b ck_a' ck_b' : Z) :
  state g = STATE_IDLE ->
  uart_rx g = [] ->
  length (rawMessage g) = Z.to_nat RAW_BUFFER_SIZE ->
  Z.of_nat (length payload) <= 247 ->
  fields_within_payload cls id (Z.of_nat (length payload)) = true ->
  (hasNewMessage
     (run expired (one_per_tick (ubx_frame cls id payload ck_a ck_b) 1) g)
   = true /\
   state
     (run expired (one_per_tick (ubx_frame cls id payload ck_a ck_b) 1) g)
   = STATE_PARSE) /\
  forall n, (1 <= n)%nat ->
    same_but_raw
      (run expired (one_per_tick (ubx_frame cls id payload ck_a ck_b) n) g)
      (run expired (one_per_tick (ubx_frame cls id payload ck_a' ck_b') n) g)
    /\
    nav (run expired (one_per_tick (ubx_frame cls id payload ck_a ck_b) n) g)
    = nav (run expired
             (one_per_tick (ubx_frame cls id payload ck_a' ck_b') n) g).
Proof.
  intros Hst Hrx Hraw Hlen Hfit.
  destruct (read_frame expired g cls id payload ck_a ck_b
              Hst Hrx Hraw Hlen) as (HA & HM & Hcls & Hid & _).
  destruct (read_frame expired g cls id payload ck_a' ck_b'
              Hst Hrx Hraw Hlen) as (HB & _).
  cbv zeta in HA, HB, HM, Hcls, Hid.
  set (h := header_state expired g cls id
              (Z.of_nat (length payload) mod 256)
              (Z.of_nat (length payload) / 256)) in *.
  clearbody h.
  set (c := timer_clears (fun k => expired (7 + k)%nat)
              (length payload + 2) (isConnected h)) in *.
  clearbody c.
  fold (frame_read c h payload ck_a ck_b) in HA.
  fold (frame_read c h payload ck_a' ck_b') in HB.
  destruct (frame_read_sim c h payload ck_a ck_b ck_a' ck_b' HM)
    as (Hs & Hp & Hq & Hc' & Hi' & HM' & Hnew & Hparse).
  split.
  { rewrite HA. split; assumption. }
  assert (Hsim : forall n, (1 <= n)%nat ->
    same_but_raw
      (run expired (one_per_tick (ubx_frame cls id payload ck_a ck_b) n) g)
      (run expired (one_per_tick (ubx_frame cls id payload ck_a' ck_b') n) g)).
  { intros n Hn. destruct n as [|n]; [lia|].
    rewrite (run_fed_split expired (ubx_frame cls id payload ck_a ck_b) n).
    rewrite (run_fed_split expired (ubx_frame cls id payload ck_a' ck_b') n).
    rewrite !length_fed_frame, HA, HB.
    apply run_parse_sim; try assumption.
    rewrite Hc', Hi', HM', Hcls, Hid, HM. index_constants.
    replace (Z.of_nat (length payload) + 8 - (6 + 2))
      with (Z.of_nat (length payload)) by lia.
    exact Hfit. }
  intros n Hn. split; [apply Hsim; exact Hn|].
  apply same_but_raw_nav, Hsim, Hn.
Qed.

Lemma C6_checksum_bytes_ignored_witness :
  let payload :=
    [1; 2; 3; 4] ++ le32 1234567 ++ le32 7654321 ++ [5; 6; 7; 8]
    ++ le32 1000 ++ [9; 10; 11; 12] ++ [13; 14; 15; 16] in
  let fed a b n :=
    run (fun _ => false)
      (one_per_tick (ubx_frame NAV_CLASS NAV_POSLLH_ID payload a b) n)
      gps_start in
  (hasNewMessage (fed 0xAA 0xBB 1%nat) = true /\
   state (fed 0xAA 0xBB 1%nat) = STATE_PARSE) /\
  forall n, (1 <= n)%nat ->
    same_but_raw (fed 0xAA 0xBB n) (fed 0 0 n) /\
    nav (fed 0xAA 0xBB n) = nav (fed 0 0 n).
Proof.
  apply (C6_checksum_bytes_ignored gps_start (fun _ => false)
           NAV_CLASS NAV_POSLLH_ID
           ([1; 2; 3; 4] ++ le32 1234567 ++ le32 7654321 ++ [5; 6; 7; 8]
            ++ le32 1000 ++ [9; 10; 11; 12] ++ [13; 14; 15; 16])
           0xAA 0xBB 0 0).
  - reflexivity.
  - reflexivity.
  - reflexivity.
  - vm_compute. discriminate.
  - reflexivity.
Defined.

(** C6, as claimed, fails on a position frame cut short: with a payload
    of six bytes the length field is consistent and the frame is accepted,
    but the longitude field at payload offset 4 is read over the end of
    the payload, so its two high bytes are the checksum bytes. *)
Lemma C6_checksum_counterexample :
  let fed a b n :=
    run (fun _ => false)
      (one_per_tick (ubx_frame NAV_CLASS NAV_POSLLH_ID [0; 0; 0; 0; 1; 2] a b)
         n)
      gps_start in
  hasNewMessage (fed 3 4 1%nat) = true /\
  hasNewMessage (fed 5 6 1%nat) = true /\
  geodetic_longitude (fed 3 4 4%nat) = 1 + 2 * 256 + 3 * 65536 + 4 * 16777216 /\
  geodetic_longitude (fed 5 6 4%nat) = 1 + 2 * 256 + 5 * 65536 + 6 * 16777216 /\
  nav (fed 3 4 4%nat) <> nav (fed 5 6 4%nat).
Proof. vm_compute. repeat split; discriminate. Qed.

(** *** Bytes that are not a frame start *)

Lemma reread_not_sync raw c :
  c <> SYNC1_CHAR -> (aget (aset raw 0 c) 0 =? SYNC1_CHAR) = false.
Proof.
  intros Hc. apply Z.eqb_neq. destruct raw; cbn; [discriminate|exact Hc].
Qed.

Ltac run_tick :=
  unfold tick, GPS_runSM, UART_interrupt, hasNewByte, readMessageByte;
  cbn -[Z.eqb aget aset Nat.mul Nat.sub Nat.add length].

(** The idle parser enters the read state when a byte arrives. *)
Lemma tick_idle_arrival b expired g :
  state g = STATE_IDLE -> uart_rx g = [] ->
  tick (Some b) expired g =
  set_isConnected (if expired then false else isConnected g)
    (startReadState (set_uart_rx [b] g)).
Proof.
  intros Hst Hrx.
  destruct g as [st ? ? ? ? ? ? ? ? ? ? ? ? ? ? ? ? ? ? rx ?].
  cbn [state uart_rx] in Hst, Hrx. subst st rx. reflexivity.
Qed.


Lemma tick_hunting a expired g :
  hunting g -> (forall b, a = Some b -> b <> SYNC1_CHAR) ->
  hunting (tick a expired g) /\ nav (tick a expired g) = nav g /\
  backlog (tick a expired g) =
    (backlog g + match a with Some _ => 2 | None => 0 end - 1)%nat.
Proof.
  unfold hunting, backlog.
  destruct g as [st raw i M ? ? ? hnm ? ? ? ? ? ? ? ? ? ? ? rx ?].
  cbn [state byteIndex hasNewMessage uart_rx]. intros [Hst Hall] Ha.
  assert (Hall' : Forall (fun b => b <> SYNC1_CHAR)
                    (rx ++ match a with Some b => [b] | None => [] end)).
  { apply Forall_app. split; [exact Hall|].
    destruct a; [|constructor]. repeat constructor. apply Ha. reflexivity. }
  destruct Hst as [-> | (-> & -> & -> & Hne)].
  - destruct a as [b|], rx as [|c rx]; run_tick.
    + split; [split; [right; repeat split; discriminate | exact Hall']|].
      split; [reflexivity|]. cbn [length app]. lia.
    + split; [split; [right; repeat split; discriminate | exact Hall']|].
      split; [reflexivity|]. cbn [app length]. rewrite length_app.
      cbn [length]. lia.
    + repeat split; auto.
    + split; [split; [right; repeat split; discriminate | exact Hall]|].
      split; [reflexivity|]. cbn [length]. lia.
  - destruct rx as [|c rx]; [contradiction|].
    assert (Hc : c <> SYNC1_CHAR) by (inversion Hall; assumption).
    destruct a as [b|]; run_tick; change (0 =? SYNC1_INDEX) with true;
      cbv iota; rewrite (reread_not_sync raw c Hc); cbn.
    + inversion Hall'; subst.
      split; [split; [left; reflexivity|assumption]|].
      split; [reflexivity|]. rewrite length_app. cbn [length]. lia.
    + inversion Hall; subst.
      split; [split; [left; reflexivity|assumption]|].
      split; [reflexivity|]. lia.
Qed.

Lemma run_hunting_feed bytes : forall expired g,
  hunting g -> Forall (fun b => b <> SYNC1_CHAR) bytes ->
  hunting (run expired (Some <$> bytes) g) /\
  nav (run expired (Some <$> bytes) g) = nav g /\
  backlog (run expired (Some <$> bytes) g) = (backlog g + length bytes)%nat.
Proof.
  induction bytes as [|b bytes IH]; intros expired g Hg Hall.
  - cbn [fmap list_fmap run length]. split; [exact Hg|].
    split; [reflexivity|lia].
  - inversion Hall as [|? ? Hb Hall']; subst. cbn [fmap list_fmap run].
    destruct (tick_hunting (Some b) (expired O) g Hg) as (Hg1 & Hnav1 & Hb1).
    { intros ? [= <-]. exact Hb. }
    destruct (IH (fun k => expired (S k)) _ Hg1 Hall') as (Hg2 & Hnav2 & Hb2).
    split; [exact Hg2|]. split; [congruence|].
    rewrite Hb2, Hb1. cbn [length]. lia.
Qed.

Lemma run_hunting_idle n : forall expired g,
  hunting g ->
  hunting (run expired (replicate n None) g) /\
  nav (run expired (replicate n None) g) = nav g /\
  backlog (run expired (replicate n None) g) = (backlog g - n)%nat.
Proof.
  induction n as [|n IH]; intros expired g Hg.
  - cbn [replicate run]. split; [exact Hg|]. split; [reflexivity|lia].
  - cbn [replicate run].
    destruct (tick_hunting None (expired O) g Hg) as (Hg1 & Hnav1 & Hb1).
    { discriminate. }
    destruct (IH (fun k => expired (S k)) _ Hg1) as (Hg2 & Hnav2 & Hb2).
    split; [exact Hg2|]. split; [congruence|].
    rewrite Hb2, Hb1. lia.
Qed.

Lemma backlog_zero g :
  hunting g -> backlog g = O -> state g = STATE_IDLE /\ uart_rx g = [].
Proof.
  unfold hunting, backlog. intros [[Hst | (Hst & _ & _ & Hne)] _] Hb.
  - rewrite Hst in Hb. split; [exact Hst|].
    destruct (uart_rx g); [reflexivity|cbn in Hb; lia].
  - rewrite Hst in Hb. destruct (uart_rx g); [contradiction|cbn in Hb; lia].
Qed.




(** *** Decoding the three navigation messages *)

(** The four bytes of a 32-bit two's complement value assemble back to
    it. *)
Lemma unpack32_le32 v :
  -2147483648 <= v < 2147483648 -> unpack32 (le32 v) 0 = v.
Proof.
  intros Hv. unfold unpack32, le32, s32.
  change (aget [v mod 256; (v / 256) mod 256; (v / 65536) mod 256;
                (v / 16777216) mod 256] 0) with (v mod 256).
  change (aget [v mod 256; (v / 256) mod 256; (v / 65536) mod 256;
                (v / 16777216) mod 256] (0 + 1)) with ((v / 256) mod 256).
  change (aget [v mod 256; (v / 256) mod 256; (v / 65536) mod 256;
                (v / 16777216) mod 256] (0 + 2)) with ((v / 65536) mod 256).
  change (aget [v mod 256; (v / 256) mod 256; (v / 65536) mod 256;
                (v / 16777216) mod 256] (0 + 3))
    with ((v / 16777216) mod 256).
  rewrite !Z.shiftl_mul_pow2 by lia.
  change (2 ^ 8) with 256. change (2 ^ 16) with 65536.
  change (2 ^ 24) with 16777216.
  replace (v / 65536) with (v / 256 / 256)
    by (rewrite Z.div_div by lia; reflexivity).
  replace (v / 16777216) with (v / 256 / 256 / 256)
    by (rewrite !Z.div_div by lia; reflexivity).
  Z.div_mod_to_equations. lia.
Qed.

(** After a parser with nothing left to read or parse has been ticked
    once more, it is idle and stays so. *)
Lemma settle n : forall expired g,
  uart_rx g = [] -> hasNewMessage g = false -> state g <> STATE_READ ->
  (1 <= n)%nat ->
  state (run expired (replicate n None) g) = STATE_IDLE /\
  uart_rx (run expired (replicate n None) g) = [] /\
  hasNewMessage (run expired (replicate n None) g) = false /\
  nav (run expired (replicate n None) g) = nav g.
Proof.
  intros expired g Hrx Hnm Hst Hn.
  destruct n as [|n]; [lia|]. cbn [replicate run].
  destruct (tick_settled (expired O) g Hrx Hnm) as (Hrx1 & Hnm1 & Hnav1 & Hst1).
  specialize (Hst1 Hst).
  destruct (run_settled n (fun k => expired (S k)) _ Hrx1 Hnm1)
    as (Hrx2 & Hnm2 & Hnav2 & Hst2).
  split.
  - destruct Hst2 as [H|H]; [congruence| |exact H]; congruence.
  - split; [exact Hrx2|]. split; [exact Hnm2|]. congruence.
Qed.

Lemma posllh_bytes_decoded
  (g : Gps) (expired : nat -> bool)
  (t0 t1 t2 t3 o0 o1 o2 o3 l0 l1 l2 l3 h0 h1 h2 h3 m0 m1 m2 m3
   a0 a1 a2 a3 v0 v1 v2 v3 ck_a ck_b : Z) :
  state g = STATE_IDLE ->
  uart_rx g = [] ->
  length (rawMessage g) = Z.to_nat RAW_BUFFER_SIZE ->
  let frame :=
    [0xB5; 0x62; 0x01; 0x02; 28; 0; t0; t1; t2; t3; o0; o1; o2; o3;
     l0; l1; l2; l3; h0; h1; h2; h3; m0; m1; m2; m3; a0; a1; a2; a3;
     v0; v1; v2; v3; ck_a; ck_b] in
  let g1 := run expired (one_per_tick frame 9) g in
  uart_rx g1 = [] /\ hasNewMessage g1 = false /\ state g1 = STATE_PARSE /\
  nav g1 = (unpack32 [l0; l1; l2; l3] 0, unpack32 [o0; o1; o2; o3] 0,
            unpack32 [m0; m1; m2; m3] 0, velocity_north g,
            velocity_east g, heading g, gpsStatus g, true).
Proof.
  intros Hst Hrx Hlen frame g1. subst g1 frame.
  destruct g as [st raw ? ? ? ? ? ? ? ? ? ? ? ? ? ? ? ? ? rx ?].
  cbn [state uart_rx rawMessage] in Hst, Hrx, Hlen. subst st rx.
  vm_compute in Hlen.
  do 36 (destruct raw as [|? raw]; [discriminate Hlen|]).
  cbv -[unpack32]. auto.
Qed.

(** X8.  A position frame (class 0x01, id 0x02, 28 payload bytes) is
    decoded for every longitude, latitude and altitude in the 32-bit
    signed range, negative ones included: fed from idle one byte per tick,
    with the three values little-endian at payload offsets 4, 8 and 16 and
    any other payload and checksum bytes, it leaves exactly those values
    stored, the position flag set, velocity, heading and fix status
    untouched, and the parser idle with an empty queue ten ticks after
    the last byte. *)
Theorem X8_position_frame_any_values
  (g : Gps) (expired : nat -> bool) (idle : nat) (lon lat alt : Z)
  (t0 t1 t2 t3 h0 h1 h2 h3 a0 a1 a2 a3 v0 v1 v2 v3 ck_a ck_b : Z) :
  state g = STATE_IDLE ->
  uart_rx g = [] ->
  length (rawMessage g) = Z.to_nat RAW_BUFFER_SIZE ->
  (10 <= idle)%nat ->
  -2147483648 <= lon < 2147483648 ->
  -2147483648 <= lat < 2147483648 ->
  -2147483648 <= alt < 2147483648 ->
  let payload :=
    [t0; t1; t2; t3] ++ le32 lon ++ le32 lat ++ [h0; h1; h2; h3]
    ++ le32 alt ++ [a0; a1; a2; a3] ++ [v0; v1; v2; v3] in
  let frame := ubx_frame NAV_CLASS NAV_POSLLH_ID payload ck_a ck_b in
  let g' := run expired (one_per_tick frame idle) g in
  state g' = STATE_IDLE /\ uart_rx g' = [] /\
  nav g' = (lat, lon, alt, velocity_north g, velocity_east g, heading g,
            gpsStatus g, true).
Proof.
  intros Hst Hrx Hlen Hidle Hlon Hlat Halt payload frame.
  replace idle with (9 + (idle - 9))%nat by lia.
  unfold one_per_tick. rewrite replicate_add, app_assoc, run_app.
  destruct (posllh_bytes_decoded g expired t0 t1 t2 t3
              (lon mod 256) ((lon / 256) mod 256) ((lon / 65536) mod 256)
              ((lon / 16777216) mod 256)
              (lat mod 256) ((lat / 256) mod 256) ((lat / 65536) mod 256)
              ((lat / 16777216) mod 256) h0 h1 h2 h3
              (alt mod 256) ((alt / 256) mod 256) ((alt / 65536) mod 256)
              ((alt / 16777216) mod 256) a0 a1 a2 a3 v0 v1 v2 v3 ck_a ck_b
              Hst Hrx Hlen) as (Hrx1 & Hnm1 & Hst1 & Hnav1).
  pose proof (unpack32_le32 lon Hlon) as Elon.
  pose proof (unpack32_le32 lat Hlat) as Elat.
  pose proof (unpack32_le32 alt Halt) as Ealt.
  unfold le32 in Elon, Elat, Ealt. rewrite Elon, Elat, Ealt in Hnav1.
  change (run expired ((Some <$> frame) ++ replicate 9 None) g)
    with (run expired
            (one_per_tick
               [0xB5; 0x62; 0x01; 0x02; 28; 0; t0; t1; t2; t3;
                lon mod 256; (lon / 256) mod 256; (lon / 65536) mod 256;
                (lon / 16777216) mod 256;
                lat mod 256; (lat / 256) mod 256; (lat / 65536) mod 256;
                (lat / 16777216) mod 256; h0; h1; h2; h3;
                alt mod 256; (alt / 256) mod 256; (alt / 65536) mod 256;
                (alt / 16777216) mod 256; a0; a1; a2; a3; v0; v1; v2; v3;
                ck_a; ck_b] 9) g).
  match goal with |- context [run ?e (replicate ?n None) ?g1] =>
    destruct (settle n e g1 Hrx1 Hnm1) as (Hs & Hq & _ & Hnav);
      [rewrite Hst1; discriminate | lia |];
    set (r2 := run e (replicate n None) g1) in *
  end.
  split; [exact Hs|]. split; [exact Hq|]. congruence.
Qed.

Lemma X8_position_frame_any_values_witness :
  let payload :=
    [1; 2; 3; 4] ++ le32 (-1234567) ++ le32 7654321 ++ [5; 6; 7; 8]
    ++ le32 (-2147483648) ++ [9; 10; 11; 12] ++ [13; 14; 15; 16] in
  let frame := ubx_frame NAV_CLASS NAV_POSLLH_ID payload 0xAA 0xBB in
  let g' := run (fun _ => false) (one_per_tick frame 10) gps_start in
  state g' = STATE_IDLE /\ uart_rx g' = [] /\
  nav g' = (7654321, -1234567, -2147483648, 0, 0, 0, 0, true).
Proof.
  apply (X8_position_frame_any_values gps_start (fun _ => false) 10
           (-1234567) 7654321 (-2147483648)
           1 2 3 4 5 6 7 8 9 10 11 12 13 14 15 16 0xAA 0xBB).
  - reflexivity.
  - reflexivity.
  - reflexivity.
  - lia.
  - lia.
  - lia.
  - lia.
Defined.
Lemma velned_bytes_decoded
  (g : Gps) (expired : nat -> bool)
  (t0 t1 t2 t3 n0 n1 n2 n3 e0 e1 e2 e3 d0 d1 d2 d3 s0 s1 s2 s3
   g0 g1 g2 g3 c0 c1 c2 c3 p0 p1 p2 p3 q0 q1 q2 q3 ck_a ck_b : Z) :
  state g = STATE_IDLE ->
  uart_rx g = [] ->
  length (rawMessage g) = Z.to_nat RAW_BUFFER_SIZE ->
  let frame :=
    [0xB5; 0x62; 0x01; 0x12; 36; 0; t0; t1; t2; t3; n0; n1; n2; n3;
     e0; e1; e2; e3; d0; d1; d2; d3; s0; s1; s2; s3; g0; g1; g2; g3;
     c0; c1; c2; c3; p0; p1; p2; p3; q0; q1; q2; q3; ck_a; ck_b] in
  let r := run expired (one_per_tick frame 10) g in
  uart_rx r = [] /\ hasNewMessage r = false /\ state r = STATE_PARSE /\
  nav r = (geodetic_latitude g, geodetic_longitude g, geodetic_altitude g,
           unpack32 [n0; n1; n2; n3] 0, unpack32 [e0; e1; e2; e3] 0,
           unpack32 [c0; c1; c2; c3] 0, gpsStatus g, hasPosition g).
Proof.
  intros Hst Hrx Hlen frame r. subst r frame.
  destruct g as [st raw ? ? ? ? ? ? ? ? ? ? ? ? ? ? ? ? ? rx ?].
  cbn [state uart_rx rawMessage] in Hst, Hrx, Hlen. subst st rx.
  vm_compute in Hlen.
  do 44 (destruct raw as [|? raw]; [discriminate Hlen|]).
  cbv -[unpack32]. auto.
Qed.

(** X9.  A velocity frame (class 0x01, id 0x12, 36 payload bytes) is
    decoded for every north velocity, east velocity and heading in the
    32-bit signed range: fed from idle one byte per tick, with the three
    values little-endian at payload offsets 4, 8 and 24 and any other
    payload and checksum bytes, it leaves exactly those values stored,
    position and fix status untouched, and the parser idle with an empty
    queue eleven ticks after the last byte. *)
Theorem X9_velocity_frame_any_values
  (g : Gps) (expired : nat -> bool) (idle : nat) (north east head : Z)
  (t0 t1 t2 t3 d0 d1 d2 d3 s0 s1 s2 s3 g0 g1 g2 g3 p0 p1 p2 p3
   q0 q1 q2 q3 ck_a ck_b : Z) :
  state g = STATE_IDLE ->
  uart_rx g = [] ->
  length (rawMessage g) = Z.to_nat RAW_BUFFER_SIZE ->
  (11 <= idle)%nat ->
  -2147483648 <= north < 2147483648 ->
  -2147483648 <= east < 2147483648 ->
  -2147483648 <= head < 2147483648 ->
  let payload :=
    [t0; t1; t2; t3] ++ le32 north ++ le32 east ++ [d0; d1; d2; d3]
    ++ [s0; s1; s2; s3] ++ [g0; g1; g2; g3] ++ le32 head
    ++ [p0; p1; p2; p3] ++ [q0; q1; q2; q3] in
  let frame := ubx_frame NAV_CLASS NAV_VELOCITY_ID payload ck_a ck_b in
  let g' := run expired (one_per_tick frame idle) g in
  state g' = STATE_IDLE /\ uart_rx g' = [] /\
  nav g' = (geodetic_latitude g, geodetic_longitude g, geodetic_altitude g,
            north, east, head, gpsStatus g, hasPosition g).
Proof.
  intros Hst Hrx Hlen Hidle Hn He Hh payload frame.
  replace idle with (10 + (idle - 10))%nat by lia.
  unfold one_per_tick. rewrite replicate_add, app_assoc, run_app.
  destruct (velned_bytes_decoded g expired t0 t1 t2 t3
              (north mod 256) ((north / 256) mod 256)
              ((north / 65536) mod 256) ((north / 16777216) mod 256)
              (east mod 256) ((east / 256) mod 256) ((east / 65536) mod 256)
              ((east / 16777216) mod 256) d0 d1 d2 d3 s0 s1 s2 s3
              g0 g1 g2 g3
              (head mod 256) ((head / 256) mod 256) ((head / 65536) mod 256)
              ((head / 16777216) mod 256) p0 p1 p2 p3 q0 q1 q2 q3 ck_a ck_b
              Hst Hrx Hlen) as (Hrx1 & Hnm1 & Hst1 & Hnav1).
  pose proof (unpack32_le32 north Hn) as En.
  pose proof (unpack32_le32 east He) as Ee.
  pose proof (unpack32_le32 head Hh) as Eh.
  unfold le32 in En, Ee, Eh. rewrite En, Ee, Eh in Hnav1.
  change (run expired ((Some <$> frame) ++ replicate 10 None) g)
    with (run expired
            (one_per_tick
               [0xB5; 0x62; 0x01; 0x12; 36; 0; t0; t1; t2; t3;
                north mod 256; (north / 256) mod 256;
                (north / 65536) mod 256; (north / 16777216) mod 256;
                east mod 256; (east / 256) mod 256; (east / 65536) mod 256;
                (east / 16777216) mod 256; d0; d1; d2; d3; s0; s1; s2; s3;
                g0; g1; g2; g3;
                head mod 256; (head / 256) mod 256; (head / 65536) mod 256;
                (head / 16777216) mod 256; p0; p1; p2; p3; q0; q1; q2; q3;
                ck_a; ck_b] 10) g).
  match goal with |- context [run ?e (replicate ?n None) ?g1] =>
    destruct (settle n e g1 Hrx1 Hnm1) as (Hs & Hq & _ & Hnav);
      [rewrite Hst1; discriminate | lia |];
    set (r2 := run e (replicate n None) g1) in *
  end.
  split; [exact Hs|]. split; [exact Hq|]. congruence.
Qed.

Lemma X9_velocity_frame_any_values_witness :
  let payload :=
    [1; 2; 3; 4] ++ le32 (-250) ++ le32 1200 ++ [5; 6; 7; 8]
    ++ [9; 10; 11; 12] ++ [13; 14; 15; 16] ++ le32 (-9000000)
    ++ [17; 18; 19; 20] ++ [21; 22; 23; 24] in
  let frame := ubx_frame NAV_CLASS NAV_VELOCITY_ID payload 0xAA 0xBB in
  let g' := run (fun _ => false) (one_per_tick frame 11) gps_start in
  state g' = STATE_IDLE /\ uart_rx g' = [] /\
  nav g' = (0, 0, 0, -250, 1200, -9000000, 0, false).
Proof.
  apply (X9_velocity_frame_any_values gps_start (fun _ => false) 11
           (-250) 1200 (-9000000)
           1 2 3 4 5 6 7 8 9 10 11 12 13 14 15 16 17 18 19 20 21 22 23 24
           0xAA 0xBB).
  - reflexivity.
  - reflexivity.
  - reflexivity.
  - lia.
  - lia.
  - lia.
  - lia.
Defined.

Lemma status_bytes_decoded
  (g : Gps) (expired : nat -> bool)
  (t0 t1 t2 t3 fx f1 f2 f3 u0 u1 u2 u3 m0 m1 m2 m3 ck_a ck_b : Z) :
  state g = STATE_IDLE ->
  uart_rx g = [] ->
  length (rawMessage g) = Z.to_nat RAW_BUFFER_SIZE ->
  let frame :=
    [0xB5; 0x62; 0x01; 0x03; 16; 0; t0; t1; t2; t3; fx; f1; f2; f3;
     u0; u1; u2; u3; m0; m1; m2; m3; ck_a; ck_b] in
  let r := run expired (one_per_tick frame 9) g in
  uart_rx r = [] /\ hasNewMessage r = false /\ state r = STATE_PARSE /\
  nav r = (geodetic_latitude g, geodetic_longitude g, geodetic_altitude g,
           velocity_north g, velocity_east g, heading g, fx,
           hasPosition g).
Proof.
  intros Hst Hrx Hlen frame r. subst r frame.
  destruct g as [st raw ? ? ? ? ? ? ? ? ? ? ? ? ? ? ? ? ? rx ?].
  cbn [state uart_rx rawMessage] in Hst, Hrx, Hlen. subst st rx.
  vm_compute in Hlen.
  do 24 (destruct raw as [|? raw]; [discriminate Hlen|]).
  vm_compute. auto.
Qed.

(** X10.  A status frame (class 0x01, id 0x03, 16 payload bytes) fed from
    idle one byte per tick stores the byte at payload offset 4 as the fix
    status and nothing else: position, velocity and heading keep their
    values, [GPS_hasFix] answers true exactly when that byte is not 0, and
    ten ticks after the last byte the parser is idle with an empty
    queue. *)
Theorem X10_status_frame_sets_fix
  (g : Gps) (expired : nat -> bool) (idle : nat)
  (t0 t1 t2 t3 fx f1 f2 f3 u0 u1 u2 u3 m0 m1 m2 m3 ck_a ck_b : Z) :
  state g = STATE_IDLE ->
  uart_rx g = [] ->
  length (rawMessage g) = Z.to_nat RAW_BUFFER_SIZE ->
  (10 <= idle)%nat ->
  let payload :=
    [t0; t1; t2; t3; fx; f1; f2; f3; u0; u1; u2; u3; m0; m1; m2; m3] in
  let frame := ubx_frame NAV_CLASS NAV_STATUS_ID payload ck_a ck_b in
  let g' := run expired (one_per_tick frame idle) g in
  state g' = STATE_IDLE /\ uart_rx g' = [] /\
  nav g' = (geodetic_latitude g, geodetic_longitude g, geodetic_altitude g,
            velocity_north g, velocity_east g, heading g, fx,
            hasPosition g) /\
  GPS_hasFix g' = negb (fx =? 0).
Proof.
  intros Hst Hrx Hlen Hidle payload frame.
  replace idle with (9 + (idle - 9))%nat by lia.
  unfold one_per_tick. rewrite replicate_add, app_assoc, run_app.
  destruct (status_bytes_decoded g expired t0 t1 t2 t3 fx f1 f2 f3
              u0 u1 u2 u3 m0 m1 m2 m3 ck_a ck_b Hst Hrx Hlen)
    as (Hrx1 & Hnm1 & Hst1 & Hnav1).
  change (run expired ((Some <$> frame) ++ replicate 9 None) g)
    with (run expired
            (one_per_tick
               [0xB5; 0x62; 0x01; 0x03; 16; 0; t0; t1; t2; t3;
                fx; f1; f2; f3; u0; u1; u2; u3; m0; m1; m2; m3;
                ck_a; ck_b] 9) g).
  match goal with |- context [run ?e (replicate ?n None) ?g1] =>
    destruct (settle n e g1 Hrx1 Hnm1) as (Hs & Hq & _ & Hnav);
      [rewrite Hst1; discriminate | lia |];
    set (r2 := run e (replicate n None) g1) in *
  end.
  rewrite Hnav1 in Hnav.
  split; [exact Hs|]. split; [exact Hq|]. split; [exact Hnav|].
  unfold GPS_hasFix, NOFIX_STATUS. unfold nav in Hnav.
  injection Hnav as _ _ _ _ _ _ Hfix _. rewrite Hfix. reflexivity.
Qed.

Lemma X10_status_frame_sets_fix_witness :
  let payload := [1; 2; 3; 4; 3; 5; 6; 7; 8; 9; 10; 11; 12; 13; 14; 15] in
  let frame := ubx_frame NAV_CLASS NAV_STATUS_ID payload 0xAA 0xBB in
  let g' := run (fun _ => false) (one_per_tick frame 10) gps_start in
  state g' = STATE_IDLE /\ uart_rx g' = [] /\
  nav g' = (0, 0, 0, 0, 0, 0, 3, false) /\
  GPS_hasFix g' = negb (3 =? 0).
Proof.
  apply (X10_status_frame_sets_fix gps_start (fun _ => false) 10
           1 2 3 4 3 5 6 7 8 9 10 11 12 13 14 15 0xAA 0xBB).
  - reflexivity.
  - reflexivity.
  - reflexivity.
  - lia.
Defined.

Lemma aget_app_r (pre l : list Z) (k : Z) :
  0 <= k -> aget (pre ++ l) (Z.of_nat (length pre) + k) = aget l k.
Proof.
  intros Hk. unfold aget.
  replace (Z.to_nat (Z.of_nat (length pre) + k))
    with (length pre + Z.to_nat k)%nat by lia.
  rewrite lookup_app_r by lia.
  replace (length pre + Z.to_nat k - length pre)%nat with (Z.to_nat k)
    by lia.
  reflexivity.
Qed.

(** X11.  The four-byte assembly of the parser inverts the little-endian
    two's complement encoding wherever the field lies in the raw buffer:
    for every value of the 32-bit signed range, the field read at the
    index where the four bytes [le32 v] were stored is [v]. *)
Theorem X11_unpack32_inverts_le32 (pre post : list Z) (v : Z) :
  -2147483648 <= v < 2147483648 ->
  unpack32 (pre ++ le32 v ++ post) (Z.of_nat (length pre)) = v.
Proof.
  intros Hv. unfold unpack32.
  rewrite <- (Z.add_0_r (Z.of_nat (length pre))) at 1.
  rewrite !aget_app_r by lia.
  change (aget (le32 v ++ post) 0) with (aget (le32 v) 0).
  change (aget (le32 v ++ post) 1) with (aget (le32 v) (0 + 1)).
  change (aget (le32 v ++ post) 2) with (aget (le32 v) (0 + 2)).
  change (aget (le32 v ++ post) 3) with (aget (le32 v) (0 + 3)).
  exact (unpack32_le32 v Hv).
Qed.

Lemma X11_unpack32_inverts_le32_witness :
  unpack32 ([0xB5; 0x62] ++ le32 (-2) ++ [7]) (Z.of_nat (length [0xB5; 0x62]))
  = -2.
Proof.
  apply (X11_unpack32_inverts_le32 [0xB5; 0x62] [7] (-2)). lia.
Defined.
(** *** The parse state, tick by tick *)

Lemma frame_read_ctl c h payload ck_a ck_b :
  parse_ctl (frame_read c h payload ck_a ck_b) =
    (STATE_PARSE, true, PAYLOAD_INDEX, messageLength h, messageClass h,
     messageId h) /\
  nav (frame_read c h payload ck_a ck_b) = nav h /\
  uart_rx (frame_read c h payload ck_a ck_b) = [].
Proof. destruct h. repeat split. Qed.

(** After a frame that fits the 8-bit length was fed from idle and one
    more tick has passed, the parser is at the start of the payload with
    nothing decoded yet. *)
Lemma frame_parse_start expired g cls id payload ck_a ck_b :
  state g = STATE_IDLE -> uart_rx g = [] ->
  length (rawMessage g) = Z.to_nat RAW_BUFFER_SIZE ->
  Z.of_nat (length payload) <= 247 ->
  let g1 :=
    run expired (one_per_tick (ubx_frame cls id payload ck_a ck_b) 1) g in
  parse_ctl g1 =
    (STATE_PARSE, true, PAYLOAD_INDEX, Z.of_nat (length payload) + 8,
     cls, id) /\
  nav g1 = nav g /\ uart_rx g1 = [].
Proof.
  intros Hst Hrx Hraw Hlen g1. subst g1.
  destruct (read_frame expired g cls id payload ck_a ck_b
              Hst Hrx Hraw Hlen) as (HA & HM & Hcls & Hid & Hnav).
  cbv zeta in HA, HM, Hcls, Hid, Hnav.
  set (h := header_state expired g cls id
              (Z.of_nat (length payload) mod 256)
              (Z.of_nat (length payload) / 256)) in *.
  clearbody h.
  set (c := timer_clears (fun k => expired (7 + k)%nat)
              (length payload + 2) (isConnected h)) in *.
  clearbody c.
  fold (frame_read c h payload ck_a ck_b) in HA.
  destruct (frame_read_ctl c h payload ck_a ck_b) as (Hc & Hn & Hq).
  rewrite HA, Hc, Hn, Hq, HM, Hcls, Hid. auto.
Qed.

Ltac parse_tick :=
  unfold tick, GPS_runSM, UART_interrupt, parseMessage, parsePayloadField,
    parse_ctl, nav, pending;
  gps_fields; index_constants;
  unfold NAV_CLASS, NAV_POSLLH_ID, NAV_STATUS_ID, NAV_VELOCITY_ID.

(** A tick of the parse state inside the payload runs
    [parsePayloadField]; whatever arrives meanwhile only queues up. *)
Lemma tick_parse_field a expired g i M cls id :
  parse_ctl g = (STATE_PARSE, true, i, M, cls, id) ->
  i < M - CHECKSUM_BYTES ->
  parse_ctl (tick a expired g) = parse_ctl (parsePayloadField g) /\
  nav (tick a expired g) = nav (parsePayloadField g) /\
  uart_rx (tick a expired g) = uart_rx g ++ pending a.
Proof.
  destruct g as [st raw i0 M0 cls0 id0 ? hnm ? ? ? ? ? ? ? ? ? ? ? rx ?].
  unfold parse_ctl. gps_fields. intros [= -> -> -> -> -> ->] Hi.
  index_constants.
  destruct a as [b|]; parse_tick;
    (destruct (Z.ltb_spec i (M - 2)) as [_|]; [|exfalso; lia]);
    cbn [snd];
    repeat match goal with
           | |- context [Z.eqb ?x ?y] => destruct (Z.eqb x y)
           end;
    gps_fields; rewrite ?app_nil_r; repeat split.
Qed.

(** Past the payload the frame is done with. *)
Lemma tick_parse_done a expired g i M cls id :
  parse_ctl g = (STATE_PARSE, true, i, M, cls, id) ->
  ~ i < M - CHECKSUM_BYTES ->
  parse_ctl (tick a expired g) = (STATE_PARSE, false, i, M, cls, id) /\
  nav (tick a expired g) = nav g /\
  uart_rx (tick a expired g) = uart_rx g ++ pending a.
Proof.
  destruct g as [st raw i0 M0 cls0 id0 ? hnm ? ? ? ? ? ? ? ? ? ? ? rx ?].
  unfold parse_ctl. gps_fields. intros [= -> -> -> -> -> ->] Hi.
  index_constants.
  destruct a as [b|]; parse_tick;
    (destruct (Z.ltb_spec i (M - 2)) as [|_]; [exfalso; lia|]);
    cbn [snd]; gps_fields; rewrite ?app_nil_r; repeat split.
Qed.

(** With no frame left to parse the parse state is left for idle. *)
Lemma tick_parse_exit a expired g i M cls id :
  parse_ctl g = (STATE_PARSE, false, i, M, cls, id) ->
  parse_ctl (tick a expired g) = (STATE_IDLE, false, i, M, cls, id) /\
  nav (tick a expired g) = nav g /\
  uart_rx (tick a expired g) = uart_rx g ++ pending a.
Proof.
  destruct g as [st raw i0 M0 cls0 id0 ? hnm ? ? ? ? ? ? ? ? ? ? ? rx ?].
  unfold parse_ctl. gps_fields. intros [= -> -> -> -> -> ->].
  destruct a as [b|]; parse_tick; rewrite ?app_nil_r; repeat split.
Qed.

(** For a class and id the parser does not decode, the index jumps to the
    end of the frame. *)
Lemma parse_unknown_field g :
  known_message (messageClass g) (messageId g) = false ->
  parsePayloadField g = set_byteIndex (messageLength g) g.
Proof.
  destruct g as [st raw i M cls id ? hnm ? ? ? ? ? ? ? ? ? ? ? rx ?].
  unfold known_message, parsePayloadField. gps_fields.
  unfold NAV_CLASS, NAV_POSLLH_ID, NAV_STATUS_ID, NAV_VELOCITY_ID.
  destruct (cls =? 1); [|reflexivity].
  destruct (id =? 2); [discriminate|].
  destruct (id =? 3); [discriminate|].
  destruct (id =? 18); [discriminate|]. reflexivity.
Qed.

(** At a payload offset for which the [switch] has no [case],
    [parsePayloadField] does nothing. *)
Lemma parse_no_case g :
  has_case (messageClass g) (messageId g) (byteIndex g - PAYLOAD_INDEX)
    = false ->
  parsePayloadField g = g.
Proof.
  destruct g as [st raw i M cls id ? hnm ? ? ? ? ? ? ? ? ? ? ? rx ?].
  unfold has_case, parsePayloadField. gps_fields. index_constants.
  unfold NAV_CLASS, NAV_POSLLH_ID, NAV_STATUS_ID, NAV_VELOCITY_ID.
  repeat match goal with
         | |- context [Z.eqb ?x ?y] => destruct (Z.eqb x y)
         end;
    cbn [orb]; intros H; first [discriminate H | reflexivity].
Qed.

(** X12.  A frame whose class and id are not among the three decoded
    messages is skipped whole: fed from idle one byte per tick, with any
    payload of at most 247 bytes, it changes no navigation field, and
    four ticks after its last byte the parser is idle with an empty
    queue. *)
Theorem X12_unknown_frame_skipped
  (g : Gps) (expired : nat -> bool) (cls id : Z) (payload : list Z)
  (ck_a ck_b : Z) (idle : nat) :
  state g = STATE_IDLE -> uart_rx g = [] ->
  length (rawMessage g) = Z.to_nat RAW_BUFFER_SIZE ->
  Z.of_nat (length payload) <= 247 ->
  known_message cls id = false ->
  (4 <= idle)%nat ->
  let g' :=
    run expired (one_per_tick (ubx_frame cls id payload ck_a ck_b) idle) g in
  state g' = STATE_IDLE /\ uart_rx g' = [] /\ nav g' = nav g.
Proof.
  intros Hst Hrx Hraw Hlen Hunk Hidle g'. subst g'.
  destruct idle as [|n]; [lia|].
  rewrite run_fed_split.
  destruct (frame_parse_start expired g cls id payload ck_a ck_b
              Hst Hrx Hraw Hlen) as (Hc1 & Hn1 & Hq1).
  cbv zeta in Hc1, Hn1, Hq1.
  remember (run expired (one_per_tick (ubx_frame cls id payload ck_a ck_b) 1)
              g) as g1 eqn:E1.
  clear E1.
  remember (fun k => expired (_ + k)%nat) as e1 eqn:Ee. clear Ee.
  replace n with (2 + (n - 2))%nat by lia.
  rewrite replicate_add, run_app.
  change (run e1 (replicate 2 None) g1)
    with (tick None (e1 1%nat) (tick None (e1 O) g1)).
  assert (H3 : uart_rx (tick None (e1 1%nat) (tick None (e1 O) g1)) = [] /\
               hasNewMessage (tick None (e1 1%nat) (tick None (e1 O) g1))
                 = false /\
               state (tick None (e1 1%nat) (tick None (e1 O) g1))
                 <> STATE_READ /\
               nav (tick None (e1 1%nat) (tick None (e1 O) g1)) = nav g).
  { destruct (Z_lt_dec PAYLOAD_INDEX
                (Z.of_nat (length payload) + 8 - CHECKSUM_BYTES)) as [Hin|Hout].
    - destruct (tick_parse_field None (e1 O) g1 _ _ _ _ Hc1 Hin)
        as (Hc2 & Hn2 & Hq2).
      assert (Hk : known_message (messageClass g1) (messageId g1) = false).
      { unfold parse_ctl in Hc1. injection Hc1 as _ _ _ _ -> ->. exact Hunk. }
      rewrite (parse_unknown_field g1 Hk) in Hc2, Hn2.
      assert (Hc2' : parse_ctl (tick None (e1 O) g1) =
                (STATE_PARSE, true, Z.of_nat (length payload) + 8,
                 Z.of_nat (length payload) + 8, cls, id)).
      { rewrite Hc2. unfold parse_ctl in *. destruct g1.
        revert Hc1. gps_fields. intros [= -> -> -> -> -> ->]. reflexivity. }
      assert (Hn2' : nav (tick None (e1 O) g1) = nav g1).
      { rewrite Hn2. destruct g1. reflexivity. }
      clear Hc2 Hn2.
      remember (tick None (e1 O) g1) as g2 eqn:E2. clear E2.
      destruct (tick_parse_done None (e1 1%nat) g2 _ _ _ _ Hc2')
        as (Hc3 & Hn3 & Hq3); [index_constants; lia|].
      remember (tick None (e1 1%nat) g2) as g3 eqn:E3. clear E3.
      rewrite Hq2, Hq1 in Hq3.
      split; [exact Hq3|]. unfold parse_ctl in Hc3.
      injection Hc3 as Hs3 Hm3 _ _ _ _.
      split; [exact Hm3|]. split; [rewrite Hs3; discriminate|]. congruence.
    - destruct (tick_parse_done None (e1 O) g1 _ _ _ _ Hc1 Hout)
        as (Hc2 & Hn2 & Hq2).
      remember (tick None (e1 O) g1) as g2 eqn:E2. clear E2.
      destruct (tick_parse_exit None (e1 1%nat) g2 _ _ _ _ Hc2)
        as (Hc3 & Hn3 & Hq3).
      remember (tick None (e1 1%nat) g2) as g3 eqn:E3. clear E3.
      rewrite Hq2, Hq1 in Hq3.
      split; [exact Hq3|]. unfold parse_ctl in Hc3.
      injection Hc3 as Hs3 Hm3 _ _ _ _.
      split; [exact Hm3|]. split; [rewrite Hs3; discriminate|]. congruence. }
  remember (tick None (e1 1%nat) (tick None (e1 O) g1)) as g3 eqn:E3.
  clear E3. destruct H3 as (Hq3 & Hm3 & Hs3 & Hn3).
  match goal with |- context [run ?e (replicate ?m None) g3] =>
    destruct (settle m e g3 Hq3 Hm3 Hs3) as (Hs & Hq & _ & Hnav); [lia|]
  end.
  split; [exact Hs|]. split; [exact Hq|]. congruence.
Qed.

Lemma X12_unknown_frame_skipped_witness :
  let g' :=
    run (fun _ => false)
      (one_per_tick (ubx_frame 0x05 0x01 [6; 1] 0x0F 0x38) 4) gps_start in
  state g' = STATE_IDLE /\ uart_rx g' = [] /\ nav g' = nav gps_start.
Proof.
  apply (X12_unknown_frame_skipped gps_start (fun _ => false) 0x05 0x01
           [6; 1] 0x0F 0x38 4).
  - reflexivity.
  - reflexivity.
  - reflexivity.
  - vm_compute. discriminate.
  - reflexivity.
  - lia.
Defined.
(** *** A payload longer than the parser has cases for *)

Lemma run_stuck arrivals : forall expired g i M cls id,
  parse_ctl g = (STATE_PARSE, true, i, M, cls, id) ->
  i < M - CHECKSUM_BYTES ->
  has_case cls id (i - PAYLOAD_INDEX) = false ->
  parse_ctl (run expired arrivals g) = parse_ctl g /\
  nav (run expired arrivals g) = nav g /\
  uart_rx (run expired arrivals g) = uart_rx g ++ arrived arrivals.
Proof.
  induction arrivals as [|a arrivals IH]; intros expired g i M cls id Hc Hi Hno.
  - cbn [run]. unfold arrived. cbn [omap]. rewrite app_nil_r. auto.
  - cbn [run].
    destruct (tick_parse_field a (expired O) g i M cls id Hc Hi)
      as (Hc1 & Hn1 & Hq1).
    assert (Hfix : parsePayloadField g = g).
    { apply parse_no_case. unfold parse_ctl in Hc.
      injection Hc as _ _ -> _ -> ->. exact Hno. }
    rewrite Hfix in Hc1, Hn1.
    remember (tick a (expired O) g) as g1 eqn:E1. clear E1.
    rewrite Hc in Hc1.
    destruct (IH (fun k => expired (S k)) g1 i M cls id Hc1 Hi Hno)
      as (Hc2 & Hn2 & Hq2).
    rewrite Hc2, Hn2, Hq2, Hc1, Hn1, Hq1, Hc, <- app_assoc.
    split; [reflexivity|]. split; [reflexivity|].
    destruct a; reflexivity.
Qed.

(** X13.  The parser hangs on a payload offset its [switch] has no
    [case] for.  In the parse state with a frame to parse, the index
    inside the payload and no case for its offset, every later call of
    [GPS_runSM] leaves state, index and decoded fields as they are: the
    parser never becomes idle again and never reads another byte, so
    whatever was waiting in the receive queue stays at its front,
    unread. *)
Theorem X13_parser_stuck_without_case
  (g : Gps) (expired : nat -> bool) (arrivals : list (option Z)) :
  state g = STATE_PARSE -> hasNewMessage g = true ->
  byteIndex g < messageLength g - CHECKSUM_BYTES ->
  has_case (messageClass g) (messageId g) (byteIndex g - PAYLOAD_INDEX)
    = false ->
  let g' := run expired arrivals g in
  state g' = STATE_PARSE /\ hasNewMessage g' = true /\
  byteIndex g' = byteIndex g /\ nav g' = nav g /\
  exists behind, uart_rx g' = uart_rx g ++ behind.
Proof.
  intros Hst Hnm Hi Hno g'. subst g'.
  assert (Hc : parse_ctl g =
                 (STATE_PARSE, true, byteIndex g, messageLength g,
                  messageClass g, messageId g)).
  { unfold parse_ctl. rewrite Hst, Hnm. reflexivity. }
  destruct (run_stuck arrivals expired g _ _ _ _ Hc Hi Hno)
    as (Hc' & Hn' & Hq').
  rewrite Hc in Hc'. unfold parse_ctl in Hc'.
  injection Hc' as H1 H2 H3 _ _ _.
  split; [exact H1|]. split; [exact H2|]. split; [exact H3|].
  split; [exact Hn'|]. exists (arrived arrivals). exact Hq'.
Qed.

Lemma X13_parser_stuck_without_case_witness :
  let g := set_messageId NAV_POSLLH_ID
             (set_messageClass NAV_CLASS
                (set_messageLength 40
                   (set_byteIndex 34
                      (set_hasNewMessage true
                         (set_state STATE_PARSE gps_start))))) in
  let g' := run (fun _ => false) [Some 1; None; Some 2] g in
  state g' = STATE_PARSE /\ hasNewMessage g' = true /\
  byteIndex g' = byteIndex g /\ nav g' = nav g /\
  exists behind, uart_rx g' = uart_rx g ++ behind.
Proof.
  apply (X13_parser_stuck_without_case
           (set_messageId NAV_POSLLH_ID
              (set_messageClass NAV_CLASS
                 (set_messageLength 40
                    (set_byteIndex 34
                       (set_hasNewMessage true
                          (set_state STATE_PARSE gps_start))))))
           (fun _ => false) [Some 1; None; Some 2]).
  - reflexivity.
  - reflexivity.
  - vm_compute. reflexivity.
  - reflexivity.
Defined.





(** *** A stray first sync byte *)

Lemma tick_good_sync1 x expired g :
  state g = STATE_READ -> byteIndex g = 0 -> hasNewMessage g = false ->
  uart_rx g = [SYNC1_CHAR] -> rawMessage g <> [] ->
  let g' := tick (Some x) expired g in
  state g' = STATE_READ /\ byteIndex g' = 1 /\ hasNewMessage g' = false /\
  uart_rx g' = [x] /\ nav g' = nav g.
Proof.
  intros Hst Hi Hnm Hrx Hraw.
  destruct g as [st raw i ? ? ? ? hnm ? ? ? ? ? ? ? ? ? ? ? rx ?].
  cbn [state byteIndex hasNewMessage uart_rx rawMessage] in *.
  subst st i hnm rx. destruct raw as [|r0 raw]; [contradiction|].
  cbv zeta. run_tick. repeat split.
Qed.

Lemma tick_bad_sync2 x next expired g :
  state g = STATE_READ -> byteIndex g = 1 -> hasNewMessage g = false ->
  uart_rx g = [x] -> x <> SYNC2_CHAR ->
  let g' := tick next expired g in
  state g' = STATE_IDLE /\ uart_rx g' = pending next /\ nav g' = nav g.
Proof.
  intros Hst Hi Hnm Hrx Hx.
  destruct g as [st raw i ? ? ? ? hnm ? ? ? ? ? ? ? ? ? ? ? rx ?].
  cbn [state byteIndex hasNewMessage uart_rx rawMessage] in *.
  subst st i hnm rx. cbv zeta.
  assert (Hno : (aget (aset raw 1 x) 1 =? SYNC2_CHAR) = false).
  { apply Z.eqb_neq. destruct raw as [|r0 [|r1 raw]]; cbn;
      [discriminate | discriminate | exact Hx]. }
  destruct next; run_tick; change (1 =? SYNC1_INDEX) with false;
    change (1 =? SYNC2_INDEX) with true; cbv iota;
    rewrite Hno; repeat split.
Qed.

(** X15.  After a first sync byte 0xB5 the parser drops any byte other
    than 0x62, a 0xB5 included, and starts hunting for a frame start
    afresh with the byte after it.  So when 0xB5 is followed by such a
    byte and by bytes none of which is 0xB5 (a complete frame whose own
    0xB5 was the dropped byte, say), nothing is decoded: once the bytes
    were fed one per tick and one tick more than there are bytes after
    the dropped one has passed, the parser is idle, the queue empty and
    every navigation field unchanged. *)
Theorem X15_stray_sync_byte_loses_frame
  (g : Gps) (expired : nat -> bool) (x : Z) (rest : list Z) (idle : nat) :
  state g = STATE_IDLE -> uart_rx g = [] -> rawMessage g <> [] ->
  x <> SYNC2_CHAR ->
  Forall (fun b => b <> SYNC1_CHAR) rest ->
  (length rest + 1 <= idle)%nat ->
  let g' := run expired (one_per_tick (SYNC1_CHAR :: x :: rest) idle) g in
  state g' = STATE_IDLE /\ uart_rx g' = [] /\ nav g' = nav g.
Proof.
  intros Hst Hrx Hraw Hx Hall Hidle g'. subst g'.
  unfold one_per_tick. cbn [fmap list_fmap app run].
  rewrite (tick_idle_arrival SYNC1_CHAR) by assumption.
  set (g1 := set_isConnected _ (startReadState (set_uart_rx [SYNC1_CHAR] g))).
  destruct (tick_good_sync1 x (expired 1%nat) g1) as (Hs2 & Hi2 & Hm2 & Hq2 & Hn2);
    try (destruct g; reflexivity).
  { destruct g. exact Hraw. }
  assert (Hn1 : nav g1 = nav g) by (destruct g; reflexivity).
  clearbody g1.
  remember (tick (Some x) (expired 1%nat) g1) as g2 eqn:E2. clear E2.
  remember (fun k => expired (S (S k))) as e2 eqn:Ee. clear Ee.
  change (list_fmap Z (option Z) Some rest) with (Some <$> rest).
  assert (Hfin : forall next tl,
            (forall b, next = Some b -> b <> SYNC1_CHAR) ->
            (exists bytes n, tl = (Some <$> bytes) ++ replicate n None /\
               Forall (fun b => b <> SYNC1_CHAR) bytes /\
               (2 * length (pending next) + length bytes <= n)%nat) ->
            state (run e2 (next :: tl) g2) = STATE_IDLE /\
            uart_rx (run e2 (next :: tl) g2) = [] /\
            nav (run e2 (next :: tl) g2) = nav g).
  { intros next tl Hnext (bytes & n & -> & Hb & Hn).
    cbn [run].
    destruct (tick_bad_sync2 x next (e2 O) g2 Hs2 Hi2 Hm2 Hq2 Hx)
      as (Hs3 & Hq3 & Hn3).
    remember (tick next (e2 O) g2) as g3 eqn:E3. clear E3.
    assert (Hh3 : hunting g3).
    { split; [left; exact Hs3|]. rewrite Hq3.
      destruct next as [b|]; [|constructor].
      repeat constructor. apply Hnext. reflexivity. }
    assert (Hb3 : backlog g3 = (2 * length (pending next))%nat).
    { unfold backlog. rewrite Hs3, Hq3. lia. }
    rewrite run_app.
    destruct (run_hunting_feed bytes (fun k => e2 (S k)) g3 Hh3 Hb)
      as (Hh4 & Hn4 & Hb4).
    match goal with |- context [run ?e (replicate n None) ?g4] =>
      destruct (run_hunting_idle n e g4 Hh4) as (Hh5 & Hn5 & Hb5)
    end.
    match type of Hh5 with hunting ?g5 =>
      destruct (backlog_zero g5 Hh5) as [Hs Hq];
        [rewrite Hb5, Hb4, Hb3; lia|]
    end.
    split; [exact Hs|]. split; [exact Hq|]. congruence. }
  destruct rest as [|r0 rest].
  - destruct idle as [|n]; [cbn [length] in Hidle; lia|].
    cbn [fmap list_fmap app replicate]. apply Hfin; [discriminate|].
    exists [], n. split; [reflexivity|]. split; [constructor|].
    cbn [pending length]. lia.
  - inversion Hall as [|? ? Hr0 Hrest]; subst.
    cbn [fmap list_fmap app]. apply Hfin.
    + intros b [= <-]. exact Hr0.
    + exists rest, idle. split; [reflexivity|]. split; [exact Hrest|].
      cbn [pending length] in *. lia.
Qed.

Lemma X15_stray_sync_byte_loses_frame_witness :
  let g' :=
    run (fun _ => false)
      (one_per_tick
         (SYNC1_CHAR :: 0xB5 :: [0x62; 0x01; 0x03; 5; 0; 0; 0; 0; 0; 3; 1; 2])
         13) gps_start in
  state g' = STATE_IDLE /\ uart_rx g' = [] /\ nav g' = nav gps_start.
Proof.
  apply (X15_stray_sync_byte_loses_frame gps_start (fun _ => false) 0xB5
           [0x62; 0x01; 0x03; 5; 0; 0; 0; 0; 0; 3; 1; 2] 13).
  - reflexivity.
  - reflexivity.
  - discriminate.
  - discriminate.
  - repeat constructor; discriminate.
  - vm_compute. repeat constructor.
Defined.
(** *** The connection flag *)

Lemma tick_good_sync2 next expired g :
  state g = STATE_READ -> byteIndex g = 1 -> hasNewMessage g = false ->
  uart_rx g = [SYNC2_CHAR] -> (2 <= length (rawMessage g))%nat ->
  isConnected (tick next expired g) = negb expired /\
  timer_gps (tick next expired g) = Some DELAY_TIMEOUT.
Proof.
  intros Hst Hi Hnm Hrx Hraw.
  destruct g as [st raw i ? ? ? ? hnm ? ? ? ? ? ? ? ? ? ? ? rx ?].
  cbn [state byteIndex hasNewMessage uart_rx rawMessage] in *.
  subst st i hnm rx.
  destruct raw as [|r0 [|r1 raw]]; [cbn [length] in Hraw; lia..|].
  destruct next, expired; vm_compute; split; reflexivity.
Qed.

(** While the timer does not expire nothing clears the connection
    flag. *)
Lemma tick_keeps_connected a g :
  isConnected g = true -> isConnected (tick a false g) = true.
Proof.
  destruct g as [st raw i M cls id ? hnm con ? ? ? ? ? ? ? ? ? ? rx ?].
  cbn [isConnected]. intros ->.
  unfold tick, GPS_runSM, UART_interrupt, hasNewByte, readMessageByte,
    parseMessage, parsePayloadField, UART_getChar, UART_isReceiveEmpty.
  gps_fields.
  destruct a as [b|], st, rx as [|c rx], hnm;
    cbn [app negb andb snd];
    repeat match goal with
           | |- context [if ?b then _ else _] => destruct b
           end;
    reflexivity.
Qed.

Lemma run_keeps_connected arrivals : forall expired g,
  (forall k, expired k = false) -> isConnected g = true ->
  isConnected (run expired arrivals g) = true.
Proof.
  induction arrivals as [|a arrivals IH]; intros expired g He Hc.
  - exact Hc.
  - cbn [run]. apply IH; [intros k; apply He|].
    rewrite He. apply tick_keeps_connected. exact Hc.
Qed.

(** X16.  The two sync bytes alone mark the receiver connected.  When
    0xB5 0x62 is fed to the idle parser one byte per tick, the tick that
    reads the 0x62, before class, length, payload or checksum are seen,
    sets [isConnected]; and as long as the connection timer does not
    expire it stays set, whatever bytes follow and whatever becomes of
    the frame. *)
Theorem X16_sync_pair_marks_connected
  (g : Gps) (expired : nat -> bool) (next : option Z)
  (later : list (option Z)) :
  state g = STATE_IDLE -> uart_rx g = [] ->
  (2 <= length (rawMessage g))%nat ->
  (forall k, expired k = false) ->
  GPS_isConnected
    (run expired (Some SYNC1_CHAR :: Some SYNC2_CHAR :: next :: later) g)
  = true.
Proof.
  intros Hst Hrx Hraw He. unfold GPS_isConnected. cbn [run].
  rewrite (tick_idle_arrival SYNC1_CHAR) by assumption.
  set (g1 := set_isConnected _ (startReadState (set_uart_rx [SYNC1_CHAR] g))).
  assert (Hl1 : length (rawMessage g1) = length (rawMessage g))
    by (destruct g; reflexivity).
  destruct (tick_good_sync1 SYNC2_CHAR (expired 1%nat) g1)
    as (Hs2 & Hi2 & Hm2 & Hq2 & _); try (destruct g; reflexivity).
  { intros E. rewrite E in Hl1. cbn [length] in Hl1. lia. }
  assert (Hl2 : length (rawMessage (tick (Some SYNC2_CHAR) (expired 1%nat) g1))
                = length (rawMessage g1)).
  { clear Hs2 Hi2 Hm2 Hq2. subst g1.
    destruct g as [st raw ? ? ? ? ? ? ? ? ? ? ? ? ? ? ? ? ? rx ?].
    cbn [state uart_rx rawMessage] in *. subst st rx.
    destruct raw as [|r0 raw]; [cbn [length] in Hraw; lia|].
    run_tick. reflexivity. }
  clearbody g1.
  remember (tick (Some SYNC2_CHAR) (expired 1%nat) g1) as g2 eqn:E2. clear E2.
  destruct (tick_good_sync2 next (expired 2%nat) g2 Hs2 Hi2 Hm2 Hq2)
    as (Hc3 & _); [lia|].
  rewrite (He 2%nat) in Hc3.
  apply run_keeps_connected; [intros k; apply He|].
  rewrite (He 2%nat). exact Hc3.
Qed.

Lemma X16_sync_pair_marks_connected_witness :
  GPS_isConnected
    (run (fun _ => false)
       (Some SYNC1_CHAR :: Some SYNC2_CHAR :: None :: [Some 0xFF; None])
       gps_start)
  = true.
Proof.
  apply (X16_sync_pair_marks_connected gps_start (fun _ => false) None
           [Some 0xFF; None]).
  - reflexivity.
  - reflexivity.
  - vm_compute. repeat constructor.
  - reflexivity.
Defined.

End GpsFacts.

(** ** Facts about the command protocol *)

Module MavlinkFacts.
Import Mavlink.

Section Facts.
Context `{External}.

Lemma take_inserts_0 (k l : list Z) :
  (length k <= length l)%nat -> take (length k) (list_inserts 0 k l) = k.
Proof.
  intros Hlen. apply list_eq. intros i.
  destruct (decide (i < length k)%nat) as [Hi|Hi].
  - rewrite lookup_take_lt by lia.
    rewrite list_lookup_inserts by lia. f_equal. lia.
  - rewrite lookup_take_ge by lia. symmetry. apply lookup_ge_None. lia.
Qed.

Lemma copy_loop_length n : forall x src dst,
  length (copy_loop n x src dst) = length dst.
Proof.
  induction n as [|n IH]; intros x src dst; cbn [copy_loop]; [reflexivity|].
  rewrite IH. unfold aset. apply length_insert.
Qed.

Lemma copy_loop_lookup n : forall x src dst i,
  0 <= x ->
  copy_loop n x src dst !! i =
  if decide (Z.to_nat x <= i < Z.to_nat x + n /\ i < length dst)%nat
  then Some (aget src (Z.of_nat i)) else dst !! i.
Proof.
  induction n as [|n IH]; intros x src dst i Hx; cbn [copy_loop].
  - destruct (decide _) as [?|_]; [lia|reflexivity].
  - rewrite IH by lia. unfold aset.
    pose proof (length_insert dst (Z.to_nat x) (aget src x)) as Hl.
    destruct (decide (Z.to_nat (x + 1) <= i < Z.to_nat (x + 1) + n
                      /\ i < length (<[Z.to_nat x:=aget src x]> dst))%nat)
      as [Hi|Hi];
      destruct (decide (Z.to_nat x <= i < Z.to_nat x + S n
                        /\ i < length dst)%nat) as [Hj|Hj];
      try reflexivity; try (exfalso; lia).
    + assert (i = Z.to_nat x) as -> by lia.
      rewrite list_lookup_insert_eq by lia. rewrite Z2Nat.id by lia.
      reflexivity.
    + destruct (decide (i = Z.to_nat x)) as [->|Hne].
      * rewrite list_insert_ge by lia. reflexivity.
      * rewrite list_lookup_insert_ne by lia. reflexivity.
Qed.

(** The copy loop brings over at least every byte of the frame. *)
Lemma take_copy_loop (k : nat) (n : Z) (src dst : list Z) :
  (k <= length src)%nat -> (k <= length dst)%nat -> Z.of_nat k <= n ->
  take k (copy_loop (Z.to_nat n) 0 src dst) = take k src.
Proof.
  intros Hs Hd Hn. apply list_eq. intros i.
  destruct (decide (i < k)%nat) as [Hi|Hi].
  - rewrite !lookup_take_lt by lia. rewrite copy_loop_lookup by lia.
    destruct (decide _) as [_|?]; [|lia].
    unfold aget. rewrite Nat2Z.id.
    destruct (lookup_lt_is_Some_2 src i ltac:(lia)) as [v Hv].
    rewrite Hv. reflexivity.
  - rewrite !lookup_take_ge by lia. reflexivity.
Qed.

(** A frame that fits the local buffer is what [UART_putString] is given. *)
Lemma sent_frame (bytes : list Z) :
  Z.of_nat (length bytes) <= MAVLINK_MAX_PACKET_LEN ->
  MAVLINK_MAX_PACKET_LEN < 65536 ->
  length stack_buf = Z.to_nat (MAVLINK_MAX_PACKET_LEN + 1) ->
  u16 (Z.of_nat (length bytes)) = Z.of_nat (length bytes) /\
  take (Z.to_nat (u16 (Z.of_nat (length bytes)))) (filled_buf bytes) = bytes.
Proof.
  intros Hfit Hmax Hbuf.
  assert (Hu : u16 (Z.of_nat (length bytes)) = Z.of_nat (length bytes)).
  { unfold u16. apply Z.mod_small. lia. }
  split; [exact Hu|]. rewrite Hu, Nat2Z.id.
  apply take_inserts_0. lia.
Qed.

(** C4.  Sending a rescue-start command with [ack == TRUE] hands the
    encoded frame to the UART of the given channel and records it: status
    WAIT, the bytes of the frame at the start of [last_buf], their number
    in [last_length] and the channel in [last_uart_id].  Receiving a
    decoded ack that names the rescue-start message then sets the status
    to RECIEVED and keeps the stored frame.  Resending, before or after
    the ack, hands exactly the stored frame to the UART of the stored
    channel again and sets the status to WAIT. *)
Theorem C4_rescue_start_ack_cycle
  (w : World) (uart_id status : Z) (latitude longitude : Gps.float) :
  let frame := start_rescue_frame TRUE status latitude longitude in
  Z.of_nat (length frame) <= MAVLINK_MAX_PACKET_LEN ->
  MAVLINK_MAX_PACKET_LEN < 65536 ->
  length stack_buf = Z.to_nat (MAVLINK_MAX_PACKET_LEN + 1) ->
  (length frame <= length (last_buf (start_rescue w)))%nat ->
  let w1 := Mavlink_send_start_rescue uart_id TRUE status latitude
              longitude w in
  (trace w1 = trace w ++ [EvUART_putString uart_id frame] /\
   ACK_status (start_rescue w1) = ACK_STATUS_WAIT /\
   take (length frame) (last_buf (start_rescue w1)) = frame /\
   last_length (start_rescue w1) = Z.of_nat (length frame) /\
   last_uart_id (start_rescue w1) = uart_id) /\
  (forall packet,
     Message_Name packet = messageName_start_rescue ->
     let w2 := Mavlink_recieve_ACK packet w1 in
     ACK_status (start_rescue w2) = ACK_STATUS_RECIEVED /\
     last_buf (start_rescue w2) = last_buf (start_rescue w1) /\
     last_length (start_rescue w2) = last_length (start_rescue w1) /\
     last_uart_id (start_rescue w2) = last_uart_id (start_rescue w1) /\
     trace w2 = trace w1 /\
     let w3 := Mavlink_resend_start_rescue w2 in
     trace w3 = trace w2 ++ [EvUART_putString uart_id frame] /\
     ACK_status (start_rescue w3) = ACK_STATUS_WAIT) /\
  (let w3 := Mavlink_resend_start_rescue w1 in
   trace w3 = trace w1 ++ [EvUART_putString uart_id frame] /\
   ACK_status (start_rescue w3) = ACK_STATUS_WAIT /\
   last_buf (start_rescue w3) = last_buf (start_rescue w1) /\
   last_length (start_rescue w3) = last_length (start_rescue w1) /\
   last_uart_id (start_rescue w3) = last_uart_id (start_rescue w1)).
Proof.
  intros frame Hfit Hmax Hbuf Hlast w1.
  subst frame. unfold start_rescue_frame in *.
  set (frame := mavlink_msg_to_send_buffer _) in *.
  destruct (sent_frame frame Hfit Hmax Hbuf) as [Hu Hsent].
  assert (Hstored : take (length frame) (last_buf (start_rescue w1)) = frame).
  { subst w1. unfold Mavlink_send_start_rescue.
    change (TRUE =? TRUE) with true. cbv iota.
    cbn [start_rescue set_start_rescue last_buf UART_putString emit].
    fold frame. rewrite take_copy_loop; try lia.
    - pose proof Hsent as Hs. rewrite Hu, Nat2Z.id in Hs. exact Hs.
    - unfold filled_buf. rewrite length_inserts. lia. }
  assert (Hrest : trace w1 = trace w ++ [EvUART_putString uart_id frame] /\
                  ACK_status (start_rescue w1) = ACK_STATUS_WAIT /\
                  last_length (start_rescue w1) = Z.of_nat (length frame) /\
                  last_uart_id (start_rescue w1) = uart_id).
  { subst w1. unfold Mavlink_send_start_rescue.
    change (TRUE =? TRUE) with true. cbv iota.
    cbn [start_rescue set_start_rescue trace ACK_status last_length
         last_uart_id UART_putString emit].
    fold frame. rewrite Hsent, Hu. repeat split. }
  destruct Hrest as (Htr & Hst & Hll & Hid).
  assert (Hresend : forall v : World,
            last_buf (start_rescue v) = last_buf (start_rescue w1) ->
            last_length (start_rescue v) = last_length (start_rescue w1) ->
            last_uart_id (start_rescue v) = last_uart_id (start_rescue w1) ->
            trace (Mavlink_resend_start_rescue v)
              = trace v ++ [EvUART_putString uart_id frame] /\
            ACK_status (start_rescue (Mavlink_resend_start_rescue v))
              = ACK_STATUS_WAIT /\
            last_buf (start_rescue (Mavlink_resend_start_rescue v))
              = last_buf (start_rescue w1) /\
            last_length (start_rescue (Mavlink_resend_start_rescue v))
              = last_length (start_rescue w1) /\
            last_uart_id (start_rescue (Mavlink_resend_start_rescue v))
              = last_uart_id (start_rescue w1)).
  { intros v Hb Hl Hi.
    unfold Mavlink_resend_start_rescue, Mavlink_resend_message,
      UART_putString.
    cbn [start_rescue set_start_rescue trace emit ACK_status last_buf
         last_length last_uart_id].
    rewrite Hb, Hl, Hi, Hll, Hid, Nat2Z.id, Hstored. repeat split. }
  split; [repeat split; assumption|]. split.
  - intros packet Hname.
    set (w2 := Mavlink_recieve_ACK packet w1).
    assert (Hw2 : ACK_status (start_rescue w2) = ACK_STATUS_RECIEVED /\
                  last_buf (start_rescue w2) = last_buf (start_rescue w1) /\
                  last_length (start_rescue w2)
                    = last_length (start_rescue w1) /\
                  last_uart_id (start_rescue w2)
                    = last_uart_id (start_rescue w1) /\
                  trace w2 = trace w1).
    { subst w2. unfold Mavlink_recieve_ACK. rewrite Hname, Z.eqb_refl.
      repeat split. }
    destruct Hw2 as (H1 & H2 & H3 & H4 & H5).
    do 5 (split; [assumption|]).
    destruct (Hresend w2 H2 H3 H4) as (R1 & R2 & _).
    split; assumption.
  - apply Hresend; reflexivity.
Qed.

(** Every step of the receive loop only adds to the record of events. *)
Lemma dispatch_extends (w : World) :
  exists later, trace (dispatch w) = trace w ++ later.
Proof.
  unfold dispatch, Compas_recieve_start_rescue, Mavlink_send_ACK,
    UART_putString, Mavlink_recieve_ACK.
  repeat match goal with
         | |- context [if ?b then _ else _] => destruct b
         end; cbn [trace emit set_start_rescue];
    rewrite <- ?app_assoc; eauto using app_nil_r.
Qed.

Lemma recieve_char_extends c (w : World) :
  exists later, trace (recieve_char c w) = trace w ++ later.
Proof.
  unfold recieve_char.
  destruct (mavlink_parse_char c (msg w, status w)) as [r [m s]].
  destruct (c_true r).
  - destruct (dispatch_extends (set_parser m s w)) as [later Hl].
    exists later. exact Hl.
  - exists []. symmetry. apply app_nil_r.
Qed.

Lemma recieve_loop_extends fuel : forall uart_id (w : World),
  exists later, trace (recieve_loop fuel uart_id w) = trace w ++ later.
Proof.
  induction fuel as [|fuel IH]; intros uart_id w; cbn [recieve_loop].
  - exists []. symmetry. apply app_nil_r.
  - unfold UART_isReceiveEmpty, UART_getChar.
    destruct (uart_rx w uart_id) as [|c q].
    + exists []. symmetry. apply app_nil_r.
    + destruct (recieve_char_extends c
                  (set_uart_rx (<[uart_id:=q]> (uart_rx w)) w)) as [l1 H1].
      destruct (IH uart_id
                  (recieve_char c (set_uart_rx (<[uart_id:=q]> (uart_rx w)) w)))
        as [l2 H2].
      exists (l1 ++ l2). rewrite H2, H1, app_assoc. reflexivity.
Qed.

(** The loop body leaves the receive queues alone. *)
Lemma recieve_char_uart_rx c (w : World) :
  uart_rx (recieve_char c w) = uart_rx w.
Proof.
  unfold recieve_char.
  destruct (mavlink_parse_char c (msg w, status w)) as [r [m s]].
  destruct (c_true r); [|reflexivity].
  unfold dispatch, Compas_recieve_start_rescue, Mavlink_send_ACK,
    UART_putString, Mavlink_recieve_ACK.
  repeat match goal with
         | |- context [if ?b then _ else _] => destruct b
         end; reflexivity.
Qed.

(** With one unit of fuel per waiting byte the loop empties the queue:
    it stops because the queue is empty, not because fuel ran out. *)
Lemma recieve_loop_drains fuel : forall uart_id (w : World),
  length (uart_rx w uart_id) = fuel ->
  uart_rx (recieve_loop fuel uart_id w) uart_id = [].
Proof.
  induction fuel as [|fuel IH]; intros uart_id w Hlen; cbn [recieve_loop].
  - destruct (uart_rx w uart_id); [reflexivity|discriminate].
  - unfold UART_isReceiveEmpty, UART_getChar.
    destruct (uart_rx w uart_id) as [|c q] eqn:E; [discriminate|].
    apply IH. rewrite recieve_char_uart_rx. cbn [uart_rx set_uart_rx].
    rewrite fn_lookup_insert. cbn [length] in Hlen. lia.
Qed.

(** The loop body reads no receive queue, so worlds that differ only
    there stay so. *)
Lemma same_but_rx_fields (a b : World) :
  same_but_rx a b ->
  packet_drops a = packet_drops b /\ msg a = msg b /\ status a = status b /\
  start_rescue a = start_rescue b /\ trace a = trace b.
Proof.
  unfold same_but_rx, set_uart_rx. intros E. injection E. auto.
Qed.

Lemma recieve_char_same_but_rx c (a b : World) :
  same_but_rx a b -> same_but_rx (recieve_char c a) (recieve_char c b).
Proof.
  intros E.
  destruct (same_but_rx_fields a b E) as (Hp & Hm & Hs & Hr & Ht).
  destruct a as [pa ma sa ra ua ta], b as [pb mb sb rb ub tb].
  cbn [packet_drops msg status start_rescue trace] in Hp, Hm, Hs, Hr, Ht.
  subst pb mb sb rb tb.
  unfold recieve_char. cbn [msg status].
  destruct (mavlink_parse_char c (ma, sa)) as [r [m s]].
  unfold same_but_rx.
  destruct (c_true r); [|reflexivity].
  unfold dispatch, Compas_recieve_start_rescue, Mavlink_send_ACK,
    UART_putString, Mavlink_recieve_ACK.
  cbn [msg set_parser].
  repeat match goal with
         | |- context [if ?b then _ else _] => destruct b
         end; reflexivity.
Qed.

Lemma feed_same_but_rx bytes : forall a b : World,
  same_but_rx a b -> same_but_rx (feed bytes a) (feed bytes b).
Proof.
  induction bytes as [|c bytes IH]; intros a b E; [exact E|].
  apply (IH (recieve_char c a) (recieve_char c b)).
  apply recieve_char_same_but_rx. exact E.
Qed.

Lemma feed_app l1 l2 (w : World) : feed (l1 ++ l2) w = feed l2 (feed l1 w).
Proof. unfold feed. apply foldl_app. Qed.

Lemma feed_extends bytes : forall w : World,
  exists later, trace (feed bytes w) = trace w ++ later.
Proof.
  induction bytes as [|c bytes IH]; intros w.
  - exists []. symmetry. apply app_nil_r.
  - destruct (recieve_char_extends c w) as [l1 H1].
    destruct (IH (recieve_char c w)) as [l2 H2].
    exists (l1 ++ l2).
    change (feed (c :: bytes) w) with (feed bytes (recieve_char c w)).
    rewrite H2, H1, app_assoc. reflexivity.
Qed.

(** The loop is the loop body run on each waiting byte in turn, the
    oldest first. *)
Lemma recieve_loop_feed bytes : forall uart_id (w : World),
  uart_rx w uart_id = bytes ->
  same_but_rx (recieve_loop (length bytes) uart_id w) (feed bytes w).
Proof.
  induction bytes as [|c q IH]; intros uart_id w Hq.
  - unfold same_but_rx. reflexivity.
  - cbn [length recieve_loop]. unfold UART_isReceiveEmpty, UART_getChar.
    rewrite Hq.
    set (w0 := set_uart_rx (<[uart_id:=q]> (uart_rx w)) w).
    assert (H0 : same_but_rx w0 w) by (unfold same_but_rx; reflexivity).
    assert (Hq1 : uart_rx (recieve_char c w0) uart_id = q).
    { rewrite recieve_char_uart_rx. subst w0. cbn [uart_rx set_uart_rx].
      apply fn_lookup_insert. }
    pose proof (IH uart_id (recieve_char c w0) Hq1) as H1.
    pose proof (feed_same_but_rx q _ _
                  (recieve_char_same_but_rx c w0 w H0)) as H2.
    change (feed (c :: q) w) with (feed q (recieve_char c w)).
    unfold same_but_rx in *. congruence.
Qed.

(** More fuel than bytes waiting changes nothing: the loop stops on the
    empty queue. *)
Lemma recieve_loop_fuel fuel : forall uart_id (w : World),
  (length (uart_rx w uart_id) <= fuel)%nat ->
  recieve_loop fuel uart_id w
  = recieve_loop (length (uart_rx w uart_id)) uart_id w.
Proof.
  induction fuel as [|fuel IH]; intros uart_id w Hlen.
  - destruct (uart_rx w uart_id); [reflexivity|cbn [length] in Hlen; lia].
  - destruct (uart_rx w uart_id) as [|c q] eqn:Hq.
    + cbn [length recieve_loop]. unfold UART_isReceiveEmpty. rewrite Hq.
      reflexivity.
    + cbn [length recieve_loop]. unfold UART_isReceiveEmpty, UART_getChar.
      rewrite Hq.
      set (w1 := recieve_char c (set_uart_rx (<[uart_id:=q]> (uart_rx w)) w)).
      assert (Hq1 : uart_rx w1 uart_id = q).
      { subst w1. rewrite recieve_char_uart_rx. cbn [uart_rx set_uart_rx].
        apply fn_lookup_insert. }
      rewrite (IH uart_id w1) by (rewrite Hq1; cbn [length] in Hlen; lia).
      rewrite Hq1. reflexivity.
Qed.

(** C10.  Take any byte [c] waiting on the channel, behind the bytes
    [pre], and suppose that, once the loop body has run on [pre], [c]
    completes a frame whose identifier is that of rescue-start.  Then the
    loop body for [c] first hands the acknowledgement frame naming the
    rescue-start message to the UART of the radio channel when the
    decoded [ack] field is TRUE, and only then routes the decoded data to
    the position consumer; when the [ack] field is not TRUE (FALSE in
    particular) the data is routed and nothing is sent.  [Mavlink_recieve]
    records exactly what the loop body records on each waiting byte in
    turn, so for every rescue-start frame in the queue these events, and
    nothing else for this frame, stand in its record between the events
    of the bytes before [c] and those of the bytes after it. *)
Theorem C10_rescue_start_acknowledged_first
  (w : World) (uart_id c r : Z) (pre post : list Z)
  (m : mavlink_message_t) (s : mavlink_status_t) :
  uart_rx w uart_id = pre ++ c :: post ->
  mavlink_parse_char c (msg (feed pre w), status (feed pre w))
    = (r, (m, s)) ->
  r <> 0 ->
  msgid m = MAVLINK_MSG_ID_START_RESCUE ->
  MAVLINK_MSG_ID_XBEE_HEARTBEAT <> MAVLINK_MSG_ID_START_RESCUE ->
  Z.of_nat (length (ack_frame messageName_start_rescue))
    <= MAVLINK_MAX_PACKET_LEN ->
  MAVLINK_MAX_PACKET_LEN < 65536 ->
  length stack_buf = Z.to_nat (MAVLINK_MAX_PACKET_LEN + 1) ->
  let data := mavlink_msg_start_rescue_decode m in
  let events :=
    (if sr_ack data =? TRUE
     then [EvUART_putString XBEE_UART_ID
             (ack_frame messageName_start_rescue)]
     else [])
    ++ [EvCompas_recieve_start_rescue data] in
  trace (feed (pre ++ [c]) w) = trace (feed pre w) ++ events /\
  trace (Mavlink_recieve uart_id w) = trace (feed (uart_rx w uart_id) w) /\
  exists earlier later,
    trace (feed pre w) = trace w ++ earlier /\
    trace (Mavlink_recieve uart_id w)
      = trace w ++ earlier ++ events ++ later.
Proof.
  intros Hq Hparse Hr Hid Hne Hfit Hmax Hbuf data events.
  destruct (sent_frame _ Hfit Hmax Hbuf) as [_ Hsent].
  assert (Hstep : trace (feed (pre ++ [c]) w)
                  = trace (feed pre w) ++ events).
  { rewrite feed_app.
    change (feed [c] (feed pre w)) with (recieve_char c (feed pre w)).
    unfold recieve_char. rewrite Hparse.
    unfold c_true. destruct (Z.eqb_spec r 0) as [|_]; [contradiction|].
    cbn [negb]. unfold dispatch. cbn [msg set_parser]. rewrite Hid.
    destruct (Z.eqb_spec MAVLINK_MSG_ID_START_RESCUE
                MAVLINK_MSG_ID_XBEE_HEARTBEAT) as [E|_];
      [exfalso; apply Hne; symmetry; exact E|].
    rewrite Z.eqb_refl. fold data. subst events.
    unfold Compas_recieve_start_rescue, Mavlink_send_ACK, UART_putString.
    destruct (sr_ack data =? TRUE); cbn [trace emit set_parser].
    - unfold ack_frame in *. rewrite Hsent.
      rewrite <- app_assoc. reflexivity.
    - reflexivity. }
  assert (Hall : trace (Mavlink_recieve uart_id w)
                 = trace (feed (uart_rx w uart_id) w)).
  { unfold Mavlink_recieve. cbn [trace set_packet_drops].
    apply (same_but_rx_fields _ _
             (recieve_loop_feed (uart_rx w uart_id) uart_id w eq_refl)). }
  split; [exact Hstep|]. split; [exact Hall|].
  destruct (feed_extends pre w) as [earlier He].
  destruct (feed_extends post (feed (pre ++ [c]) w)) as [later Hl].
  exists earlier, later. split; [exact He|].
  rewrite Hall, Hq.
  replace (pre ++ c :: post) with ((pre ++ [c]) ++ post)
    by (rewrite <- app_assoc; reflexivity).
  rewrite feed_app, Hl, Hstep, He, <- !app_assoc. reflexivity.
Qed.

(** *** The rescue-start message, packed and decoded *)

Lemma get_put_uint32 (v : Z) (rest : list Z) :
  get_uint32 (put_uint32 v ++ rest) 0 = u32 v.
Proof.
  unfold get_uint32, put_uint32.
  change (aget ([u32 v mod 256; (u32 v / 256) mod 256;
                 (u32 v / 65536) mod 256; (u32 v / 16777216) mod 256]
                ++ rest) 0) with (u32 v mod 256).
  change (aget ([u32 v mod 256; (u32 v / 256) mod 256;
                 (u32 v / 65536) mod 256; (u32 v / 16777216) mod 256]
                ++ rest) (0 + 1)) with ((u32 v / 256) mod 256).
  change (aget ([u32 v mod 256; (u32 v / 256) mod 256;
                 (u32 v / 65536) mod 256; (u32 v / 16777216) mod 256]
                ++ rest) (0 + 2)) with ((u32 v / 65536) mod 256).
  change (aget ([u32 v mod 256; (u32 v / 256) mod 256;
                 (u32 v / 65536) mod 256; (u32 v / 16777216) mod 256]
                ++ rest) (0 + 3)) with ((u32 v / 16777216) mod 256).
  assert (Hr : 0 <= u32 v < 4294967296)
    by (unfold u32; apply Z.mod_pos_bound; lia).
  generalize dependent (u32 v). intros x Hx.
  replace (x / 65536) with (x / 256 / 256)
    by (rewrite Z.div_div by lia; reflexivity).
  replace (x / 16777216) with (x / 256 / 256 / 256)
    by (rewrite !Z.div_div by lia; reflexivity).
  Z.div_mod_to_equations. lia.
Qed.

Lemma inserts_0_app (k l : list Z) :
  (length k <= length l)%nat ->
  list_inserts 0 k l = k ++ drop (length k) l.
Proof.
  intros Hlen. apply list_eq. intros i.
  destruct (decide (i < length k)%nat) as [Hi|Hi].
  - rewrite list_lookup_inserts by lia. rewrite lookup_app_l by lia.
    f_equal. lia.
  - rewrite list_lookup_inserts_ge by lia. rewrite lookup_app_r by lia.
    rewrite lookup_drop. f_equal. lia.
Qed.

(** X17.  Packing a rescue-start message and decoding it again gives
    back the four fields, each reduced to the width of its C type
    (latitude and longitude to 32 bits, ack and status to 8), provided
    the framing library's finalisation leaves the payload alone and the
    message has room for the ten payload bytes. *)
Theorem X17_start_rescue_pack_decode
  (system_id component_id : Z) (m : mavlink_message_t)
  (ack status latitude longitude : Z) :
  finalize_keeps_payload ->
  (10 <= length (payload m))%nat ->
  mavlink_msg_start_rescue_decode
    (mavlink_msg_start_rescue_pack system_id component_id m ack status
       latitude longitude)
  = {| sr_latitude := u32 latitude; sr_longitude := u32 longitude;
       sr_ack := u8 ack; sr_status := u8 status |}.
Proof.
  intros Hfin Hlen.
  unfold mavlink_msg_start_rescue_decode, mavlink_msg_start_rescue_get_ack,
    mavlink_msg_start_rescue_get_status,
    mavlink_msg_start_rescue_get_latitude,
    mavlink_msg_start_rescue_get_longitude, mavlink_msg_start_rescue_pack.
  rewrite Hfin. cbn [payload].
  rewrite inserts_0_app by (cbn [length app put_uint32]; lia).
  set (rest := drop _ (payload m)).
  f_equal.
  - rewrite <- app_assoc. apply get_put_uint32.
  - change (get_uint32 ((put_uint32 latitude ++ put_uint32 longitude
                          ++ [u8 ack; u8 status]) ++ rest) 4)
      with (get_uint32 (put_uint32 longitude ++ [u8 ack; u8 status] ++ rest)
              0).
    apply get_put_uint32.
Qed.
(** *** What the receive loop does and does not touch *)

Lemma recieve_char_packet_drops c (w : World) :
  packet_drops (recieve_char c w) = packet_drops w.
Proof.
  unfold recieve_char.
  destruct (mavlink_parse_char c (msg w, status w)) as [r [m s]].
  destruct (c_true r); [|reflexivity].
  unfold dispatch, Compas_recieve_start_rescue, Mavlink_send_ACK,
    UART_putString, Mavlink_recieve_ACK.
  repeat match goal with
         | |- context [if ?b then _ else _] => destruct b
         end; reflexivity.
Qed.

Lemma recieve_loop_packet_drops fuel : forall uart_id (w : World),
  packet_drops (recieve_loop fuel uart_id w) = packet_drops w.
Proof.
  induction fuel as [|fuel IH]; intros uart_id w; cbn [recieve_loop];
    [reflexivity|].
  unfold UART_isReceiveEmpty, UART_getChar.
  destruct (uart_rx w uart_id) as [|c q]; [reflexivity|].
  rewrite IH, recieve_char_packet_drops. reflexivity.
Qed.

Lemma recieve_loop_other fuel : forall uart_id other (w : World),
  other <> uart_id ->
  uart_rx (recieve_loop fuel uart_id w) other = uart_rx w other.
Proof.
  induction fuel as [|fuel IH]; intros uart_id other w Hne;
    cbn [recieve_loop]; [reflexivity|].
  unfold UART_isReceiveEmpty, UART_getChar.
  destruct (uart_rx w uart_id) as [|c q]; [reflexivity|].
  rewrite IH by exact Hne. rewrite recieve_char_uart_rx.
  cbn [uart_rx set_uart_rx]. apply fn_lookup_insert_ne.
  intros E. apply Hne. symmetry. exact E.
Qed.

(** X18.  One call of [Mavlink_recieve], no byte arriving while it runs,
    is the loop body run on each byte that was waiting on its channel, the
    oldest first, and nothing more: parser state, acknowledgement record
    and record of events are what that leaves.  The queue of the channel
    is then empty and no other queue is touched; the loop stops because
    the queue is empty, however much fuel it is given beyond the number
    of waiting bytes; and the parser's drop count, as it stands after the
    last byte, is added to [packet_drops] once per call, in C [int]
    arithmetic (wrapped to 32 bits here). *)
Theorem X18_recieve_drains_its_channel (w : World) (uart_id : Z) :
  let w' := Mavlink_recieve uart_id w in
  let fed := feed (uart_rx w uart_id) w in
  (msg w', status w', start_rescue w', trace w')
    = (msg fed, status fed, start_rescue fed, trace fed) /\
  packet_drops w'
    = s32 (packet_drops w + packet_rx_drop_count (status fed)) /\
  uart_rx w' uart_id = [] /\
  (forall other, other <> uart_id -> uart_rx w' other = uart_rx w other) /\
  (forall fuel, (length (uart_rx w uart_id) <= fuel)%nat ->
     recieve_loop fuel uart_id w
     = recieve_loop (length (uart_rx w uart_id)) uart_id w).
Proof.
  cbv zeta. unfold Mavlink_recieve.
  cbn [msg status start_rescue trace uart_rx packet_drops set_packet_drops].
  destruct (same_but_rx_fields _ _
              (recieve_loop_feed (uart_rx w uart_id) uart_id w eq_refl))
    as (Hp & Hm & Hs & Hr & Ht).
  split; [rewrite Hm, Hs, Hr, Ht; reflexivity|].
  split; [rewrite recieve_loop_packet_drops, Hs; reflexivity|].
  split; [apply recieve_loop_drains; reflexivity|].
  split; [intros other Hne; apply recieve_loop_other; exact Hne|].
  intros fuel Hfuel. apply recieve_loop_fuel. exact Hfuel.
Qed.

Lemma ack_kept_refl a : ack_kept a a.
Proof. unfold ack_kept. auto. Qed.

Lemma ack_kept_trans a b c : ack_kept a b -> ack_kept b c -> ack_kept a c.
Proof.
  unfold ack_kept. intros (H1 & H2 & H3 & H4) (K1 & K2 & K3 & K4).
  repeat split; try congruence.
  destruct K4 as [K4|K4]; [|right; exact K4].
  destruct H4 as [H4|H4]; [left|right]; congruence.
Qed.

Lemma recieve_char_ack_kept c (w : World) :
  ack_kept (start_rescue w) (start_rescue (recieve_char c w)).
Proof.
  unfold recieve_char.
  destruct (mavlink_parse_char c (msg w, status w)) as [r [m s]].
  destruct (c_true r); [|apply ack_kept_refl].
  unfold dispatch, Compas_recieve_start_rescue, Mavlink_send_ACK,
    UART_putString, Mavlink_recieve_ACK.
  repeat match goal with
         | |- context [if ?b then _ else _] => destruct b
         end; cbn [start_rescue set_start_rescue set_parser emit];
    unfold ack_kept; cbn [last_buf last_length last_uart_id ACK_status];
    auto.
Qed.

Lemma recieve_loop_ack_kept fuel : forall uart_id (w : World),
  ack_kept (start_rescue w) (start_rescue (recieve_loop fuel uart_id w)).
Proof.
  induction fuel as [|fuel IH]; intros uart_id w; cbn [recieve_loop];
    [apply ack_kept_refl|].
  unfold UART_isReceiveEmpty, UART_getChar.
  destruct (uart_rx w uart_id) as [|c q]; [apply ack_kept_refl|].
  eapply ack_kept_trans; [|apply IH].
  apply (recieve_char_ack_kept c
           (set_uart_rx (<[uart_id:=q]> (uart_rx w)) w)).
Qed.

(** X19.  Whatever bytes are waiting and whatever the parser makes of
    them, [Mavlink_recieve] never alters the stored copy of the last
    rescue-start frame (bytes, length, channel), and the only change it
    can make to the acknowledgement status is to set it to RECIEVED. *)
Theorem X19_recieve_keeps_stored_frame (w : World) (uart_id : Z) :
  last_buf (start_rescue (Mavlink_recieve uart_id w))
    = last_buf (start_rescue w) /\
  last_length (start_rescue (Mavlink_recieve uart_id w))
    = last_length (start_rescue w) /\
  last_uart_id (start_rescue (Mavlink_recieve uart_id w))
    = last_uart_id (start_rescue w) /\
  (ACK_status (start_rescue (Mavlink_recieve uart_id w))
     = ACK_status (start_rescue w) \/
   ACK_status (start_rescue (Mavlink_recieve uart_id w))
     = ACK_STATUS_RECIEVED).
Proof.
  unfold Mavlink_recieve. cbn [start_rescue set_packet_drops].
  apply (recieve_loop_ack_kept (length (uart_rx w uart_id)) uart_id w).
Qed.

(** X20.  Suppose the next byte waiting on the channel completes a frame
    whose identifier is that of the acknowledgement message.  When it
    names the rescue-start message the loop body sets the status to
    RECIEVED, sends nothing and routes nothing, and the status is still
    RECIEVED when [Mavlink_recieve] returns, whatever follows in the
    queue; when it names anything else the acknowledgement record is left
    exactly as it was. *)
Theorem X20_acknowledgement_received
  (w : World) (uart_id c r : Z) (q : list Z)
  (m : mavlink_message_t) (s : mavlink_status_t) :
  uart_rx w uart_id = c :: q ->
  mavlink_parse_char c (msg w, status w) = (r, (m, s)) ->
  r <> 0 ->
  msgid m = MAVLINK_MSG_ID_MAVLINK_ACK ->
  MAVLINK_MSG_ID_XBEE_HEARTBEAT <> MAVLINK_MSG_ID_MAVLINK_ACK ->
  MAVLINK_MSG_ID_START_RESCUE <> MAVLINK_MSG_ID_MAVLINK_ACK ->
  let w1 := recieve_char c (snd (UART_getChar uart_id w)) in
  trace w1 = trace w /\
  if Message_Name (mavlink_msg_mavlink_ack_decode m)
     =? messageName_start_rescue
  then
    ACK_status (start_rescue w1) = ACK_STATUS_RECIEVED /\
    ACK_status (start_rescue (Mavlink_recieve uart_id w))
      = ACK_STATUS_RECIEVED
  else start_rescue w1 = start_rescue w.
Proof.
  intros Hq Hparse Hr Hid Hne1 Hne2 w1.
  assert (Hgc : UART_getChar uart_id w
                = (c, set_uart_rx (<[uart_id:=q]> (uart_rx w)) w)).
  { unfold UART_getChar. rewrite Hq. reflexivity. }
  assert (Hw1 : w1 = Mavlink_recieve_ACK (mavlink_msg_mavlink_ack_decode m)
                       (set_parser m s
                          (set_uart_rx (<[uart_id:=q]> (uart_rx w)) w))).
  { subst w1. rewrite Hgc. cbn [snd]. unfold recieve_char.
    cbn [msg status set_uart_rx]. rewrite Hparse.
    unfold c_true. destruct (Z.eqb_spec r 0) as [|_]; [contradiction|].
    cbn [negb]. unfold dispatch. cbn [msg set_parser]. rewrite Hid.
    destruct (Z.eqb_spec MAVLINK_MSG_ID_MAVLINK_ACK
                MAVLINK_MSG_ID_XBEE_HEARTBEAT) as [E|_];
      [exfalso; apply Hne1; symmetry; exact E|].
    destruct (Z.eqb_spec MAVLINK_MSG_ID_MAVLINK_ACK
                MAVLINK_MSG_ID_START_RESCUE) as [E|_];
      [exfalso; apply Hne2; symmetry; exact E|].
    rewrite Z.eqb_refl. reflexivity. }
  assert (Hloop : Mavlink_recieve uart_id w =
            let w2 := recieve_loop (length q) uart_id w1 in
            set_packet_drops
              (s32 (packet_drops w2 + packet_rx_drop_count (status w2)))
              w2).
  { unfold Mavlink_recieve. rewrite Hq. cbn [length recieve_loop].
    unfold UART_isReceiveEmpty. rewrite Hq, Hgc.
    subst w1. rewrite Hgc. reflexivity. }
  clearbody w1. subst w1. unfold Mavlink_recieve_ACK in *.
  destruct (Message_Name (mavlink_msg_mavlink_ack_decode m)
            =? messageName_start_rescue).
  - split; [reflexivity|]. split; [reflexivity|].
    rewrite Hloop. cbv zeta. cbn [start_rescue set_packet_drops].
    match goal with |- context [recieve_loop ?f ?u ?v] =>
      destruct (recieve_loop_ack_kept f u v) as (_ & _ & _ & [K|K])
    end; [rewrite K; reflexivity | exact K].
  - split; reflexivity.
Qed.

(** *** Sending *)

(** X21.  Sending an acknowledgement, or a rescue-start command whose
    [ack] argument is not TRUE (FALSE, or any other value), hands the
    encoded frame to the UART of the given channel and changes nothing
    else: the acknowledgement record in particular keeps its status and
    its stored frame. *)
Theorem X21_sends_that_record_nothing
  (w : World) (uart_id Message_Name ack status : Z)
  (latitude longitude : Gps.float) :
  MAVLINK_MAX_PACKET_LEN < 65536 ->
  length stack_buf = Z.to_nat (MAVLINK_MAX_PACKET_LEN + 1) ->
  (Z.of_nat (length (ack_frame Message_Name)) <= MAVLINK_MAX_PACKET_LEN ->
   Mavlink_send_ACK uart_id Message_Name w =
     emit (EvUART_putString uart_id (ack_frame Message_Name)) w) /\
  (Z.of_nat (length (start_rescue_frame ack status latitude longitude))
     <= MAVLINK_MAX_PACKET_LEN ->
   ack <> TRUE ->
   Mavlink_send_start_rescue uart_id ack status latitude longitude w =
     emit (EvUART_putString uart_id
             (start_rescue_frame ack status latitude longitude)) w).
Proof.
  intros Hmax Hbuf. split.
  - intros Hfit. destruct (sent_frame _ Hfit Hmax Hbuf) as [_ Hsent].
    unfold Mavlink_send_ACK, UART_putString. unfold ack_frame in *.
    rewrite Hsent. reflexivity.
  - intros Hfit Hack. destruct (sent_frame _ Hfit Hmax Hbuf) as [_ Hsent].
    unfold Mavlink_send_start_rescue, UART_putString.
    unfold start_rescue_frame in *.
    destruct (Z.eqb_spec ack TRUE) as [|_]; [contradiction|].
    rewrite Hsent. reflexivity.
Qed.

(** X22.  [Mavlink_resend_message] on the rescue-start record can be
    repeated without limit: [n] calls hand the stored frame (the first
    [last_length] bytes of [last_buf]) to the stored channel [n] times,
    never change what is stored, and leave the status WAIT whatever it
    was, RECIEVED included. *)
Theorem X22_resend_repeats_stored_frame (n : nat) (w : World) :
  trace (resend_n n w) =
    trace w
    ++ replicate n
         (EvUART_putString (last_uart_id (start_rescue w))
            (take (Z.to_nat (last_length (start_rescue w)))
               (last_buf (start_rescue w)))) /\
  last_buf (start_rescue (resend_n n w)) = last_buf (start_rescue w) /\
  last_length (start_rescue (resend_n n w)) = last_length (start_rescue w) /\
  last_uart_id (start_rescue (resend_n n w))
    = last_uart_id (start_rescue w) /\
  ((0 < n)%nat -> ACK_status (start_rescue (resend_n n w)) = ACK_STATUS_WAIT).
Proof.
  revert w.
  induction n as [|n IH]; intros w.
  - cbn [resend_n replicate]. rewrite app_nil_r.
    repeat split. lia.
  - cbn [resend_n replicate].
    destruct (IH (Mavlink_resend_start_rescue w)) as (Ht & Hb & Hl & Hu & Hs).
    rewrite Ht, Hb, Hl, Hu.
    unfold Mavlink_resend_start_rescue, Mavlink_resend_message,
      UART_putString in *.
    cbn [start_rescue set_start_rescue trace emit ACK_status last_buf
         last_length last_uart_id] in *.
    rewrite <- app_assoc. split; [reflexivity|].
    split; [reflexivity|]. split; [reflexivity|]. split; [reflexivity|].
    intros _. destruct n as [|n]; [reflexivity|]. apply Hs. lia.
Qed.

End Facts.

Lemma C4_rescue_start_ack_cycle_witness :
  let w := sample_world 0 in
  let frame :=
    start_rescue_frame (H := sample_external) TRUE 0
      (Gps.float_of_int 0) (Gps.float_of_int 0) in
  let w1 := Mavlink_send_start_rescue 1 TRUE 0 (Gps.float_of_int 0)
              (Gps.float_of_int 0) w in
  trace w1 = [EvUART_putString 1 frame] /\
  ACK_status (start_rescue w1) = ACK_STATUS_WAIT /\
  take (length frame) (last_buf (start_rescue w1)) = frame /\
  trace (Mavlink_resend_start_rescue w1)
    = [EvUART_putString 1 frame; EvUART_putString 1 frame].
Proof.
  destruct (C4_rescue_start_ack_cycle (H := sample_external)
              (sample_world 0) 1 0 (Gps.float_of_int 0) (Gps.float_of_int 0))
    as ((H1 & H2 & H3 & _) & _ & (H4 & _)).
  - vm_compute. discriminate.
  - reflexivity.
  - reflexivity.
  - vm_compute. lia.
  - cbv zeta. rewrite H4, H1. repeat split; assumption.
Defined.

Lemma C10_rescue_start_acknowledged_first_witness :
  let w := sample_world_queue [0; 1; 0] in
  let data := {| sr_latitude := 0; sr_longitude := 0; sr_ack := 1;
                 sr_status := 0 |} in
  let events :=
    [EvUART_putString 1 (ack_frame (H := sample_external) 1);
     EvCompas_recieve_start_rescue data] in
  trace (feed [0; 1] w) = trace (feed [0] w) ++ events /\
  trace (Mavlink_recieve 1 w) = trace (feed [0; 1; 0] w) /\
  exists earlier later,
    trace (feed [0] w) = trace w ++ earlier /\
    trace (Mavlink_recieve 1 w) = trace w ++ earlier ++ events ++ later.
Proof.
  apply (C10_rescue_start_acknowledged_first (H := sample_external)
           (sample_world_queue [0; 1; 0]) 1 1 1 [0] [0]
           {| checksum := 0; magic := 254; len := 10; seq := 0;
              sysid := MAV_NUMBER; compid := COMP_ID;
              msgid := MAVLINK_MSG_ID_START_RESCUE;
              payload := [0; 0; 0; 0; 0; 0; 0; 0; 1; 0] |} 0).
  - reflexivity.
  - reflexivity.
  - discriminate.
  - reflexivity.
  - discriminate.
  - vm_compute. discriminate.
  - reflexivity.
  - reflexivity.
Defined.

Lemma X17_start_rescue_pack_decode_witness :
  mavlink_msg_start_rescue_decode
    (mavlink_msg_start_rescue_pack (H := sample_external) MAV_NUMBER COMP_ID
       (stack_msg (External := sample_external)) 1 258 4294967297 369800000)
  = {| sr_latitude := 1; sr_longitude := 369800000; sr_ack := 1;
       sr_status := 2 |}.
Proof.
  apply (X17_start_rescue_pack_decode (H := sample_external)
           MAV_NUMBER COMP_ID (stack_msg (External := sample_external))
           1 258 4294967297 369800000).
  - intros m a b c d. reflexivity.
  - vm_compute. lia.
Defined.

Lemma X20_acknowledgement_received_witness :
  let w := sample_world_ack [1; 7] in
  let w1 := recieve_char 1 (snd (UART_getChar 1 w)) in
  trace w1 = trace w /\
  ACK_status (start_rescue w1) = ACK_STATUS_RECIEVED /\
  ACK_status (start_rescue (Mavlink_recieve 1 w)) = ACK_STATUS_RECIEVED.
Proof.
  apply (X20_acknowledgement_received (H := sample_external_ack)
           (sample_world_ack [1; 7]) 1 1 1 [7]
           {| checksum := 0; magic := 254; len := 1; seq := 0;
              sysid := MAV_NUMBER; compid := COMP_ID; msgid := 242;
              payload := [1] |} 0).
  - reflexivity.
  - reflexivity.
  - discriminate.
  - reflexivity.
  - discriminate.
  - discriminate.
Defined.

Lemma X21_sends_that_record_nothing_witness :
  Mavlink_send_ACK (H := sample_external) 1 1 (sample_world 0) =
    emit (EvUART_putString 1 (ack_frame (H := sample_external) 1))
      (sample_world 0) /\
  Mavlink_send_start_rescue (H := sample_external) 1 2 0
    (Gps.float_of_int 0) (Gps.float_of_int 0) (sample_world 0) =
    emit (EvUART_putString 1
            (start_rescue_frame (H := sample_external) 2 0
               (Gps.float_of_int 0) (Gps.float_of_int 0))) (sample_world 0).
Proof.
  destruct (X21_sends_that_record_nothing (H := sample_external)
              (sample_world 0) 1 1 2 0 (Gps.float_of_int 0)
              (Gps.float_of_int 0)) as [H1 H2].
  - reflexivity.
  - reflexivity.
  - split.
    + apply H1. vm_compute. discriminate.
    + apply H2; [vm_compute; discriminate | discriminate].
Defined.

End MavlinkFacts.
